(** * SimpleVector: a shallow embedding of [simple_vector.h]

    The container is a C++ class template that owns one heap array through
    [ArrayPtr<Type>] and keeps a logical length [size_] and a physical length
    [capacity_] next to it.  The embedding keeps that shape:

    - a heap of array blocks, addressed by block number, each block a list of
      slots; a pointer is [nullptr] or a block with an offset;
    - [size_t] values are integers in [0, 2^64) and every arithmetic step of
      the source on them is written with its wrap-around;
    - every method is a computation over the heap that returns, throws, or has
      undefined behaviour (an access outside a live block);
    - an argument taken by reference is an object of its own or a slot of an
      array, and it is read at the statement of the source that reads it;
    - the two assignment operators compare [this] with [&rhs], so they run over
      a store of vector objects addressed by number. *)

From Stdlib Require Import ZArith Lia String.
From stdpp Require Import base option list.

#[local] Open Scope Z_scope.

(** ** Outcomes of a C++ computation *)

Inductive exception : Type :=
  | out_of_range (what : string)
  | bad_alloc.

Inductive outcome (A : Type) : Type :=
  | Ret (a : A)
  | Throw (e : exception)
  | Undefined.

Arguments Ret {A} a.
Arguments Throw {A} e.
Arguments Undefined {A}.

(** ** Pointers *)

Inductive pointer : Type :=
  | nullptr
  | Ptr (b : nat) (off : Z).

(** [p + k].  Forming a pointer never fails in the model; using one that does
    not designate a slot of a live block does. *)
Definition ptr_add (p : pointer) (k : Z) : pointer :=
  match p with
  | nullptr => nullptr
  | Ptr b off => Ptr b (off + k)
  end.

(** [p - q], defined for two pointers into the same array (or two null
    pointers). *)
Definition ptr_diff (p q : pointer) : outcome Z :=
  match p, q with
  | nullptr, nullptr => Ret 0
  | Ptr b1 o1, Ptr b2 o2 => if Nat.eqb b1 b2 then Ret (o1 - o2) else Undefined
  | _, _ => Undefined
  end.

(** [size_t] is a 64-bit unsigned integer. *)
Definition size_t_modulus : Z := 2 ^ 64.
Definition to_size_t (z : Z) : Z := z mod size_t_modulus.

Section SimpleVector.

Set Default Proof Using "Type".

(** [tauto] on the goal alone: the section's variables stay out of the proof. *)
Ltac prop_tauto :=
  repeat match goal with
         | x : _ |- _ =>
             lazymatch type of x with
             | ?P => lazymatch type of P with Prop => fail | _ => clear x end
             end
         end;
  tauto.

(** [Type], the element type of the template, with its value-initialised
    object [Type{}] and its [operator==]. *)
Variable T : Type.
Variable Type_default : T.
Variable Type_eqb : T -> T -> bool.

(** [operator<] of [Type], which the ordering operators of the container
    use. *)
Variable Type_ltb : T -> T -> bool.

(** The largest array [new Type[n]] hands out: a request for more slots
    throws [std::bad_alloc].  No array has 2^64 slots or more; the theorems
    that need this bound say so. *)
Variable alloc_limit : Z.

(** ** The heap *)

(** A slot holds an element value, or [None] when its content is
    unspecified: fresh from [new Type[n]] or left behind by a move. *)
Abbreviation slot := (option T).

(** Block [b] of the heap is [Some buf] while the array is allocated and
    [None] once it has been released. *)
Abbreviation heap := (list (option (list slot))).

(** Computations over the heap. *)
Definition M (A : Type) : Type := heap -> outcome (A * heap).

Definition ret {A} (a : A) : M A := fun h => Ret (a, h).

Definition bind {A B} (m : M A) (k : A -> M B) : M B :=
  fun h =>
    match m h with
    | Ret (a, h') => k a h'
    | Throw e => Throw e
    | Undefined => Undefined
    end.

Definition throw {A} (e : exception) : M A := fun _ => Throw e.
Definition undefined {A} : M A := fun _ => Undefined.

Definition lift {A} (o : outcome A) : M A :=
  fun h =>
    match o with
    | Ret a => Ret (a, h)
    | Throw e => Throw e
    | Undefined => Undefined
    end.

Notation "'let*' x := m 'in' k" := (bind m (fun x => k))
  (at level 10, x pattern, m at level 100, k at level 200).
Notation "m ;; k" := (bind m (fun _ => k))
  (at level 100, k at level 200, right associativity).
Notation "p +ₚ k" := (ptr_add p k) (at level 50, left associativity).

Definition block_of (h : heap) (b : nat) : option (list slot) :=
  match h !! b with
  | Some (Some buf) => Some buf
  | _ => None
  end.

(** [*p] read as a whole slot. *)
Definition load (p : pointer) : M slot :=
  fun h =>
    match p with
    | nullptr => Undefined
    | Ptr b off =>
        match block_of h b with
        | Some buf =>
            if 0 <=? off then
              match buf !! Z.to_nat off with
              | Some s => Ret (s, h)
              | None => Undefined
              end
            else Undefined
        | None => Undefined
        end
    end.

(** [*p = s]. *)
Definition store (p : pointer) (s : slot) : M unit :=
  fun h =>
    match p with
    | nullptr => Undefined
    | Ptr b off =>
        match block_of h b with
        | Some buf =>
            if (0 <=? off) && (off <? Z.of_nat (length buf)) then
              Ret (tt, <[b := Some (<[Z.to_nat off := s]> buf)]> h)
            else Undefined
        | None => Undefined
        end
    end.

(** Reading the value of an element: the slot must hold one. *)
Definition load_value (p : pointer) : M T :=
  let* s := load p in
  match s with
  | Some x => ret x
  | None => undefined
  end.

(** Modelled from the spec: the allocation inside [ArrayPtr(size)],
    [new Type[n]] for [n > 0].  It yields a fresh block of [n] slots of
    unspecified content, or fails with an out-of-memory condition. *)
Definition new_array (n : Z) : M pointer :=
  fun h =>
    if alloc_limit <? n then Throw bad_alloc
    else Ret (Ptr (length h) 0, h ++ [Some (replicate (Z.to_nat n) None)]).

(** Modelled from the spec: the release inside [~ArrayPtr()],
    [delete[] p]. *)
Definition delete_array (p : pointer) : M unit :=
  fun h =>
    match p with
    | nullptr => Ret (tt, h)
    | Ptr b off =>
        match block_of h b with
        | Some _ => if off =? 0 then Ret (tt, <[b := None]> h) else Undefined
        | None => Undefined
        end
    end.

(** ** The algorithms of the standard library the container calls *)

(** [*dst = *src], or [*dst] move-assigned from [*src] when the source range is
    wrapped in [std::make_move_iterator]: the moved-from slot is left
    unspecified. *)
Definition assign_through (mv : bool) (dst src : pointer) : M unit :=
  let* s := load src in
  store dst s ;;
  if mv then store src None else ret tt.

Fixpoint copy_loop (mv : bool) (n : nat) (first d_first : pointer) : M pointer :=
  match n with
  | O => ret d_first
  | S k =>
      assign_through mv d_first first ;;
      copy_loop mv k (first +ₚ 1) (d_first +ₚ 1)
  end.

(** [std::copy(first, last, d_first)]: front to back. *)
Definition std_copy (mv : bool) (first last d_first : pointer) : M pointer :=
  let* n := lift (ptr_diff last first) in
  if n <? 0 then undefined else copy_loop mv (Z.to_nat n) first d_first.

Fixpoint copy_backward_loop (mv : bool) (n : nat) (last d_last : pointer) : M pointer :=
  match n with
  | O => ret d_last
  | S k =>
      assign_through mv (d_last +ₚ (-1)) (last +ₚ (-1)) ;;
      copy_backward_loop mv k (last +ₚ (-1)) (d_last +ₚ (-1))
  end.

(** [std::copy_backward(first, last, d_last)]: back to front, the copy ends
    just before [d_last]. *)
Definition std_copy_backward (mv : bool) (first last d_last : pointer) : M pointer :=
  let* n := lift (ptr_diff last first) in
  if n <? 0 then undefined else copy_backward_loop mv (Z.to_nat n) last d_last.

Fixpoint fill_loop (n : nat) (first : pointer) (value : T) : M unit :=
  match n with
  | O => ret tt
  | S k => store first (Some value) ;; fill_loop k (first +ₚ 1) value
  end.

(** [std::fill(first, last, value)]. *)
Definition std_fill (first last : pointer) (value : T) : M unit :=
  let* n := lift (ptr_diff last first) in
  if n <? 0 then undefined else fill_loop (Z.to_nat n) first value.

Fixpoint equal_loop (n : nat) (first1 first2 : pointer) : M bool :=
  match n with
  | O => ret true
  | S k =>
      let* x := load_value first1 in
      let* y := load_value first2 in
      if Type_eqb x y then equal_loop k (first1 +ₚ 1) (first2 +ₚ 1)
      else ret false
  end.

(** [std::equal(first1, last1, first2, last2)] on random-access iterators:
    ranges of different lengths are unequal without looking at an element. *)
Definition std_equal (first1 last1 first2 last2 : pointer) : M bool :=
  let* n1 := lift (ptr_diff last1 first1) in
  let* n2 := lift (ptr_diff last2 first2) in
  if (n1 <? 0) || (n2 <? 0) then undefined
  else if negb (n1 =? n2) then ret false
  else equal_loop (Z.to_nat n1) first1 first2.

Fixpoint lexicographical_compare_loop (n1 n2 : nat) (first1 first2 : pointer)
  : M bool :=
  match n1, n2 with
  | S k1, S k2 =>
      let* x := load_value first1 in
      let* y := load_value first2 in
      if Type_ltb x y then ret true
      else if Type_ltb y x then ret false
      else lexicographical_compare_loop k1 k2 (first1 +ₚ 1) (first2 +ₚ 1)
  | O, S _ => ret true
  | _, O => ret false
  end.

(** [std::lexicographical_compare(first1, last1, first2, last2)]: the first
    position where one element is less than the other decides; when one
    range runs out first, the shorter range is the smaller. *)
Definition std_lexicographical_compare (first1 last1 first2 last2 : pointer)
  : M bool :=
  let* n1 := lift (ptr_diff last1 first1) in
  let* n2 := lift (ptr_diff last2 first2) in
  if (n1 <? 0) || (n2 <? 0) then undefined
  else lexicographical_compare_loop (Z.to_nat n1) (Z.to_nat n2) first1 first2.

(** ** ArrayPtr *)

(** Modelled from the spec: [array_ptr.h] is not among the sources.  The
    buffer owner holds one raw block and nothing else; a zero-capacity owner
    holds no block. *)
Record ArrayPtr : Type := { raw_ptr_ : pointer }.

(** Modelled from the spec: [ArrayPtr()], zero capacity, no block. *)
Definition ArrayPtr_default : ArrayPtr := {| raw_ptr_ := nullptr |}.

(** Modelled from the spec: [ArrayPtr(size)] allocates a block of [size]
    slots; capacity 0 is legal and allocates nothing; a failed allocation
    propagates. *)
Definition ArrayPtr_sized (size : Z) : M ArrayPtr :=
  if size =? 0 then ret ArrayPtr_default
  else
    let* p := new_array size in
    ret {| raw_ptr_ := p |}.

(** Modelled from the spec: the destructor releases the owned block. *)
Definition ArrayPtr_destroy (a : ArrayPtr) : M unit :=
  delete_array (raw_ptr_ a).

(** Modelled from the spec: move construction transfers the block and leaves
    the source with none.  Returns the new owner and the source. *)
Definition ArrayPtr_move (other : ArrayPtr) : ArrayPtr * ArrayPtr :=
  ({| raw_ptr_ := raw_ptr_ other |}, ArrayPtr_default).

(** Modelled from the spec: [a.swap(b)] exchanges the owned blocks.  Returns
    the new [a] and the new [b]. *)
Definition ArrayPtr_swap (a b : ArrayPtr) : ArrayPtr * ArrayPtr := (b, a).

(** Modelled from the spec: [Get()]. *)
Definition Get (a : ArrayPtr) : pointer := raw_ptr_ a.

(** Modelled from the spec: [a[i]], a reference to slot [i] with no bounds
    check. *)
Definition ArrayPtr_index (a : ArrayPtr) (i : Z) : pointer := raw_ptr_ a +ₚ i.

(** ** SimpleVector *)

Record ReserveProxyObj : Type := { proxy_size_ : Z }.

Definition ReserveProxyObj_GetSize (p : ReserveProxyObj) : Z := proxy_size_ p.

(** The free function [Reserve(capacity_to_reserve)]. *)
Definition Reserve_proxy (capacity_to_reserve : Z) : ReserveProxyObj :=
  {| proxy_size_ := capacity_to_reserve |}.

Record SimpleVector : Type := {
  data_ : ArrayPtr;
  size_ : Z;
  capacity_ : Z
}.

Definition capacity_multiplier : Z := 2.

Definition with_size (this : SimpleVector) (n : Z) : SimpleVector :=
  {| data_ := data_ this; size_ := n; capacity_ := capacity_ this |}.

(** [SimpleVector()]. *)
Definition SimpleVector_default : SimpleVector :=
  {| data_ := ArrayPtr_default; size_ := 0; capacity_ := 0 |}.

(** [SimpleVector(size_t size)]. *)
Definition SimpleVector_sized (size : Z) : M SimpleVector :=
  let* data := ArrayPtr_sized size in
  let this := {| data_ := data; size_ := size; capacity_ := size |} in
  std_fill (Get (data_ this)) (Get (data_ this) +ₚ size_ this) Type_default ;;
  ret this.

(** [SimpleVector(const ReserveProxyObj&)]. *)
Definition SimpleVector_reserved (proxy_for_res : ReserveProxyObj) : M SimpleVector :=
  let* data := ArrayPtr_sized (ReserveProxyObj_GetSize proxy_for_res) in
  ret {| data_ := data; size_ := 0;
         capacity_ := ReserveProxyObj_GetSize proxy_for_res |}.

(** [SimpleVector(size_t size, const Type& value)]. *)
Definition SimpleVector_filled (size : Z) (value : T) : M SimpleVector :=
  let* data := ArrayPtr_sized size in
  let this := {| data_ := data; size_ := size; capacity_ := size |} in
  std_fill (Get (data_ this)) (Get (data_ this) +ₚ size_ this) value ;;
  ret this.

Fixpoint copy_init (init : list T) (d_first : pointer) : M pointer :=
  match init with
  | [] => ret d_first
  | x :: rest => store d_first (Some x) ;; copy_init rest (d_first +ₚ 1)
  end.

(** [SimpleVector(std::initializer_list<Type> init)]. *)
Definition SimpleVector_init (init : list T) : M SimpleVector :=
  let n := Z.of_nat (length init) in
  let* data := ArrayPtr_sized n in
  let this := {| data_ := data; size_ := n; capacity_ := n |} in
  copy_init init (Get (data_ this)) ;;
  ret this.

(** [SimpleVector(const SimpleVector& other)]. *)
Definition SimpleVector_copy (other : SimpleVector) : M SimpleVector :=
  let* data := ArrayPtr_sized (capacity_ other) in
  let this := {| data_ := data; size_ := size_ other; capacity_ := capacity_ other |} in
  std_copy false (Get (data_ other)) (Get (data_ other) +ₚ size_ other) (Get (data_ this)) ;;
  ret this.

(** [SimpleVector(SimpleVector&& other)]: returns the new vector and what is
    left of [other]. *)
Definition SimpleVector_move (other : SimpleVector) : SimpleVector * SimpleVector :=
  let '(data, other_data) := ArrayPtr_move (data_ other) in
  ({| data_ := data; size_ := size_ other; capacity_ := capacity_ other |},
   {| data_ := other_data; size_ := 0; capacity_ := 0 |}).

(** [Realloc(new_capacity)]: returns the old buffer and the updated vector. *)
Definition Realloc (new_capacity : Z) (this : SimpleVector) : M (ArrayPtr * SimpleVector) :=
  let new_capacity := if new_capacity =? 0 then 1 else new_capacity in
  let* tmp := ArrayPtr_sized new_capacity in
  let '(data, tmp) := ArrayPtr_swap (data_ this) tmp in
  ret (tmp, {| data_ := data; size_ := size_ this; capacity_ := new_capacity |}).

(** The vector objects of a program, by address.  [operator=] and [swap] take
    two of them, which may be the same one. *)
Abbreviation objects := (list SimpleVector).

Definition object_at (objs : objects) (a : nat) : M SimpleVector :=
  match objs !! a with
  | Some v => ret v
  | None => undefined
  end.

(** [operator=(const SimpleVector& rhs)] on the object at address [this]. *)
Definition assign_copy (this rhs : nat) (objs : objects) : M objects :=
  if negb (Nat.eqb this rhs) then
    let* t := object_at objs this in
    let* r := object_at objs rhs in
    if (size_ t >? size_ r) || (capacity_ t >=? capacity_ r) then
      std_copy false (Get (data_ r)) (Get (data_ r) +ₚ size_ r) (Get (data_ t)) ;;
      ret (<[this := with_size t (size_ r)]> objs)
    else
      let* (tmp, t) := Realloc (capacity_ r) t in
      ArrayPtr_destroy tmp ;;
      let t := with_size t (size_ r) in
      std_copy false (Get (data_ r)) (Get (data_ r) +ₚ size_ r) (Get (data_ t)) ;;
      ret (<[this := t]> objs)
  else ret objs.

(** [operator=(SimpleVector&& rhs)] on the object at address [this]. *)
Definition assign_move (this rhs : nat) (objs : objects) : M objects :=
  if negb (Nat.eqb this rhs) then
    let* t := object_at objs this in
    let* r := object_at objs rhs in
    if (size_ t >? size_ r) || (capacity_ t >=? capacity_ r) then
      std_copy true (Get (data_ r)) (Get (data_ r) +ₚ size_ r) (Get (data_ t)) ;;
      ret (<[rhs := with_size r 0]> (<[this := with_size t (size_ r)]> objs))
    else
      let* (tmp, t) := Realloc (capacity_ r) t in
      ArrayPtr_destroy tmp ;;
      std_copy true (Get (data_ r)) (Get (data_ r) +ₚ size_ r) (Get (data_ t)) ;;
      ret (<[rhs := with_size r 0]> (<[this := with_size t (size_ r)]> objs))
  else ret objs.

(** A [const Type&] or [Type&&] parameter designates an object, and the
    method reads it at the statement that uses it, not at the call.  The heap
    of the model holds arrays only.  [ref_slot p] is an argument that is a
    slot of an array, possibly an element of the very vector the method is
    called on: it is read, and left unspecified by a move, through [p] at
    that statement.  [ref_object x] is an argument that is no slot of any
    array (a local variable, a temporary) and holds [x]: nothing the method
    does to an array can change it, and what a move leaves in it is not
    recorded. *)
Inductive reference : Type :=
  | ref_object (x : T)
  | ref_slot (p : pointer).

(** [*dst = item] for [mv = false], [*dst = std::move(item)] for
    [mv = true]. *)
Definition assign_from (mv : bool) (dst : pointer) (item : reference) : M unit :=
  match item with
  | ref_object x => store dst (Some x)
  | ref_slot src => assign_through mv dst src
  end.

(** [PushBack(const Type& item)]. *)
Definition PushBack_copy (item : reference) (this : SimpleVector) : M SimpleVector :=
  if size_ this <? capacity_ this then
    assign_from false (ArrayPtr_index (data_ this) (size_ this)) item ;;
    ret (with_size this (to_size_t (size_ this + 1)))
  else
    let* (tmp, this) := Realloc (to_size_t (capacity_multiplier * capacity_ this)) this in
    std_copy false (Get tmp) (Get tmp +ₚ size_ this) (Get (data_ this)) ;;
    assign_from false (ArrayPtr_index (data_ this) (size_ this)) item ;;
    let this := with_size this (to_size_t (size_ this + 1)) in
    ArrayPtr_destroy tmp ;;
    ret this.

(** [PushBack(Type&& item)]. *)
Definition PushBack_move (item : reference) (this : SimpleVector) : M SimpleVector :=
  if size_ this <? capacity_ this then
    assign_from true (ArrayPtr_index (data_ this) (size_ this)) item ;;
    ret (with_size this (to_size_t (size_ this + 1)))
  else
    let* (tmp, this) := Realloc (to_size_t (capacity_multiplier * capacity_ this)) this in
    std_copy true (Get tmp) (Get tmp +ₚ size_ this) (Get (data_ this)) ;;
    assign_from true (ArrayPtr_index (data_ this) (size_ this)) item ;;
    let this := with_size this (to_size_t (size_ this + 1)) in
    ArrayPtr_destroy tmp ;;
    ret this.

(** [Insert(ConstIterator pos, const Type& value)]: returns the iterator and
    the updated vector. *)
Definition Insert_copy (pos : pointer) (value : reference) (this : SimpleVector)
  : M (pointer * SimpleVector) :=
  let* d := lift (ptr_diff pos (Get (data_ this))) in
  let dist := to_size_t d in
  if size_ this <? capacity_ this then
    std_copy_backward false (Get (data_ this) +ₚ dist) (Get (data_ this) +ₚ size_ this)
      (Get (data_ this) +ₚ size_ this +ₚ 1) ;;
    assign_from false (ArrayPtr_index (data_ this) dist) value ;;
    let this := with_size this (to_size_t (size_ this + 1)) in
    ret (Get (data_ this) +ₚ dist, this)
  else
    let* (tmp, this) := Realloc (to_size_t (capacity_multiplier * capacity_ this)) this in
    std_copy false (Get tmp) (Get tmp +ₚ dist) (Get (data_ this)) ;;
    std_copy_backward false (Get tmp +ₚ dist) (Get tmp +ₚ size_ this)
      (Get (data_ this) +ₚ 1) ;;
    assign_from false (ArrayPtr_index (data_ this) dist) value ;;
    let this := with_size this (to_size_t (size_ this + 1)) in
    ArrayPtr_destroy tmp ;;
    ret (Get (data_ this) +ₚ dist, this).

(** [Insert(ConstIterator pos, Type&& value)]. *)
Definition Insert_move (pos : pointer) (value : reference) (this : SimpleVector)
  : M (pointer * SimpleVector) :=
  let* d := lift (ptr_diff pos (Get (data_ this))) in
  let dist := to_size_t d in
  if size_ this <? capacity_ this then
    std_copy_backward true (Get (data_ this) +ₚ dist) (Get (data_ this) +ₚ size_ this)
      (Get (data_ this) +ₚ size_ this +ₚ 1) ;;
    assign_from true (ArrayPtr_index (data_ this) dist) value ;;
    let this := with_size this (to_size_t (size_ this + 1)) in
    ret (Get (data_ this) +ₚ dist, this)
  else
    let* (tmp, this) := Realloc (to_size_t (capacity_multiplier * capacity_ this)) this in
    std_copy true (Get tmp) (Get tmp +ₚ dist) (Get (data_ this)) ;;
    std_copy_backward true (Get tmp +ₚ dist) (Get tmp +ₚ size_ this)
      (Get (data_ this) +ₚ size_ this +ₚ 1) ;;
    assign_from true (ArrayPtr_index (data_ this) dist) value ;;
    let this := with_size this (to_size_t (size_ this + 1)) in
    ArrayPtr_destroy tmp ;;
    ret (Get (data_ this) +ₚ dist, this).

(** [PopBack()]. *)
Definition PopBack (this : SimpleVector) : SimpleVector :=
  if size_ this >? 0 then with_size this (to_size_t (size_ this - 1)) else this.

(** [Erase(ConstIterator pos)]: [dist] is a [ptrdiff_t] here. *)
Definition Erase (pos : pointer) (this : SimpleVector) : M (pointer * SimpleVector) :=
  if size_ this >? 0 then
    let* dist := lift (ptr_diff pos (Get (data_ this))) in
    std_copy true (Get (data_ this) +ₚ dist +ₚ 1) (Get (data_ this) +ₚ size_ this)
      (Get (data_ this) +ₚ dist) ;;
    let this := with_size this (to_size_t (size_ this - 1)) in
    ret (Get (data_ this) +ₚ dist, this)
  else ret (Get (data_ this), this).

(** [Resize(size_t new_size)]. *)
Definition Resize (new_size : Z) (this : SimpleVector) : M SimpleVector :=
  if new_size <=? size_ this then ret (with_size this new_size)
  else if new_size <? capacity_ this then
    std_fill (Get (data_ this) +ₚ size_ this) (Get (data_ this) +ₚ new_size) Type_default ;;
    ret (with_size this new_size)
  else
    let* (tmp, this) := Realloc (to_size_t (capacity_multiplier * new_size)) this in
    std_copy true (Get tmp) (Get tmp +ₚ size_ this) (Get (data_ this)) ;;
    std_fill (Get (data_ this) +ₚ size_ this) (Get (data_ this) +ₚ new_size) Type_default ;;
    let this := with_size this new_size in
    ArrayPtr_destroy tmp ;;
    ret this.

(** [Reserve(size_t new_capacity)]. *)
Definition Reserve (new_capacity : Z) (this : SimpleVector) : M SimpleVector :=
  if capacity_ this <? new_capacity then
    let* (tmp, this) := Realloc new_capacity this in
    std_copy false (Get tmp) (Get tmp +ₚ size_ this) (Get (data_ this)) ;;
    ArrayPtr_destroy tmp ;;
    ret this
  else ret this.

(** [swap(SimpleVector& other)] on the object at address [this]. *)
Definition swap (this other : nat) (objs : objects) : M objects :=
  let* t := object_at objs this in
  let* o := object_at objs other in
  ret (<[other := t]> (<[this := o]> objs)).

Definition GetSize (this : SimpleVector) : Z := size_ this.
Definition GetCapacity (this : SimpleVector) : Z := capacity_ this.
Definition IsEmpty (this : SimpleVector) : bool := size_ this =? 0.

(** [operator[](size_t index)]: a reference to the slot. *)
Definition subscript (index : Z) (this : SimpleVector) : pointer :=
  ArrayPtr_index (data_ this) index.

(** [At(size_t index)]. *)
Definition At (index : Z) (this : SimpleVector) : outcome pointer :=
  if index >=? size_ this then
    Throw (out_of_range "index out of range in SimpleVector::At")
  else Ret (ArrayPtr_index (data_ this) index).

(** [At(size_t index) const]. *)
Definition At_const (index : Z) (this : SimpleVector) : outcome pointer :=
  if index >=? size_ this then
    Throw (out_of_range "index out of range in SimpleVector::At(const Type)")
  else Ret (ArrayPtr_index (data_ this) index).

(** [Clear()]. *)
Definition Clear (this : SimpleVector) : SimpleVector := with_size this 0.

(** [begin()] and [end()]; [cbegin()] and [cend()] forward to them. *)
Definition begin_ (this : SimpleVector) : pointer := Get (data_ this).
Definition end_ (this : SimpleVector) : pointer := Get (data_ this) +ₚ size_ this.
Definition cbegin (this : SimpleVector) : pointer := begin_ this.
Definition cend (this : SimpleVector) : pointer := end_ this.

(** [operator==(lhs, rhs)]: the guard compares [lhs.GetSize()] with itself. *)
Definition operator_eq (lhs rhs : SimpleVector) : M bool :=
  if negb (GetSize lhs =? GetSize lhs) then ret false
  else std_equal (begin_ lhs) (end_ lhs) (begin_ rhs) (end_ rhs).

(** [operator!=(lhs, rhs)]. *)
Definition operator_ne (lhs rhs : SimpleVector) : M bool :=
  let* b := operator_eq lhs rhs in ret (negb b).

(** [operator<(lhs, rhs)]. *)
Definition operator_lt (lhs rhs : SimpleVector) : M bool :=
  std_lexicographical_compare (begin_ lhs) (end_ lhs) (begin_ rhs) (end_ rhs).

(** [operator<=(lhs, rhs)]: [(lhs == rhs) || (lhs < rhs)]. *)
Definition operator_le (lhs rhs : SimpleVector) : M bool :=
  let* e := operator_eq lhs rhs in
  if e then ret true else operator_lt lhs rhs.

(** [operator>(lhs, rhs)]: [!(lhs <= rhs)]. *)
Definition operator_gt (lhs rhs : SimpleVector) : M bool :=
  let* b := operator_le lhs rhs in ret (negb b).

(** [operator>=(lhs, rhs)]: [!(lhs < rhs)]. *)
Definition operator_ge (lhs rhs : SimpleVector) : M bool :=
  let* b := operator_lt lhs rhs in ret (negb b).

(** ** What a vector denotes *)

(** The array a vector owns in heap [h]: the block its [data_] points to, the
    empty array for an owner without a block. *)
Definition buffer (h : heap) (this : SimpleVector) : option (list slot) :=
  match Get (data_ this) with
  | nullptr => Some []
  | Ptr b off => if off =? 0 then block_of h b else None
  end.

(** The invariant of the data model: both fields are [size_t] values,
    [capacity_] is the length of the owned array, [size_ <= capacity_], and
    the slots below [size_] hold elements. *)
Definition invariant (h : heap) (this : SimpleVector) : Prop :=
  exists buf,
    buffer h this = Some buf /\
    Z.of_nat (length buf) = capacity_ this /\
    capacity_ this < size_t_modulus /\
    0 <= size_ this <= capacity_ this /\
    Forall is_Some (take (Z.to_nat (size_ this)) buf).

(** [holds h this l]: the vector satisfies the invariant and its elements,
    in order, are [l]. *)
Definition holds (h : heap) (this : SimpleVector) (l : list T) : Prop :=
  exists buf,
    buffer h this = Some buf /\
    Z.of_nat (length buf) = capacity_ this /\
    capacity_ this < size_t_modulus /\
    size_ this = Z.of_nat (length l) /\
    take (length l) buf = Some <$> l.

(** The slots of [dst] after [n] slots of [src] from offset [s] were copied
    to offset [d]. *)
Definition blit (src : list slot) (s n : nat) (dst : list slot) (d : nat) : list slot :=
  take d dst ++ take n (drop s src) ++ drop (d + n) dst.

(** The slots of [buf] after the [n] slots from offset [s] were set to
    [x]. *)
Definition fill_range (x : slot) (buf : list slot) (s n : nat) : list slot :=
  take s buf ++ replicate n x ++ drop (s + n) buf.

(** The slots of the source array after [n] slots from offset [s] were
    copied ([mv = false]: unchanged) or moved from ([mv = true]: left
    unspecified). *)
Definition wipe (mv : bool) (buf : list slot) (s n : nat) : list slot :=
  if mv then fill_range None buf s n else buf.

(** [array_at h p buf]: [p] is the start of a live array with slots [buf];
    the null pointer stands for the empty array. *)
Definition array_at (h : heap) (p : pointer) (buf : list slot) : Prop :=
  match p with
  | nullptr => buf = []
  | Ptr b off => off = 0 /\ block_of h b = Some buf
  end.

(** The heap in which the array at [p] has slots [buf]. *)
Definition set_array (h : heap) (p : pointer) (buf : list slot) : heap :=
  match p with
  | nullptr => h
  | Ptr b _ => <[b := Some buf]> h
  end.

(** Two arrays that are not the same block: what two different [ArrayPtr]
    owners hold, since an owner is never copied. *)
Definition apart (p q : pointer) : Prop :=
  match p, q with
  | Ptr b1 _, Ptr b2 _ => b1 <> b2
  | _, _ => True
  end.

(** The slots of one array after [std::copy] ran [n] steps inside it, from
    offset [s] to offset [d]. *)
Fixpoint copy_within (mv : bool) (n s d : nat) (buf : list slot) : list slot :=
  match n with
  | O => buf
  | S k =>
      match buf !! s with
      | Some x =>
          let buf' := <[d := x]> buf in
          copy_within mv k (S s) (S d) (if mv then <[s := None]> buf' else buf')
      | None => buf
      end
  end.

(** The slots of one array after [std::copy_backward] ran [n] steps inside
    it, the source range ending at offset [e], the destination at [de]. *)
Fixpoint copy_backward_within (mv : bool) (n e de : nat) (buf : list slot)
  : list slot :=
  match n with
  | O => buf
  | S k =>
      match buf !! (e - 1)%nat with
      | Some x =>
          let buf' := <[(de - 1)%nat := x]> buf in
          copy_backward_within mv k (e - 1) (de - 1)
            (if mv then <[(e - 1)%nat := None]> buf' else buf')
      | None => buf
      end
  end.

(** The heap after the array at [p] was released. *)
Definition free_array (h : heap) (p : pointer) : heap :=
  match p with
  | nullptr => h
  | Ptr b _ => <[b := None]> h
  end.

(** [extends h h']: every array that is live in [h] is live in [h'] with the
    same slots.  This is what a computation leaves of the arrays that belong
    to other owners. *)
Definition extends (h h' : heap) : Prop :=
  forall b buf, block_of h b = Some buf -> block_of h' b = Some buf.

(** [keeps p h h']: going from [h] to [h'], no array of [h] was released or
    written to except the one [p] points into; [h'] may have new arrays. *)
Definition keeps (p : pointer) (h h' : heap) : Prop :=
  (length h <= length h')%nat /\
  forall b, (b < length h)%nat -> apart p (Ptr b 0) -> h' !! b = h !! b.

(** [ref_apart item q]: the argument [item] is not a slot of the array [q]
    points into. *)
Definition ref_apart (item : reference) (q : pointer) : Prop :=
  match item with
  | ref_object _ => True
  | ref_slot p => apart p q
  end.

(** [keeps_but p item h h']: as [keeps], except that the array the argument
    [item] is a slot of may have been written to as well. *)
Definition keeps_but (p : pointer) (item : reference) (h h' : heap) : Prop :=
  (length h <= length h')%nat /\
  forall b, (b < length h)%nat -> apart p (Ptr b 0) -> ref_apart item (Ptr b 0) ->
            h' !! b = h !! b.


(** [readable h p s l]: the elements of [l] can be read from [p + s]
    onwards. *)
Definition readable (h : heap) (p : pointer) (s : nat) (l : list T) : Prop :=
  forall i x, l !! i = Some x -> load_value (p +ₚ Z.of_nat (s + i)) h = Ret (x, h).

(** [same_shape h h']: every array of [h] is an array of [h'] with as many
    slots. *)
Definition same_shape (h h' : heap) : Prop :=
  forall b buf, block_of h b = Some buf ->
    exists buf', block_of h' b = Some buf' /\ length buf' = length buf.

(** The number of arrays that are allocated in [h]. *)
Fixpoint live_arrays (h : heap) : nat :=
  match h with
  | [] => 0
  | Some _ :: rest => S (live_arrays rest)
  | None :: rest => live_arrays rest
  end.

(** The number of arrays a vector owns: none when [data_] is null. *)
Definition owned_arrays (this : SimpleVector) : nat :=
  match Get (data_ this) with
  | nullptr => 0
  | Ptr _ _ => 1
  end.

(** A caller's loop, [for (const Type& x : items) v.PushBack(x);], over
    items that are kept outside the arrays of the heap. *)
Fixpoint PushBack_each (items : list T) (this : SimpleVector) : M SimpleVector :=
  match items with
  | [] => ret this
  | x :: rest =>
      let* this := PushBack_copy (ref_object x) this in PushBack_each rest this
  end.

(** The lexicographic order on element lists that [operator<] computes. *)
Fixpoint lex_ltb (l1 l2 : list T) : bool :=
  match l1, l2 with
  | x :: r1, y :: r2 =>
      if Type_ltb x y then true
      else if Type_ltb y x then false
      else lex_ltb r1 r2
  | [], _ :: _ => true
  | _, [] => false
  end.

(** Element-wise equality of two lists of the same length, as [operator==]
    computes it. *)
Fixpoint list_eqb (l1 l2 : list T) : bool :=
  match l1, l2 with
  | x :: r1, y :: r2 => if Type_eqb x y then list_eqb r1 r2 else false
  | [], [] => true
  | _, _ => false
  end.

(** ** The monad *)

Lemma bind_Ret {A B} (m : M A) (k : A -> M B) h a h' :
  m h = Ret (a, h') -> bind m k h = k a h'.
Proof. unfold bind. intros ->. reflexivity. Qed.

Lemma bind_lift_Ret {A B} (a : A) (k : A -> M B) h :
  bind (lift (Ret a)) k h = k a h.
Proof. reflexivity. Qed.

Lemma bind_assoc {A B C} (m : M A) (f : A -> M B) (g : B -> M C) h :
  bind (bind m f) g h = bind m (fun a => bind (f a) g) h.
Proof. unfold bind. destruct (m h) as [[a h']| |]; reflexivity. Qed.

Lemma bind_ext {A B} (m : M A) (f g : A -> M B) h :
  (forall a h', m h = Ret (a, h') -> f a h' = g a h') -> bind m f h = bind m g h.
Proof.
  intros Hfg. unfold bind. destruct (m h) as [[a h']| |]; [|reflexivity|reflexivity].
  apply Hfg. reflexivity.
Qed.

(** ** Heap lemmas *)

Lemma block_of_insert h b buf :
  (b < length h)%nat -> block_of (<[b := Some buf]> h) b = Some buf.
Proof.
  intros Hb. unfold block_of. rewrite list_lookup_insert_eq by exact Hb. reflexivity.
Qed.

Lemma block_of_insert_ne h b b' o :
  b <> b' -> block_of (<[b := o]> h) b' = block_of h b'.
Proof.
  intros Hne. unfold block_of. rewrite list_lookup_insert_ne by exact Hne. reflexivity.
Qed.

Lemma block_of_lt h b buf : block_of h b = Some buf -> (b < length h)%nat.
Proof.
  unfold block_of. intros H. destruct (h !! b) as [o|] eqn:E; [|discriminate].
  eapply lookup_lt_Some; eauto.
Qed.

Lemma block_of_lookup h b buf : block_of h b = Some buf <-> h !! b = Some (Some buf).
Proof.
  unfold block_of. destruct (h !! b) as [[x|]|]; split; congruence.
Qed.

Lemma block_of_app h x b buf :
  block_of h b = Some buf -> block_of (h ++ x) b = Some buf.
Proof.
  rewrite !block_of_lookup. intros H. rewrite lookup_app_l; [exact H|].
  eapply lookup_lt_Some; eauto.
Qed.

Lemma block_of_fresh h buf : block_of (h ++ [Some buf]) (length h) = Some buf.
Proof.
  apply block_of_lookup. rewrite lookup_app_r by lia.
  replace (length h - length h)%nat with 0%nat by lia. reflexivity.
Qed.

Lemma block_of_released h b off : block_of (free_array h (Ptr b off)) b = None.
Proof.
  unfold block_of. simpl. destruct (decide (b < length h)%nat) as [Hlt|Hge].
  - rewrite list_lookup_insert_eq by exact Hlt. reflexivity.
  - rewrite lookup_ge_None_2; [reflexivity|]. rewrite length_insert. lia.
Qed.

Lemma block_of_ge h b : (length h <= b)%nat -> block_of h b = None.
Proof.
  intros H. unfold block_of. rewrite lookup_ge_None_2 by exact H. reflexivity.
Qed.

Lemma load_at h b buf (i : nat) s :
  block_of h b = Some buf -> buf !! i = Some s ->
  load (Ptr b (Z.of_nat i)) h = Ret (s, h).
Proof.
  intros Hb Hi. unfold load. rewrite Hb.
  destruct (Z.leb_spec 0 (Z.of_nat i)); [|lia].
  rewrite Nat2Z.id, Hi. reflexivity.
Qed.

Lemma store_at h b buf (i : nat) s :
  block_of h b = Some buf -> (i < length buf)%nat ->
  store (Ptr b (Z.of_nat i)) s h = Ret (tt, <[b := Some (<[i := s]> buf)]> h).
Proof.
  intros Hb Hi. unfold store. rewrite Hb.
  destruct (Z.leb_spec 0 (Z.of_nat i)); [|lia].
  destruct (Z.ltb_spec (Z.of_nat i) (Z.of_nat (length buf))); [|lia].
  simpl. rewrite Nat2Z.id. reflexivity.
Qed.

Lemma ptr_add_0 p : p +ₚ 0 = p.
Proof. destruct p; simpl; [reflexivity|f_equal; lia]. Qed.

Lemma to_size_t_small z : 0 <= z < size_t_modulus -> to_size_t z = z.
Proof. intros H. unfold to_size_t. apply Z.mod_small. exact H. Qed.

(** ** Slots of an array after a loop *)

Lemma blit_length src s n dst d :
  (s + n <= length src)%nat -> (d + n <= length dst)%nat ->
  length (blit src s n dst d) = length dst.
Proof.
  intros Hs Hd. unfold blit.
  rewrite !length_app, !length_take, !length_drop. lia.
Qed.

Lemma blit_lookup src s n dst d i :
  (s + n <= length src)%nat -> (d + n <= length dst)%nat ->
  blit src s n dst d !! i =
    if decide (d <= i < d + n)%nat then src !! (s + (i - d))%nat else dst !! i.
Proof.
  intros Hs Hd. unfold blit.
  destruct (decide (i < d)%nat) as [Hlt|Hge].
  - rewrite lookup_app_l by (rewrite length_take; lia).
    rewrite lookup_take_lt by lia. case_decide; [lia|reflexivity].
  - rewrite lookup_app_r by (rewrite length_take; lia).
    rewrite length_take, Nat.min_l by lia.
    destruct (decide (i - d < n)%nat) as [Hin|Hout].
    + rewrite lookup_app_l by (rewrite length_take, length_drop; lia).
      rewrite lookup_take_lt by lia. rewrite lookup_drop.
      case_decide; [reflexivity|lia].
    + rewrite lookup_app_r by (rewrite length_take, length_drop; lia).
      rewrite length_take, length_drop, Nat.min_l by lia.
      rewrite lookup_drop. case_decide; [lia|]. f_equal. lia.
Qed.

Lemma blit_0 src s dst d : blit src s 0 dst d = dst.
Proof.
  unfold blit. rewrite take_0, Nat.add_0_r. simpl. apply take_drop.
Qed.

Lemma blit_prefix src n dst : blit src 0 n dst 0 = take n src ++ drop n dst.
Proof. unfold blit. rewrite take_0, drop_0. reflexivity. Qed.

Lemma blit_step src src' s n dst d x :
  (s + S n <= length src)%nat -> (d + S n <= length dst)%nat ->
  src !! s = Some x -> length src' = length src ->
  (forall i, i <> s -> src' !! i = src !! i) ->
  blit src' (S s) n (<[d := x]> dst) (S d) = blit src s (S n) dst d.
Proof.
  intros Hs Hd Hx Hlen Hsame. apply list_eq. intros i.
  rewrite !blit_lookup by (rewrite ?length_insert; lia).
  destruct (decide (i = d)) as [->|Hne].
  - rewrite list_lookup_insert_eq by lia.
    repeat case_decide; try lia.
    replace (s + (d - d))%nat with s by lia. symmetry. exact Hx.
  - rewrite list_lookup_insert_ne by lia.
    repeat case_decide; try lia; [|reflexivity].
    rewrite Hsame by lia. f_equal. lia.
Qed.

Lemma blit_step_back src src' s n dst d x :
  (s + S n <= length src)%nat -> (d + S n <= length dst)%nat ->
  src !! (s + n)%nat = Some x -> length src' = length src ->
  (forall i, i <> (s + n)%nat -> src' !! i = src !! i) ->
  blit src' s n (<[(d + n)%nat := x]> dst) d = blit src s (S n) dst d.
Proof.
  intros Hs Hd Hx Hlen Hsame. apply list_eq. intros i.
  rewrite !blit_lookup by (rewrite ?length_insert; lia).
  destruct (decide (i = (d + n)%nat)) as [->|Hne].
  - rewrite list_lookup_insert_eq by lia.
    repeat case_decide; try lia.
    replace (s + (d + n - d))%nat with (s + n)%nat by lia. symmetry. exact Hx.
  - rewrite list_lookup_insert_ne by lia.
    repeat case_decide; try lia; [|reflexivity].
    apply Hsame. lia.
Qed.

Lemma fill_range_length x buf s n :
  (s + n <= length buf)%nat -> length (fill_range x buf s n) = length buf.
Proof.
  intros Hs. unfold fill_range.
  rewrite !length_app, length_take, length_replicate, length_drop. lia.
Qed.

Lemma fill_range_lookup x buf s n i :
  (s + n <= length buf)%nat ->
  fill_range x buf s n !! i =
    if decide (s <= i < s + n)%nat then Some x else buf !! i.
Proof.
  intros Hs. unfold fill_range.
  destruct (decide (i < s)%nat) as [Hlt|Hge].
  - rewrite lookup_app_l by (rewrite length_take; lia).
    rewrite lookup_take_lt by lia. case_decide; [lia|reflexivity].
  - rewrite lookup_app_r by (rewrite length_take; lia).
    rewrite length_take, Nat.min_l by lia.
    destruct (decide (i - s < n)%nat) as [Hin|Hout].
    + rewrite lookup_app_l by (rewrite length_replicate; lia).
      rewrite lookup_replicate_2 by lia. case_decide; [reflexivity|lia].
    + rewrite lookup_app_r by (rewrite length_replicate; lia).
      rewrite length_replicate, lookup_drop. case_decide; [lia|]. f_equal. lia.
Qed.

Lemma fill_range_0 x buf s : fill_range x buf s 0 = buf.
Proof. unfold fill_range. rewrite Nat.add_0_r. simpl. apply take_drop. Qed.

Lemma fill_range_step x buf s n :
  (s + S n <= length buf)%nat ->
  fill_range x (<[s := x]> buf) (S s) n = fill_range x buf s (S n).
Proof.
  intros Hs. apply list_eq. intros i.
  rewrite !fill_range_lookup by (rewrite ?length_insert; lia).
  destruct (decide (i = s)) as [->|Hne].
  - rewrite list_lookup_insert_eq by lia. repeat case_decide; try lia. reflexivity.
  - rewrite list_lookup_insert_ne by lia. repeat case_decide; try lia; reflexivity.
Qed.

Lemma wipe_length mv buf s n :
  (s + n <= length buf)%nat -> length (wipe mv buf s n) = length buf.
Proof.
  intros Hs. unfold wipe. destruct mv; [apply fill_range_length; exact Hs|reflexivity].
Qed.

Lemma wipe_lookup buf s n i :
  (s + n <= length buf)%nat ->
  wipe true buf s n !! i =
    if decide (s <= i < s + n)%nat then Some None else buf !! i.
Proof. apply fill_range_lookup. Qed.

Lemma wipe_0 mv buf s : wipe mv buf s 0 = buf.
Proof. unfold wipe. destruct mv; [apply fill_range_0|reflexivity]. Qed.

Lemma wipe_step buf s n :
  (s + S n <= length buf)%nat ->
  wipe true (<[s := None]> buf) (S s) n = wipe true buf s (S n).
Proof. apply fill_range_step. Qed.

Lemma wipe_step_back buf s n :
  (s + S n <= length buf)%nat ->
  wipe true (<[(s + n)%nat := None]> buf) s n = wipe true buf s (S n).
Proof.
  intros Hs. apply list_eq. intros i.
  rewrite !wipe_lookup by (rewrite ?length_insert; lia).
  destruct (decide (i = (s + n)%nat)) as [->|Hne].
  - rewrite list_lookup_insert_eq by lia. repeat case_decide; try lia. reflexivity.
  - rewrite list_lookup_insert_ne by lia. repeat case_decide; try lia; reflexivity.
Qed.

Lemma copy_within_length mv n : forall s d buf,
  length (copy_within mv n s d buf) = length buf.
Proof.
  induction n as [|n IH]; intros s d buf; simpl; [reflexivity|].
  destruct (buf !! s) as [x|]; [|reflexivity].
  rewrite IH. destruct mv; rewrite ?length_insert; reflexivity.
Qed.

(** Moving a range one slot toward the beginning of its array. *)
Lemma shift_left_lookup n : forall d (buf : list slot) i,
  (S d + n <= length buf)%nat ->
  copy_within true n (S d) d buf !! i =
    if decide (d <= i < d + n)%nat then buf !! S i
    else if decide (i = d + n /\ 0 < n)%nat then Some None
    else buf !! i.
Proof.
  induction n as [|n IH]; intros d buf i Hlen.
  - simpl. repeat case_decide; try lia; reflexivity.
  - destruct (lookup_lt_is_Some_2 buf (S d)) as [x Hx]; [lia|].
    simpl copy_within. rewrite Hx. rewrite IH by (rewrite !length_insert; lia).
    repeat case_decide; try lia;
      first
        [ reflexivity
        | rewrite list_lookup_insert_ne by lia;
          rewrite list_lookup_insert_ne by lia; reflexivity
        | assert (i = d) as -> by lia;
          rewrite list_lookup_insert_ne by lia;
          rewrite list_lookup_insert_eq by lia; symmetry; exact Hx
        | assert (i = S d) as -> by lia;
          rewrite list_lookup_insert_eq by (rewrite length_insert; lia);
          reflexivity ].
Qed.

Lemma copy_backward_within_length mv n : forall e de buf,
  length (copy_backward_within mv n e de buf) = length buf.
Proof.
  induction n as [|n IH]; intros e de buf; simpl; [reflexivity|].
  destruct (buf !! (e - 1)%nat) as [x|]; [|reflexivity].
  rewrite IH. destruct mv; rewrite ?length_insert; reflexivity.
Qed.

(** Copying or moving a range one slot toward the end of its array. *)
Lemma shift_right_lookup mv n : forall e (buf : list slot) i,
  (n <= e)%nat -> (S e <= length buf)%nat ->
  copy_backward_within mv n e (S e) buf !! i =
    if decide (e - n < i <= e)%nat then buf !! (i - 1)%nat
    else if decide (mv = true /\ i = (e - n)%nat /\ 0 < n)%nat then Some None
    else buf !! i.
Proof.
  induction n as [|n IH]; intros e buf i Hn Hlen.
  - simpl. repeat case_decide; try lia; reflexivity.
  - destruct (lookup_lt_is_Some_2 buf (e - 1)) as [x Hx]; [lia|].
    simpl copy_backward_within. rewrite Hx, ?Nat.sub_0_r.
    replace e with (S (e - 1)) at 2 by lia.
    rewrite IH by (destruct mv; rewrite ?length_insert; lia).
    destruct mv;
      repeat case_decide; try lia;
      first
        [ reflexivity
        | exfalso; intuition congruence
        | rewrite list_lookup_insert_ne by lia;
          rewrite list_lookup_insert_ne by lia; reflexivity
        | rewrite list_lookup_insert_ne by lia; reflexivity
        | assert (i = e) as -> by lia;
          rewrite list_lookup_insert_ne by lia;
          rewrite list_lookup_insert_eq by lia; symmetry; exact Hx
        | assert (i = e) as -> by lia;
          rewrite list_lookup_insert_eq by lia; symmetry; exact Hx
        | assert (i = (e - 1)%nat) as -> by lia;
          rewrite list_lookup_insert_eq by (rewrite length_insert; lia);
          reflexivity ].
Qed.

(** ** The loops of the standard algorithms *)

(** One assignment between two different blocks. *)
Lemma assign_through_cross mv bs bd (s d : nat) h sbuf dbuf x :
  bs <> bd -> block_of h bs = Some sbuf -> block_of h bd = Some dbuf ->
  sbuf !! s = Some x -> (d < length dbuf)%nat ->
  assign_through mv (Ptr bd (Z.of_nat d)) (Ptr bs (Z.of_nat s)) h =
    Ret (tt, <[bs := Some (if mv then <[s := None]> sbuf else sbuf)]>
               (<[bd := Some (<[d := x]> dbuf)]> h)).
Proof.
  intros Hne Hs Hd Hx Hlt. unfold assign_through.
  erewrite bind_Ret by (eapply load_at; eauto).
  erewrite bind_Ret by (eapply store_at; eauto).
  assert (Hs' : block_of (<[bd := Some (<[d := x]> dbuf)]> h) bs = Some sbuf).
  { rewrite block_of_insert_ne by congruence. exact Hs. }
  destruct mv.
  - erewrite store_at; [reflexivity|exact Hs'|].
    eapply lookup_lt_Some; eauto.
  - unfold ret. rewrite (list_insert_id _ bs); [reflexivity|].
    apply block_of_lookup. exact Hs'.
Qed.

(** [std::copy] between two different blocks. *)
Lemma copy_loop_cross mv n : forall bs bd (s d : nat) h sbuf dbuf,
  bs <> bd -> block_of h bs = Some sbuf -> block_of h bd = Some dbuf ->
  (s + n <= length sbuf)%nat -> (d + n <= length dbuf)%nat ->
  copy_loop mv n (Ptr bs (Z.of_nat s)) (Ptr bd (Z.of_nat d)) h =
    Ret (Ptr bd (Z.of_nat (d + n)),
         <[bd := Some (blit sbuf s n dbuf d)]> (<[bs := Some (wipe mv sbuf s n)]> h)).
Proof.
  induction n as [|n IH]; intros bs bd s d h sbuf dbuf Hne Hs Hd Hls Hld.
  - simpl. unfold ret. rewrite blit_0, wipe_0, Nat.add_0_r.
    rewrite (list_insert_id h bs) by (apply block_of_lookup; exact Hs).
    rewrite (list_insert_id h bd) by (apply block_of_lookup; exact Hd).
    reflexivity.
  - destruct (lookup_lt_is_Some_2 sbuf s) as [x Hx]; [lia|].
    simpl copy_loop.
    erewrite bind_Ret by (eapply assign_through_cross; eauto; lia).
    simpl ptr_add.
    replace (Z.of_nat s + 1) with (Z.of_nat (S s)) by lia.
    replace (Z.of_nat d + 1) with (Z.of_nat (S d)) by lia.
    pose proof (block_of_lt _ _ _ Hs) as Hbs.
    pose proof (block_of_lt _ _ _ Hd) as Hbd.
    set (sbuf' := if mv then <[s := None]> sbuf else sbuf).
    assert (Hlen' : length sbuf' = length sbuf).
    { unfold sbuf'. destruct mv; [apply length_insert|reflexivity]. }
    rewrite (IH bs bd (S s) (S d) _ sbuf' (<[d := x]> dbuf)); try assumption.
    + f_equal. f_equal; [f_equal; lia|].
      rewrite (blit_step sbuf sbuf' s n dbuf d x); try assumption; try lia.
      * rewrite list_insert_insert_eq.
        rewrite (list_insert_insert_ne _ bs bd) by congruence.
        rewrite list_insert_insert_eq.
        rewrite (list_insert_insert_ne _ bd bs) by congruence.
        replace (wipe mv sbuf' (S s) n) with (wipe mv sbuf s (S n));
          [apply list_insert_insert_ne; congruence|].
        unfold sbuf'. destruct mv; [symmetry; apply wipe_step; lia|].
        reflexivity.
      * intros i Hi. unfold sbuf'. destruct mv; [|reflexivity].
        apply list_lookup_insert_ne. congruence.
    + apply block_of_insert. rewrite length_insert. exact Hbs.
    + rewrite block_of_insert_ne by congruence. apply block_of_insert. exact Hbd.
    + rewrite Hlen'. lia.
    + rewrite length_insert. lia.
Qed.

Lemma assign_through_same mv b (s d : nat) h buf x :
  block_of h b = Some buf -> buf !! s = Some x -> (d < length buf)%nat ->
  assign_through mv (Ptr b (Z.of_nat d)) (Ptr b (Z.of_nat s)) h =
    Ret (tt, <[b := Some (if mv then <[s := None]> (<[d := x]> buf)
                          else <[d := x]> buf)]> h).
Proof.
  intros Hb Hx Hd. unfold assign_through.
  erewrite bind_Ret by (eapply load_at; eauto).
  erewrite bind_Ret by (eapply store_at; eauto).
  pose proof (block_of_lt _ _ _ Hb) as Hlt.
  destruct mv; [|reflexivity].
  erewrite store_at; [|apply block_of_insert; exact Hlt|].
  - rewrite list_insert_insert_eq. reflexivity.
  - rewrite length_insert. eapply lookup_lt_Some; eauto.
Qed.

Lemma copy_loop_same mv n : forall b (s d : nat) h buf,
  block_of h b = Some buf ->
  (s + n <= length buf)%nat -> (d + n <= length buf)%nat ->
  copy_loop mv n (Ptr b (Z.of_nat s)) (Ptr b (Z.of_nat d)) h =
    Ret (Ptr b (Z.of_nat (d + n)), <[b := Some (copy_within mv n s d buf)]> h).
Proof.
  induction n as [|n IH]; intros b s d h buf Hb Hs Hd.
  - simpl. unfold ret. rewrite Nat.add_0_r.
    rewrite list_insert_id by (apply block_of_lookup; exact Hb). reflexivity.
  - destruct (lookup_lt_is_Some_2 buf s) as [x Hx]; [lia|].
    simpl copy_loop. simpl copy_within. rewrite Hx.
    erewrite bind_Ret by (eapply assign_through_same; eauto; lia).
    simpl ptr_add.
    replace (Z.of_nat s + 1) with (Z.of_nat (S s)) by lia.
    replace (Z.of_nat d + 1) with (Z.of_nat (S d)) by lia.
    pose proof (block_of_lt _ _ _ Hb) as Hlt.
    erewrite IH; [|apply block_of_insert; exact Hlt| |].
    + rewrite list_insert_insert_eq. do 3 f_equal. lia.
    + destruct mv; rewrite ?length_insert; lia.
    + destruct mv; rewrite ?length_insert; lia.
Qed.

Lemma std_copy_same mv h b buf (s d n : nat) :
  block_of h b = Some buf ->
  (s + n <= length buf)%nat -> (d + n <= length buf)%nat ->
  std_copy mv (Ptr b (Z.of_nat s)) (Ptr b (Z.of_nat (s + n))) (Ptr b (Z.of_nat d)) h =
    Ret (Ptr b (Z.of_nat (d + n)), <[b := Some (copy_within mv n s d buf)]> h).
Proof.
  intros Hb Hs Hd. unfold std_copy. simpl ptr_diff.
  rewrite Nat.eqb_refl, bind_lift_Ret.
  match goal with
  | |- context [?a <? 0] =>
      replace (a <? 0) with false by (symmetry; apply Z.ltb_ge; lia);
      replace (Z.to_nat a) with n by lia
  end.
  apply copy_loop_same; assumption.
Qed.

Lemma std_copy_empty mv p q h : std_copy mv p (p +ₚ 0) q h = Ret (q, h).
Proof.
  unfold std_copy. destruct p as [|b off]; simpl.
  - reflexivity.
  - rewrite Nat.eqb_refl. unfold bind, lift.
    replace (off + 0 - off) with 0 by lia. reflexivity.
Qed.

Lemma copy_backward_loop_same mv n : forall b (e de : nat) h buf,
  block_of h b = Some buf ->
  (n <= e <= length buf)%nat -> (n <= de <= length buf)%nat ->
  copy_backward_loop mv n (Ptr b (Z.of_nat e)) (Ptr b (Z.of_nat de)) h =
    Ret (Ptr b (Z.of_nat (de - n)),
         <[b := Some (copy_backward_within mv n e de buf)]> h).
Proof.
  induction n as [|n IH]; intros b e de h buf Hb He Hde.
  - simpl. unfold ret. rewrite Nat.sub_0_r.
    rewrite list_insert_id by (apply block_of_lookup; exact Hb). reflexivity.
  - destruct (lookup_lt_is_Some_2 buf (e - 1)) as [x Hx]; [lia|].
    simpl copy_backward_loop. simpl copy_backward_within. rewrite Hx.
    simpl ptr_add.
    replace (Z.of_nat e + -1) with (Z.of_nat (e - 1)) by lia.
    replace (Z.of_nat de + -1) with (Z.of_nat (de - 1)) by lia.
    erewrite bind_Ret by (eapply assign_through_same; eauto; lia).
    pose proof (block_of_lt _ _ _ Hb) as Hlt.
    erewrite IH; [|apply block_of_insert; exact Hlt| |].
    + rewrite list_insert_insert_eq. do 3 f_equal. lia.
    + destruct mv; rewrite ?length_insert; lia.
    + destruct mv; rewrite ?length_insert; lia.
Qed.

Lemma std_copy_backward_same mv h b buf (s n de : nat) :
  block_of h b = Some buf ->
  (s + n <= length buf)%nat -> (n <= de <= length buf)%nat ->
  std_copy_backward mv (Ptr b (Z.of_nat s)) (Ptr b (Z.of_nat (s + n)))
    (Ptr b (Z.of_nat de)) h =
    Ret (Ptr b (Z.of_nat (de - n)),
         <[b := Some (copy_backward_within mv n (s + n) de buf)]> h).
Proof.
  intros Hb Hs Hd. unfold std_copy_backward. simpl ptr_diff.
  rewrite Nat.eqb_refl, bind_lift_Ret.
  match goal with
  | |- context [?a <? 0] =>
      replace (a <? 0) with false by (symmetry; apply Z.ltb_ge; lia);
      replace (Z.to_nat a) with n by lia
  end.
  apply copy_backward_loop_same; [assumption|lia|lia].
Qed.

Lemma std_copy_backward_empty mv p q h :
  std_copy_backward mv p p q h = Ret (q, h).
Proof.
  unfold std_copy_backward. destruct p as [|b off]; simpl.
  - reflexivity.
  - rewrite Nat.eqb_refl. simpl. unfold bind. simpl.
    rewrite Z.sub_diag. reflexivity.
Qed.

(** [std::copy_backward] between two different blocks. *)
Lemma copy_backward_loop_cross mv n : forall bs bd (e de : nat) h sbuf dbuf,
  bs <> bd -> block_of h bs = Some sbuf -> block_of h bd = Some dbuf ->
  (n <= e <= length sbuf)%nat -> (n <= de <= length dbuf)%nat ->
  copy_backward_loop mv n (Ptr bs (Z.of_nat e)) (Ptr bd (Z.of_nat de)) h =
    Ret (Ptr bd (Z.of_nat (de - n)),
         <[bd := Some (blit sbuf (e - n) n dbuf (de - n))]>
           (<[bs := Some (wipe mv sbuf (e - n) n)]> h)).
Proof.
  induction n as [|n IH]; intros bs bd e de h sbuf dbuf Hne Hs Hd Hle Hlde.
  - simpl. unfold ret. rewrite blit_0, wipe_0, Nat.sub_0_r.
    rewrite (list_insert_id h bs) by (apply block_of_lookup; exact Hs).
    rewrite (list_insert_id h bd) by (apply block_of_lookup; exact Hd).
    reflexivity.
  - destruct (lookup_lt_is_Some_2 sbuf (e - 1)) as [x Hx]; [lia|].
    simpl copy_backward_loop. simpl ptr_add.
    replace (Z.of_nat e + -1) with (Z.of_nat (e - 1)) by lia.
    replace (Z.of_nat de + -1) with (Z.of_nat (de - 1)) by lia.
    erewrite bind_Ret by (eapply assign_through_cross; eauto; lia).
    pose proof (block_of_lt _ _ _ Hs) as Hbs.
    pose proof (block_of_lt _ _ _ Hd) as Hbd.
    set (sbuf' := if mv then <[(e - 1)%nat := None]> sbuf else sbuf).
    assert (Hlen' : length sbuf' = length sbuf).
    { unfold sbuf'. destruct mv; [apply length_insert|reflexivity]. }
    rewrite (IH bs bd (e - 1)%nat (de - 1)%nat _ sbuf' (<[(de - 1)%nat := x]> dbuf));
      try assumption.
    + replace (e - 1 - n)%nat with (e - S n)%nat by lia.
      replace (de - 1 - n)%nat with (de - S n)%nat by lia.
      replace (de - 1)%nat with (de - S n + n)%nat by lia.
      f_equal. f_equal.
      rewrite (blit_step_back sbuf sbuf' (e - S n) n dbuf (de - S n) x);
        try assumption; try lia.
      * rewrite list_insert_insert_eq.
        rewrite (list_insert_insert_ne _ bs bd) by congruence.
        rewrite list_insert_insert_eq.
        rewrite (list_insert_insert_ne _ bd bs) by congruence.
        replace (wipe mv sbuf' (e - S n) n) with (wipe mv sbuf (e - S n) (S n));
          [apply list_insert_insert_ne; congruence|].
        unfold sbuf'. destruct mv; [|reflexivity].
        replace (e - 1)%nat with (e - S n + n)%nat by lia.
        symmetry. apply wipe_step_back. lia.
      * replace (e - S n + n)%nat with (e - 1)%nat by lia. exact Hx.
      * intros i Hi. unfold sbuf'. destruct mv; [|reflexivity].
        apply list_lookup_insert_ne. lia.
    + apply block_of_insert. rewrite length_insert. exact Hbs.
    + rewrite block_of_insert_ne by congruence. apply block_of_insert. exact Hbd.
    + rewrite Hlen'. lia.
    + rewrite length_insert. lia.
Qed.

Lemma fill_loop_spec value n : forall b (s : nat) h buf,
  block_of h b = Some buf -> (s + n <= length buf)%nat ->
  fill_loop n (Ptr b (Z.of_nat s)) value h =
    Ret (tt, <[b := Some (fill_range (Some value) buf s n)]> h).
Proof.
  induction n as [|n IH]; intros b s h buf Hb Hs.
  - simpl. unfold ret. rewrite fill_range_0.
    rewrite list_insert_id by (apply block_of_lookup; exact Hb). reflexivity.
  - simpl fill_loop.
    erewrite bind_Ret by (eapply store_at; [exact Hb|lia]).
    simpl ptr_add. replace (Z.of_nat s + 1) with (Z.of_nat (S s)) by lia.
    pose proof (block_of_lt _ _ _ Hb) as Hlt.
    erewrite IH; [|apply block_of_insert; exact Hlt|rewrite length_insert; lia].
    rewrite list_insert_insert_eq, fill_range_step by lia. reflexivity.
Qed.

Lemma take_drop_cons {A} (buf : list A) s n a r :
  take (S n) (drop s buf) = a :: r ->
  buf !! s = Some a /\ take n (drop (S s) buf) = r.
Proof.
  intros H. destruct (buf !! s) as [a'|] eqn:E.
  - rewrite (drop_S _ _ _ E) in H. simpl in H. injection H as -> ->.
    split; reflexivity.
  - apply lookup_ge_None_1 in E. rewrite drop_ge in H by lia. discriminate.
Qed.

Lemma equal_loop_spec h b1 b2 buf1 buf2 : forall (l1 l2 : list T) (s1 s2 : nat),
  block_of h b1 = Some buf1 -> block_of h b2 = Some buf2 ->
  take (length l1) (drop s1 buf1) = Some <$> l1 ->
  take (length l2) (drop s2 buf2) = Some <$> l2 ->
  length l1 = length l2 ->
  exists r,
    equal_loop (length l1) (Ptr b1 (Z.of_nat s1)) (Ptr b2 (Z.of_nat s2)) h = Ret (r, h) /\
    (r = true <-> Forall2 (fun x y => Type_eqb x y = true) l1 l2).
Proof.
  induction l1 as [|x l1 IH]; intros [|y l2] s1 s2 Hb1 Hb2 H1 H2 Hlen;
    try discriminate.
  - exists true. split; [reflexivity|]. split; [constructor|reflexivity].
  - simpl length in *. rewrite fmap_cons in H1, H2.
    apply take_drop_cons in H1 as [Hx H1]. apply take_drop_cons in H2 as [Hy H2].
    simpl equal_loop.
    assert (Hlx : load_value (Ptr b1 (Z.of_nat s1)) h = Ret (x, h)).
    { unfold load_value. erewrite bind_Ret by (eapply load_at; eauto). reflexivity. }
    assert (Hly : load_value (Ptr b2 (Z.of_nat s2)) h = Ret (y, h)).
    { unfold load_value. erewrite bind_Ret by (eapply load_at; eauto). reflexivity. }
    erewrite bind_Ret by exact Hlx. erewrite bind_Ret by exact Hly.
    destruct (Type_eqb x y) eqn:Exy.
    + simpl ptr_add.
      replace (Z.of_nat s1 + 1) with (Z.of_nat (S s1)) by lia.
      replace (Z.of_nat s2 + 1) with (Z.of_nat (S s2)) by lia.
      destruct (IH l2 (S s1) (S s2) Hb1 Hb2 H1 H2) as (r & Hrun & Hr); [lia|].
      exists r. split; [exact Hrun|]. rewrite Hr. split.
      * intros HF. constructor; assumption.
      * intros HF. inversion HF; assumption.
    + exists false. split; [reflexivity|]. split; [discriminate|].
      intros HF. inversion HF; congruence.
Qed.

Lemma copy_init_spec : forall (init : list T) b (s : nat) h buf,
  block_of h b = Some buf -> (s + length init <= length buf)%nat ->
  copy_init init (Ptr b (Z.of_nat s)) h =
    Ret (Ptr b (Z.of_nat (s + length init)),
         <[b := Some (take s buf ++ (Some <$> init) ++ drop (s + length init) buf)]> h).
Proof.
  induction init as [|x init IH]; intros b s h buf Hb Hs.
  - simpl. unfold ret. rewrite Nat.add_0_r, take_drop.
    rewrite list_insert_id by (apply block_of_lookup; exact Hb). reflexivity.
  - simpl copy_init. simpl length in *.
    erewrite bind_Ret by (eapply store_at; [exact Hb|lia]).
    simpl ptr_add. replace (Z.of_nat s + 1) with (Z.of_nat (S s)) by lia.
    pose proof (block_of_lt _ _ _ Hb) as Hlt.
    erewrite IH; [|apply block_of_insert; exact Hlt|rewrite length_insert; lia].
    rewrite list_insert_insert_eq.
    replace (S s + length init)%nat with (s + S (length init))%nat by lia.
    do 4 f_equal.
    rewrite (take_S_r _ _ (Some x)) by (apply list_lookup_insert_eq; lia).
    rewrite take_insert_ge by lia. rewrite drop_insert_lt by lia.
    rewrite <- app_assoc. reflexivity.
Qed.

(** ** Arrays and their owners *)

Lemma buffer_array_at h this buf :
  buffer h this = Some buf <-> array_at h (Get (data_ this)) buf.
Proof.
  unfold buffer, array_at. destruct (Get (data_ this)) as [|b off].
  - split; [intros [= <-]; reflexivity|intros ->; reflexivity].
  - destruct (Z.eqb_spec off 0) as [->|Hne]; split.
    + intros H. split; [reflexivity|exact H].
    + intros [_ H]. exact H.
    + discriminate.
    + intros [H _]. contradiction.
Qed.

Lemma array_at_length_nullptr h buf : array_at h nullptr buf -> length buf = 0%nat.
Proof. simpl. intros ->. reflexivity. Qed.

Lemma set_array_length h p buf : length (set_array h p buf) = length h.
Proof. destruct p; simpl; [reflexivity|apply length_insert]. Qed.

Lemma array_at_set_same h p buf0 buf :
  array_at h p buf0 -> length buf = length buf0 ->
  array_at (set_array h p buf) p buf.
Proof.
  destruct p as [|b off]; simpl.
  - intros -> Hlen. destruct buf; [reflexivity|discriminate].
  - intros [-> Hb] _. split; [reflexivity|].
    apply block_of_insert. eapply block_of_lt; eauto.
Qed.

Lemma array_at_set_other h p q buf bufq :
  apart p q -> array_at h q bufq -> array_at (set_array h p buf) q bufq.
Proof.
  destruct p as [|b off], q as [|b' off']; simpl; try prop_tauto.
  intros Hne [-> Hb]. split; [reflexivity|].
  rewrite block_of_insert_ne by exact Hne. exact Hb.
Qed.

Lemma set_array_id h p buf : array_at h p buf -> set_array h p buf = h.
Proof.
  destruct p as [|b off]; simpl; [reflexivity|].
  intros [_ Hb]. apply list_insert_id. apply block_of_lookup. exact Hb.
Qed.

Lemma apart_sym p q : apart p q -> apart q p.
Proof. destruct p, q; simpl; auto. Qed.

Lemma array_at_app h x p buf : array_at h p buf -> array_at (h ++ x) p buf.
Proof.
  destruct p as [|b off]; simpl; [prop_tauto|].
  intros [-> Hb]. split; [reflexivity|]. apply block_of_app. exact Hb.
Qed.

Lemma array_at_apart_fresh h p buf : array_at h p buf -> apart p (Ptr (length h) 0).
Proof.
  destruct p as [|b off]; simpl; [prop_tauto|].
  intros [_ Hb]. apply block_of_lt in Hb. lia.
Qed.

Lemma array_at_free_other h p q buf :
  apart p q -> array_at h q buf -> array_at (free_array h p) q buf.
Proof.
  destruct p as [|b off], q as [|b' off']; simpl; try prop_tauto.
  intros Hne [-> Hb]. split; [reflexivity|].
  rewrite block_of_insert_ne by exact Hne. exact Hb.
Qed.

Lemma free_array_length h p : length (free_array h p) = length h.
Proof. destruct p; simpl; [reflexivity|apply length_insert]. Qed.

(** [std::copy] of [n] slots from offset [s] of one array to offset [d] of
    another one. *)
Lemma std_copy_arrays mv h ps pd sbuf dbuf (s d n : nat) :
  array_at h ps sbuf -> array_at h pd dbuf -> apart ps pd ->
  (s + n <= length sbuf)%nat -> (d + n <= length dbuf)%nat ->
  std_copy mv (ps +ₚ Z.of_nat s) (ps +ₚ Z.of_nat (s + n)) (pd +ₚ Z.of_nat d) h =
    Ret (pd +ₚ Z.of_nat (d + n),
         set_array (set_array h ps (wipe mv sbuf s n)) pd (blit sbuf s n dbuf d)).
Proof.
  intros Hs Hd Hap Hls Hld. unfold std_copy.
  destruct ps as [|bs os].
  - apply array_at_length_nullptr in Hs.
    assert (n = 0%nat) as -> by lia. simpl. rewrite Nat.add_0_r, blit_0.
    rewrite (set_array_id h pd) by exact Hd. reflexivity.
  - destruct Hs as [-> Hs]. simpl ptr_add. simpl ptr_diff.
    rewrite Nat.eqb_refl. unfold bind at 1, lift. cbv beta iota.
    match goal with
    | |- context [?a <? 0] =>
        replace (a <? 0) with false by (symmetry; apply Z.ltb_ge; lia);
        replace (Z.to_nat a) with n by lia
    end.
    destruct pd as [|bd od].
    + apply array_at_length_nullptr in Hd.
      assert (n = 0%nat) as -> by lia. simpl. rewrite wipe_0.
      rewrite list_insert_id by (apply block_of_lookup; exact Hs). reflexivity.
    + destruct Hd as [-> Hd]. simpl in Hap. simpl ptr_add.
      rewrite !Z.add_0_l.
      rewrite (copy_loop_cross mv n bs bd s d h sbuf dbuf) by assumption.
      reflexivity.
Qed.

Lemma std_copy_prefix mv h ps pd sbuf dbuf (n : nat) :
  array_at h ps sbuf -> array_at h pd dbuf -> apart ps pd ->
  (n <= length sbuf)%nat -> (n <= length dbuf)%nat ->
  std_copy mv ps (ps +ₚ Z.of_nat n) pd h =
    Ret (pd +ₚ Z.of_nat n,
         set_array (set_array h ps (wipe mv sbuf 0 n)) pd
           (take n sbuf ++ drop n dbuf)).
Proof.
  intros Hs Hd Hap Hls Hld.
  pose proof (std_copy_arrays mv h ps pd sbuf dbuf 0 0 n Hs Hd Hap) as H.
  simpl Nat.add in H. rewrite blit_prefix in H.
  change (Z.of_nat 0) with 0 in H. rewrite !ptr_add_0 in H.
  apply H; lia.
Qed.

(** [std::copy_backward] of [n] slots from offset [s] of one array to the
    slots of another one that end at offset [de]. *)
Lemma std_copy_backward_arrays mv h ps pd sbuf dbuf (s n de : nat) :
  array_at h ps sbuf -> array_at h pd dbuf -> apart ps pd ->
  (s + n <= length sbuf)%nat -> (n <= de <= length dbuf)%nat ->
  std_copy_backward mv (ps +ₚ Z.of_nat s) (ps +ₚ Z.of_nat (s + n))
    (pd +ₚ Z.of_nat de) h =
    Ret (pd +ₚ Z.of_nat (de - n),
         set_array (set_array h ps (wipe mv sbuf s n)) pd
           (blit sbuf s n dbuf (de - n))).
Proof.
  intros Hs Hd Hap Hls Hld. unfold std_copy_backward.
  destruct ps as [|bs os].
  - apply array_at_length_nullptr in Hs.
    assert (n = 0%nat) as -> by lia. simpl. rewrite Nat.sub_0_r, blit_0.
    rewrite (set_array_id h pd) by exact Hd. reflexivity.
  - destruct Hs as [-> Hs]. simpl ptr_add. simpl ptr_diff.
    rewrite Nat.eqb_refl. unfold bind at 1, lift. cbv beta iota.
    match goal with
    | |- context [?a <? 0] =>
        replace (a <? 0) with false by (symmetry; apply Z.ltb_ge; lia);
        replace (Z.to_nat a) with n by lia
    end.
    destruct pd as [|bd od].
    + apply array_at_length_nullptr in Hd.
      assert (n = 0%nat) as -> by lia. simpl. rewrite wipe_0.
      rewrite list_insert_id by (apply block_of_lookup; exact Hs). reflexivity.
    + destruct Hd as [-> Hd]. simpl in Hap. simpl ptr_add.
      rewrite !Z.add_0_l.
      rewrite (copy_backward_loop_cross mv n bs bd (s + n) de h sbuf dbuf)
        by (try assumption; lia).
      replace (s + n - n)%nat with s by lia. reflexivity.
Qed.

Lemma std_fill_array h p buf (s n : nat) value :
  array_at h p buf -> (s + n <= length buf)%nat ->
  std_fill (p +ₚ Z.of_nat s) (p +ₚ Z.of_nat (s + n)) value h =
    Ret (tt, set_array h p (fill_range (Some value) buf s n)).
Proof.
  intros Hp Hs. unfold std_fill. destruct p as [|b off].
  - apply array_at_length_nullptr in Hp. assert (n = 0%nat) as -> by lia.
    reflexivity.
  - destruct Hp as [-> Hb]. simpl ptr_add. simpl ptr_diff.
    rewrite Nat.eqb_refl, bind_lift_Ret.
    match goal with
    | |- context [?a <? 0] =>
        replace (a <? 0) with false by (symmetry; apply Z.ltb_ge; lia);
        replace (Z.to_nat a) with n by lia
    end.
    rewrite Z.add_0_l. apply fill_loop_spec; assumption.
Qed.

Lemma ArrayPtr_sized_ok size h :
  0 < size <= alloc_limit ->
  ArrayPtr_sized size h =
    Ret ({| raw_ptr_ := Ptr (length h) 0 |},
         h ++ [Some (replicate (Z.to_nat size) None)]).
Proof.
  intros Hs. unfold ArrayPtr_sized.
  destruct (Z.eqb_spec size 0); [lia|].
  unfold bind, new_array. destruct (Z.ltb_spec alloc_limit size); [lia|].
  reflexivity.
Qed.

Lemma ArrayPtr_destroy_ok h a buf :
  array_at h (Get a) buf ->
  ArrayPtr_destroy a h = Ret (tt, match Get a with
                                  | nullptr => h
                                  | Ptr b _ => <[b := None]> h
                                  end).
Proof.
  unfold ArrayPtr_destroy, delete_array, Get. destruct (raw_ptr_ a) as [|b off]; simpl.
  - reflexivity.
  - intros [-> Hb]. rewrite Hb. reflexivity.
Qed.

Lemma ArrayPtr_destroy_free h a buf :
  array_at h (Get a) buf -> ArrayPtr_destroy a h = Ret (tt, free_array h (Get a)).
Proof. intros H. erewrite ArrayPtr_destroy_ok by exact H. reflexivity. Qed.

(** [Realloc] when the allocation is granted: the old array comes back, the
    vector points to a fresh one. *)
Lemma Realloc_ok new_capacity this h :
  (if new_capacity =? 0 then 1 else new_capacity) <= alloc_limit ->
  Realloc new_capacity this h =
    Ret ((data_ this,
          {| data_ := {| raw_ptr_ := Ptr (length h) 0 |};
             size_ := size_ this;
             capacity_ := if new_capacity =? 0 then 1 else new_capacity |}),
         h ++ [Some (replicate
                       (Z.to_nat (if new_capacity =? 0 then 1 else new_capacity))
                       None)]).
Proof.
  intros Hle. unfold Realloc, ArrayPtr_sized.
  set (n := if new_capacity =? 0 then 1 else new_capacity) in *.
  assert (n <> 0) by (unfold n; destruct (Z.eqb_spec new_capacity 0); lia).
  destruct (Z.eqb_spec n 0); [contradiction|].
  unfold bind at 1. unfold bind at 1. unfold new_array.
  destruct (Z.ltb_spec alloc_limit n); [lia|]. reflexivity.
Qed.

Lemma Realloc_size new_capacity this h tmp this' h' :
  Realloc new_capacity this h = Ret ((tmp, this'), h') -> size_ this' = size_ this.
Proof.
  unfold Realloc, bind, ret.
  destruct (ArrayPtr_sized _ h) as [[a h1]| |]; [|discriminate|discriminate].
  simpl. intros [= _ <- _]. reflexivity.
Qed.

(** ** Vectors that hold a list *)

Lemma holds_size h this l :
  holds h this l ->
  size_ this = Z.of_nat (length l) /\ Z.of_nat (length l) <= capacity_ this.
Proof.
  intros (buf & Hb & Hcap & Hmod & Hsz & Htake).
  apply (f_equal length) in Htake.
  rewrite length_take, length_fmap in Htake. lia.
Qed.

Lemma holds_length h this l buf :
  holds h this l -> buffer h this = Some buf ->
  (length l <= length buf)%nat.
Proof.
  intros (buf' & Hb & Hcap & Hmod & Hsz & Htake) Hb'.
  rewrite Hb in Hb'. injection Hb' as <-.
  apply (f_equal length) in Htake. rewrite length_take, length_fmap in Htake. lia.
Qed.

Lemma holds_lookup (buf : list slot) (l : list T) i :
  take (length l) buf = Some <$> l -> (i < length l)%nat ->
  buf !! i = Some <$> l !! i.
Proof.
  intros Htake Hi. rewrite <- list_lookup_fmap, <- Htake.
  symmetry. apply lookup_take_lt. exact Hi.
Qed.

Lemma holds_invariant h this l : holds h this l -> invariant h this.
Proof.
  intros (buf & Hb & Hcap & Hmod & Hsz & Htake).
  assert (Hle : (length l <= length buf)%nat).
  { apply (f_equal length) in Htake.
    rewrite length_take, length_fmap in Htake. lia. }
  exists buf. repeat split; try assumption; try lia.
  rewrite Hsz, Nat2Z.id, Htake. apply Forall_fmap, Forall_forall.
  intros x _. eexists. reflexivity.
Qed.

Lemma holds_array h this l :
  holds h this l ->
  exists buf,
    array_at h (Get (data_ this)) buf /\
    Z.of_nat (length buf) = capacity_ this /\
    capacity_ this < size_t_modulus /\
    size_ this = Z.of_nat (length l) /\
    take (length l) buf = Some <$> l /\
    (length l <= length buf)%nat.
Proof.
  intros Hholds. pose proof (holds_size h this l Hholds) as [_ Hle].
  destruct Hholds as (buf & Hb & Hcap & Hmod & Hsz & Htake).
  exists buf. apply buffer_array_at in Hb. repeat split; try assumption. lia.
Qed.

Lemma array_holds h this l buf :
  array_at h (Get (data_ this)) buf ->
  Z.of_nat (length buf) = capacity_ this ->
  capacity_ this < size_t_modulus ->
  size_ this = Z.of_nat (length l) ->
  take (length l) buf = Some <$> l ->
  holds h this l.
Proof.
  intros Hb Hcap Hmod Hsz Htake. exists buf.
  apply buffer_array_at in Hb. repeat split; assumption.
Qed.

Lemma holds_nonempty h this l :
  holds h this l -> 0 < capacity_ this ->
  exists b buf,
    Get (data_ this) = Ptr b 0 /\ block_of h b = Some buf /\
    Z.of_nat (length buf) = capacity_ this /\
    take (length l) buf = Some <$> l /\ (length l <= length buf)%nat.
Proof.
  intros (buf & Hb & Hcap & Hmod & Hsz & Htake) Hpos.
  apply buffer_array_at in Hb.
  destruct (Get (data_ this)) as [|b off].
  - simpl in Hb. subst buf. simpl in Hcap. lia.
  - destruct Hb as [-> Hb]. exists b, buf. repeat split; try assumption.
    apply (f_equal length) in Htake.
    rewrite length_take, length_fmap in Htake. lia.
Qed.

Lemma holds_load h this l (i : nat) x :
  holds h this l -> l !! i = Some x ->
  load_value (begin_ this +ₚ Z.of_nat i) h = Ret (x, h).
Proof.
  intros Hholds Hx.
  assert (Hi : (i < length l)%nat) by (eapply lookup_lt_Some; eauto).
  destruct (holds_nonempty h this l Hholds) as (b & buf & Hp & Hb & Hcap & Htake & Hle).
  { destruct Hholds as (buf & _ & Hcap & _ & Hsz & Htake).
    apply (f_equal length) in Htake.
    rewrite length_take, length_fmap in Htake. lia. }
  unfold begin_. rewrite Hp. simpl ptr_add. rewrite Z.add_0_l.
  unfold load_value.
  assert (Hs : buf !! i = Some (Some x)).
  { rewrite (holds_lookup buf l i Htake Hi), Hx. reflexivity. }
  erewrite bind_Ret by (eapply load_at; [exact Hb|exact Hs]).
  reflexivity.
Qed.

Lemma holds_ptr_diff h this l (dist : nat) :
  holds h this l -> (dist <= length l)%nat ->
  ptr_diff (begin_ this +ₚ Z.of_nat dist) (Get (data_ this)) = Ret (Z.of_nat dist) /\
  to_size_t (Z.of_nat dist) = Z.of_nat dist.
Proof.
  intros Hholds Hd.
  destruct (holds_array h this l Hholds)
    as (buf & Ha & Hcap & Hmod & Hsize & Htake & Hle).
  split; [|apply to_size_t_small; lia].
  unfold begin_. destruct (Get (data_ this)) as [|b off]; simpl.
  - simpl in Ha. subst buf. simpl in Hle. f_equal. lia.
  - rewrite Nat.eqb_refl. f_equal. lia.
Qed.

Lemma invariant_end_diff h this :
  invariant h this ->
  ptr_diff (end_ this) (Get (data_ this)) = Ret (size_ this) /\
  to_size_t (size_ this) = size_ this.
Proof.
  intros (buf & Hb & Hcap & Hmod & Hsz & Hlive).
  apply buffer_array_at in Hb. unfold end_.
  split; [|apply to_size_t_small; lia].
  destruct (Get (data_ this)) as [|b off]; simpl.
  - simpl in Hb. subst buf. simpl in Hcap. f_equal. lia.
  - rewrite Nat.eqb_refl. f_equal. lia.
Qed.

Lemma take_snoc_insert (buf : list slot) (l : list T) x :
  take (length l) buf = Some <$> l -> (length l < length buf)%nat ->
  take (length (l ++ [x])) (<[length l := Some x]> buf) = Some <$> (l ++ [x]).
Proof.
  intros Htake Hlt. rewrite length_app. simpl. rewrite Nat.add_1_r.
  rewrite (take_S_r _ _ (Some x)) by (apply list_lookup_insert_eq; exact Hlt).
  rewrite take_insert_ge by lia. rewrite Htake, fmap_app. reflexivity.
Qed.

Lemma fill_contents (buf : list slot) (l : list T) n value :
  take (length l) buf = Some <$> l -> (length l + n <= length buf)%nat ->
  take (length (l ++ replicate n value))
       (fill_range (Some value) buf (length l) n) =
    Some <$> (l ++ replicate n value).
Proof.
  intros Htake Hle. rewrite length_app, length_replicate.
  unfold fill_range. rewrite take_app_ge by (rewrite length_take; lia).
  rewrite length_take, Nat.min_l by lia.
  replace (length l + n - length l)%nat with n by lia.
  rewrite take_app_le by (rewrite length_replicate; lia).
  rewrite take_replicate, Nat.min_id.
  rewrite Htake, fmap_app, fmap_replicate. reflexivity.
Qed.

Lemma fill_whole (n : nat) value :
  take (length (replicate n value))
       (fill_range (Some value) (replicate n (@None T)) 0 n) =
    Some <$> replicate n value.
Proof.
  rewrite length_replicate. unfold fill_range. rewrite take_0. simpl.
  rewrite take_app_le by (rewrite length_replicate; lia).
  rewrite take_replicate, Nat.min_id, fmap_replicate. reflexivity.
Qed.

Lemma insert_contents (buf buf1 : list slot) (l : list T) dist value :
  take (length l) buf = Some <$> l ->
  (dist <= length l)%nat -> (length l < length buf1)%nat ->
  (forall i, (i < dist)%nat -> buf1 !! i = buf !! i) ->
  (forall i, (dist < i <= length l)%nat -> buf1 !! i = buf !! (i - 1)%nat) ->
  take (length (take dist l ++ value :: drop dist l))
       (<[dist := Some value]> buf1) =
    Some <$> (take dist l ++ value :: drop dist l).
Proof.
  intros Htake Hd Hlen Hlow Hhigh.
  assert (Hl : length (take dist l ++ value :: drop dist l) = S (length l)).
  { rewrite length_app, length_take. simpl. rewrite length_drop. lia. }
  rewrite Hl. apply list_eq. intros i.
  destruct (decide (i < S (length l))%nat) as [Hi|Hi].
  - rewrite lookup_take_lt by exact Hi. rewrite list_lookup_fmap.
    destruct (decide (i = dist)) as [->|Hne].
    + rewrite list_lookup_insert_eq by lia.
      rewrite lookup_app_r by (rewrite length_take; lia).
      rewrite length_take, Nat.min_l by lia. rewrite Nat.sub_diag. reflexivity.
    + rewrite list_lookup_insert_ne by lia.
      destruct (decide (i < dist)%nat) as [Hlt|Hgt].
      * rewrite Hlow by exact Hlt.
        rewrite lookup_app_l by (rewrite length_take; lia).
        rewrite lookup_take_lt by exact Hlt.
        apply holds_lookup; [exact Htake|lia].
      * rewrite Hhigh by lia.
        rewrite lookup_app_r by (rewrite length_take; lia).
        rewrite length_take, Nat.min_l by lia.
        replace (i - dist)%nat with (S (i - dist - 1)) by lia.
        simpl. rewrite lookup_drop.
        replace (dist + (i - dist - 1))%nat with (i - 1)%nat by lia.
        apply holds_lookup; [exact Htake|lia].
  - rewrite lookup_take_ge by lia. symmetry. apply lookup_ge_None_2.
    rewrite length_fmap. lia.
Qed.

Lemma erase_contents (buf : list slot) (l : list T) dist :
  take (length l) buf = Some <$> l -> (dist < length l)%nat ->
  (length l <= length buf)%nat ->
  take (length l - 1) (copy_within true (length l - dist - 1) (S dist) dist buf) =
    Some <$> (take dist l ++ drop (S dist) l).
Proof.
  intros Htake Hd Hle. apply list_eq. intros i.
  destruct (decide (i < length l - 1)%nat) as [Hi|Hi].
  - rewrite lookup_take_lt by exact Hi.
    rewrite shift_left_lookup by lia.
    rewrite list_lookup_fmap.
    destruct (decide (i < dist)%nat) as [Hlt|Hge].
    + rewrite lookup_app_l by (rewrite length_take; lia).
      rewrite lookup_take_lt by exact Hlt.
      repeat case_decide; try lia.
      apply holds_lookup; [exact Htake|lia].
    + rewrite lookup_app_r by (rewrite length_take; lia).
      rewrite length_take, Nat.min_l by lia. rewrite lookup_drop.
      replace (S dist + (i - dist))%nat with (S i) by lia.
      repeat case_decide; try lia.
      apply holds_lookup; [exact Htake|lia].
  - rewrite lookup_take_ge by lia. symmetry. apply lookup_ge_None_2.
    rewrite length_fmap, length_app, length_take, length_drop. lia.
Qed.

(** The first two steps of every growing path: a fresh array of [c] slots
    replaces the vector's array and receives the elements. *)
Lemma grow_copy mv {A} (k : ArrayPtr -> SimpleVector -> M A) h this l c :
  holds h this l -> 0 < c <= alloc_limit -> size_ this <= c ->
  exists h2 obuf,
    (let* (tmp, this1) := Realloc c this in
     std_copy mv (Get tmp) (Get tmp +ₚ size_ this1) (Get (data_ this1)) ;;
     k tmp this1) h =
      k (data_ this)
        {| data_ := {| raw_ptr_ := Ptr (length h) 0 |};
           size_ := size_ this; capacity_ := c |} h2 /\
    block_of h2 (length h) =
      Some ((Some <$> l) ++ replicate (Z.to_nat c - length l) None) /\
    array_at h2 (Get (data_ this)) obuf.
Proof.
  intros Hholds Hc Hsz.
  destruct (holds_array h this l Hholds)
    as (buf & Ha & Hcap & Hmod & Hsize & Htake & Hle).
  assert (Hc' : (if c =? 0 then 1 else c) = c).
  { destruct (Z.eqb_spec c 0); lia. }
  set (fresh := replicate (Z.to_nat c) (@None T)).
  set (h1 := h ++ [Some fresh]).
  set (np := Ptr (length h) 0).
  assert (Hflen : length fresh = Z.to_nat c) by apply length_replicate.
  assert (Ha1 : array_at h1 (Get (data_ this)) buf) by (apply array_at_app; exact Ha).
  assert (Hn1 : array_at h1 np fresh).
  { split; [reflexivity|]. apply block_of_fresh. }
  assert (Hap : apart (Get (data_ this)) np).
  { eapply array_at_apart_fresh. exact Ha. }
  set (obuf := wipe mv buf 0 (length l)).
  set (nbuf := take (length l) buf ++ drop (length l) fresh).
  set (h2 := set_array (set_array h1 (Get (data_ this)) obuf) np nbuf).
  exists h2, obuf. split; [|split].
  - erewrite bind_Ret by (apply Realloc_ok; lia).
    cbv beta iota. rewrite Hc'. fold fresh. fold h1. simpl size_. rewrite Hsize.
    erewrite bind_Ret by (apply std_copy_prefix; [exact Ha1|exact Hn1|exact Hap|lia|lia]).
    reflexivity.
  - unfold h2. simpl. rewrite block_of_insert.
    + f_equal. unfold nbuf. rewrite Htake. f_equal.
      unfold fresh. rewrite drop_replicate. reflexivity.
    + rewrite set_array_length. unfold h1. rewrite length_app. simpl. lia.
  - unfold h2. apply array_at_set_other; [apply apart_sym; exact Hap|].
    eapply array_at_set_same; [exact Ha1|]. apply wipe_length. lia.
Qed.

(** ** Arrays of other owners *)

Lemma extends_refl h : extends h h.
Proof. intros b buf H. exact H. Qed.

Lemma extends_trans h1 h2 h3 : extends h1 h2 -> extends h2 h3 -> extends h1 h3.
Proof. intros H12 H23 b buf H. apply H23, H12, H. Qed.

Lemma extends_app h x : extends h (h ++ x).
Proof. intros b buf H. apply block_of_app. exact H. Qed.

(** A computation that allocates an array and writes only to it. *)
Lemma extends_fresh h fresh buf :
  extends h (set_array (h ++ [Some fresh]) (Ptr (length h) 0) buf).
Proof.
  intros b bufb H. simpl.
  pose proof (block_of_lt _ _ _ H) as Hlt.
  rewrite block_of_insert_ne by lia. apply block_of_app. exact H.
Qed.

Lemma holds_extends h h' this l : extends h h' -> holds h this l -> holds h' this l.
Proof.
  intros Hext (buf & Hb & Hrest). exists buf. split; [|exact Hrest].
  unfold buffer in *. destruct (Get (data_ this)) as [|b off]; [exact Hb|].
  destruct (off =? 0); [|discriminate]. apply Hext. exact Hb.
Qed.

(** ** Constructors *)

Lemma SimpleVector_default_holds h : holds h SimpleVector_default [].
Proof.
  apply (array_holds _ _ _ []); reflexivity.
Qed.

(** [SimpleVector(size, value)] and [SimpleVector(size)]. *)
Lemma SimpleVector_filled_holds size value h :
  0 <= size <= alloc_limit -> alloc_limit < size_t_modulus ->
  exists h' this,
    SimpleVector_filled size value h = Ret (this, h') /\
    SimpleVector_sized size h =
      SimpleVector_filled size Type_default h /\
    holds h' this (replicate (Z.to_nat size) value) /\
    size_ this = size /\ capacity_ this = size /\
    extends h h' /\ (size = 0 -> h' = h).
Proof.
  intros Hs Hlim. unfold SimpleVector_sized, SimpleVector_filled.
  destruct (Z.eqb_spec size 0) as [->|Hne].
  - exists h, {| data_ := ArrayPtr_default; size_ := 0; capacity_ := 0 |}.
    split; [reflexivity|]. split; [reflexivity|].
    split; [apply (array_holds _ _ _ []); reflexivity|].
    split; [reflexivity|]. split; [reflexivity|].
    split; [apply extends_refl|reflexivity].
  - set (n := Z.to_nat size).
    set (fresh := replicate n (@None T)).
    set (np := Ptr (length h) 0).
    set (h1 := h ++ [Some fresh]).
    assert (Hn1 : array_at h1 np fresh).
    { split; [reflexivity|]. apply block_of_fresh. }
    exists (set_array h1 np (fill_range (Some value) fresh 0 n)),
      {| data_ := {| raw_ptr_ := np |}; size_ := size; capacity_ := size |}.
    split; [|split; [reflexivity|split;
      [|split; [reflexivity|split; [reflexivity|split;
         [apply extends_fresh|intros; contradiction]]]]]].
    + erewrite bind_Ret by (apply ArrayPtr_sized_ok; lia).
      fold n. fold fresh. fold h1. simpl size_. simpl data_.
      change (Get {| raw_ptr_ := Ptr (length h) 0 |}) with np.
      pose proof (std_fill_array h1 np fresh 0 n value Hn1) as Hfill.
      rewrite ptr_add_0 in Hfill. simpl Nat.add in Hfill.
      replace (Z.of_nat n) with size in Hfill by (unfold n; lia).
      erewrite bind_Ret by (apply Hfill; unfold fresh; rewrite length_replicate; lia).
      reflexivity.
    + apply (array_holds _ _ _ (fill_range (Some value) fresh 0 n)).
      * eapply array_at_set_same; [exact Hn1|].
        apply fill_range_length. unfold fresh. rewrite length_replicate. lia.
      * simpl. rewrite fill_range_length
          by (unfold fresh; rewrite length_replicate; lia).
        unfold fresh. rewrite length_replicate. unfold n. lia.
      * simpl. lia.
      * simpl. rewrite length_replicate. lia.
      * apply fill_whole.
Qed.

(** [SimpleVector(Reserve(n))]. *)
Lemma SimpleVector_reserved_holds n h :
  0 <= n <= alloc_limit -> alloc_limit < size_t_modulus ->
  exists h' this,
    SimpleVector_reserved (Reserve_proxy n) h = Ret (this, h') /\
    holds h' this [] /\ size_ this = 0 /\ capacity_ this = n /\
    extends h h' /\ (n = 0 -> h' = h).
Proof.
  intros Hs Hlim. unfold SimpleVector_reserved, Reserve_proxy, ReserveProxyObj_GetSize.
  simpl proxy_size_.
  destruct (Z.eqb_spec n 0) as [->|Hne].
  - exists h, {| data_ := ArrayPtr_default; size_ := 0; capacity_ := 0 |}.
    split; [reflexivity|].
    split; [apply (array_holds _ _ _ []); reflexivity|].
    split; [reflexivity|]. split; [reflexivity|].
    split; [apply extends_refl|reflexivity].
  - exists (h ++ [Some (replicate (Z.to_nat n) None)]),
      {| data_ := {| raw_ptr_ := Ptr (length h) 0 |}; size_ := 0; capacity_ := n |}.
    split; [|split; [|split; [reflexivity|split; [reflexivity|split;
      [apply extends_app|intros; contradiction]]]]].
    + erewrite bind_Ret by (apply ArrayPtr_sized_ok; lia). reflexivity.
    + apply (array_holds _ _ _ (replicate (Z.to_nat n) None)); try reflexivity.
      * split; [reflexivity|]. apply block_of_fresh.
      * simpl. rewrite length_replicate. lia.
      * simpl. lia.
Qed.

(** [SimpleVector(std::initializer_list<Type>)]. *)
Lemma SimpleVector_init_holds init h :
  Z.of_nat (length init) <= alloc_limit -> alloc_limit < size_t_modulus ->
  exists h' this,
    SimpleVector_init init h = Ret (this, h') /\
    holds h' this init /\
    size_ this = Z.of_nat (length init) /\
    capacity_ this = Z.of_nat (length init) /\
    extends h h' /\ (init = [] -> h' = h).
Proof.
  intros Hs Hlim. unfold SimpleVector_init.
  destruct init as [|x init].
  - exists h, {| data_ := ArrayPtr_default; size_ := 0; capacity_ := 0 |}.
    split; [reflexivity|].
    split; [apply (array_holds _ _ _ []); reflexivity|].
    split; [reflexivity|]. split; [reflexivity|].
    split; [apply extends_refl|reflexivity].
  - set (l := x :: init) in *.
    set (fresh := replicate (Z.to_nat (Z.of_nat (length l))) (@None T)).
    assert (Hflen : length fresh = length l).
    { unfold fresh. rewrite length_replicate. lia. }
    exists (<[length h := Some (take 0 fresh ++ (Some <$> l) ++
                                  drop (0 + length l) fresh)]> (h ++ [Some fresh])),
      {| data_ := {| raw_ptr_ := Ptr (length h) 0 |};
         size_ := Z.of_nat (length l); capacity_ := Z.of_nat (length l) |}.
    split; [|split; [|split; [reflexivity|split; [reflexivity|split;
      [apply (extends_fresh h fresh)|intros; discriminate]]]]].
    + assert (Hpos : 0 < Z.of_nat (length l) <= alloc_limit).
      { split; [unfold l; simpl length; lia|exact Hs]. }
      erewrite bind_Ret by (apply ArrayPtr_sized_ok; exact Hpos).
      fold fresh. simpl data_.
      change (Get {| raw_ptr_ := Ptr (length h) 0 |}) with (Ptr (length h) (Z.of_nat 0)).
      erewrite bind_Ret
        by (apply (copy_init_spec l (length h) 0 _ fresh);
            [apply block_of_fresh|rewrite Hflen; simpl; lia]).
      reflexivity.
    + apply (array_holds _ _ _ (take 0 fresh ++ (Some <$> l) ++ drop (0 + length l) fresh)).
      * split; [reflexivity|]. apply block_of_insert. rewrite length_app. simpl. lia.
      * cbn [capacity_]. rewrite take_0, app_nil_l, Nat.add_0_l.
        rewrite length_app, length_fmap, length_drop, Hflen. lia.
      * cbn [capacity_]. lia.
      * reflexivity.
      * rewrite take_0, app_nil_l. rewrite take_app_length'; [reflexivity|].
        rewrite length_fmap. reflexivity.
Qed.

(** [SimpleVector(const SimpleVector&)]. *)
Lemma SimpleVector_copy_holds other l h :
  holds h other l -> capacity_ other <= alloc_limit ->
  exists h' this,
    SimpleVector_copy other h = Ret (this, h') /\
    holds h' this l /\ holds h' other l /\
    size_ this = size_ other /\ capacity_ this = capacity_ other /\
    apart (Get (data_ this)) (Get (data_ other)) /\
    extends h h'.
Proof.
  intros Hholds Hlim.
  destruct (holds_array h other l Hholds)
    as (buf & Ha & Hcap & Hmod & Hsize & Htake & Hle).
  unfold SimpleVector_copy.
  destruct (Z.eqb_spec (capacity_ other) 0) as [H0|Hne].
  - assert (l = []) as -> by (destruct l; [reflexivity|simpl in *; lia]).
    exists h, {| data_ := ArrayPtr_default; size_ := size_ other;
                 capacity_ := capacity_ other |}.
    split; [|split; [|split; [exact Hholds|split; [reflexivity|split;
      [reflexivity|split; [exact I|apply extends_refl]]]]]].
    + unfold ArrayPtr_sized. rewrite H0. simpl Z.eqb. cbv iota.
      erewrite bind_Ret by reflexivity. rewrite Hsize. simpl length.
      erewrite bind_Ret by apply std_copy_empty. reflexivity.
    + apply (array_holds _ _ _ []); try reflexivity; simpl; lia.
  - set (fresh := replicate (Z.to_nat (capacity_ other)) (@None T)).
    set (np := Ptr (length h) 0).
    set (h1 := h ++ [Some fresh]).
    assert (Hflen : length fresh = Z.to_nat (capacity_ other)) by apply length_replicate.
    assert (Ha1 : array_at h1 (Get (data_ other)) buf) by (apply array_at_app; exact Ha).
    assert (Hn1 : array_at h1 np fresh).
    { split; [reflexivity|]. apply block_of_fresh. }
    assert (Hap : apart (Get (data_ other)) np).
    { eapply array_at_apart_fresh. exact Ha. }
    set (nb := take (length l) buf ++ drop (length l) fresh).
    set (h2 := set_array (set_array h1 (Get (data_ other)) (wipe false buf 0 (length l)))
                 np nb).
    exists h2, {| data_ := {| raw_ptr_ := np |}; size_ := size_ other;
                  capacity_ := capacity_ other |}.
    split; [|split; [|split; [|split; [reflexivity|split;
      [reflexivity|split]]]]].
    + erewrite bind_Ret by (apply ArrayPtr_sized_ok; lia).
      fold fresh. fold h1. simpl data_. rewrite Hsize.
      change (Get {| raw_ptr_ := Ptr (length h) 0 |}) with np.
      erewrite bind_Ret
        by (apply std_copy_prefix; [exact Ha1|exact Hn1|exact Hap|lia|lia]).
      reflexivity.
    + apply (array_holds _ _ _ nb).
      * eapply array_at_set_same.
        -- apply array_at_set_other; [exact Hap|exact Hn1].
        -- unfold nb. rewrite length_app, length_take, length_drop. lia.
      * simpl. unfold nb. rewrite length_app, length_take, length_drop. lia.
      * exact Hmod.
      * exact Hsize.
      * unfold nb. rewrite take_app_le by (rewrite length_take; lia).
        rewrite take_take, Nat.min_id. exact Htake.
    + apply (array_holds _ _ _ buf); try assumption.
      unfold h2. apply array_at_set_other; [apply apart_sym; exact Hap|].
      eapply array_at_set_same; [exact Ha1|reflexivity].
    + apply apart_sym. exact Hap.
    + unfold h2. unfold wipe. rewrite (set_array_id h1 _ buf Ha1).
      apply extends_fresh.
Qed.

(** [SimpleVector(SimpleVector&&)]. *)
Lemma SimpleVector_move_holds other l h :
  holds h other l ->
  holds h (fst (SimpleVector_move other)) l /\
  holds h (snd (SimpleVector_move other)) [].
Proof.
  intros Hholds.
  destruct (holds_array h other l Hholds)
    as (buf & Ha & Hcap & Hmod & Hsize & Htake & Hle).
  split.
  - apply (array_holds _ _ _ buf); assumption.
  - apply (array_holds _ _ _ []); reflexivity.
Qed.

(** ** PushBack *)

(** The in-place branch shared by both [PushBack]s. *)
Lemma push_in_place h this l item :
  holds h this l -> size_ this < capacity_ this ->
  exists h',
    bind (store (ArrayPtr_index (data_ this) (size_ this)) (Some item))
      (fun _ => ret (with_size this (to_size_t (size_ this + 1)))) h =
      Ret (with_size this (size_ this + 1), h') /\
    holds h' (with_size this (size_ this + 1)) (l ++ [item]).
Proof.
  intros (buf & Hb & Hcap & Hmod & Hsz & Htake) Hlt.
  apply buffer_array_at in Hb. unfold ArrayPtr_index.
  unfold Get in Hb. destruct (raw_ptr_ (data_ this)) as [|b off] eqn:Hp.
  { simpl in Hb. subst buf. simpl in Hcap. lia. }
  destruct Hb as [-> Hb]. simpl ptr_add. rewrite Z.add_0_l, Hsz.
  assert (Hn : (length l < length buf)%nat) by lia.
  eexists. split.
  - erewrite bind_Ret by (eapply store_at; eauto).
    unfold ret. rewrite to_size_t_small by lia. reflexivity.
  - exists (<[length l := Some item]> buf). repeat split.
    + apply buffer_array_at. unfold Get. simpl. rewrite Hp. split; [reflexivity|].
      apply block_of_insert. eapply block_of_lt; eauto.
    + rewrite length_insert. exact Hcap.
    + exact Hmod.
    + simpl. rewrite length_app. simpl. lia.
    + apply take_snoc_insert; assumption.
Qed.

(** The growing branch shared by both [PushBack]s. *)
Lemma push_grow mv h this l item :
  holds h this l -> size_ this = capacity_ this ->
  alloc_limit < size_t_modulus ->
  Z.max 1 (capacity_multiplier * capacity_ this) <= alloc_limit ->
  exists h' this',
    (let* (tmp, this) :=
       Realloc (to_size_t (capacity_multiplier * capacity_ this)) this in
     std_copy mv (Get tmp) (Get tmp +ₚ size_ this) (Get (data_ this)) ;;
     store (ArrayPtr_index (data_ this) (size_ this)) (Some item) ;;
     let this := with_size this (to_size_t (size_ this + 1)) in
     ArrayPtr_destroy tmp ;;
     ret this) h = Ret (this', h') /\
    holds h' this' (l ++ [item]) /\
    size_ this' = size_ this + 1 /\
    capacity_ this' =
      (if capacity_ this =? 0 then 1 else capacity_multiplier * capacity_ this).
Proof.
  intros (buf & Hb & Hcap & Hmod & Hsz & Htake) Hfull Hlim Hgrow.
  unfold capacity_multiplier in *.
  apply buffer_array_at in Hb.
  assert (Hc0 : 0 <= capacity_ this) by lia.
  rewrite (to_size_t_small (2 * capacity_ this)) by lia.
  set (c := if 2 * capacity_ this =? 0 then 1 else 2 * capacity_ this).
  assert (Hc : c = Z.max 1 (2 * capacity_ this)).
  { unfold c. destruct (Z.eqb_spec (2 * capacity_ this) 0); lia. }
  assert (Hlen : length buf = length l) by lia.
  set (fresh := replicate (Z.to_nat c) (@None T)).
  set (h1 := h ++ [Some fresh]).
  set (p := Get (data_ this)) in *.
  assert (Hfresh : array_at h1 (Ptr (length h) 0) fresh).
  { split; [reflexivity|]. apply block_of_fresh. }
  assert (Hold : array_at h1 p buf).
  { destruct p as [|b off]; [exact Hb|]. destruct Hb as [-> Hb].
    split; [reflexivity|]. apply block_of_app. exact Hb. }
  assert (Hap : apart p (Ptr (length h) 0)).
  { destruct p as [|b off]; [exact I|]. destruct Hb as [_ Hb].
    apply block_of_lt in Hb. simpl. lia. }
  assert (Hflen : length fresh = Z.to_nat c) by apply length_replicate.
  pose proof (std_copy_arrays mv h1 p (Ptr (length h) 0) buf fresh 0 0 (length l)
                Hold Hfresh Hap) as Hcopy.
  simpl Nat.add in Hcopy. rewrite blit_prefix in Hcopy.
  replace (p +ₚ Z.of_nat 0) with p in Hcopy by (destruct p; simpl; f_equal; lia).
  specialize (Hcopy ltac:(lia) ltac:(lia)).
  simpl ptr_add in Hcopy.
  set (h2 := set_array (set_array h1 p (wipe mv buf 0 (length l)))
               (Ptr (length h) 0) (take (length l) buf ++ drop (length l) fresh)) in *.
  set (buf2 := take (length l) buf ++ drop (length l) fresh) in *.
  assert (Hlen2 : length buf2 = Z.to_nat c).
  { unfold buf2. rewrite length_app, length_take, length_drop. lia. }
  assert (Hnew2 : block_of h2 (length h) = Some buf2).
  { unfold h2. simpl. apply block_of_insert. rewrite set_array_length.
    unfold h1. rewrite length_app. simpl. lia. }
  assert (Hold2 : array_at h2 p (wipe mv buf 0 (length l))).
  { unfold h2. apply array_at_set_other; [apply apart_sym; exact Hap|].
    eapply array_at_set_same; [exact Hold|]. apply wipe_length. lia. }
  set (h3 := <[length h := Some (<[length l := Some item]> buf2)]> h2).
  assert (Hold3 : array_at h3 p (wipe mv buf 0 (length l))).
  { unfold h3. apply (array_at_set_other h2 (Ptr (length h) 0));
      [apply apart_sym; exact Hap|exact Hold2]. }
  eexists _, _. split; [|split; [|split]].
  - erewrite bind_Ret by (apply Realloc_ok; fold c; lia).
    cbv beta iota. fold c. fold fresh. fold h1. simpl size_. simpl data_.
    unfold Get at 3. simpl raw_ptr_. fold p. rewrite Hsz.
    erewrite bind_Ret by exact Hcopy.
    unfold ArrayPtr_index. simpl ptr_add. rewrite Z.add_0_l.
    erewrite bind_Ret by (eapply store_at; [exact Hnew2|lia]).
    fold h3.
    erewrite bind_Ret by (eapply ArrayPtr_destroy_ok; exact Hold3).
    unfold ret. reflexivity.
  - exists (<[length l := Some item]> buf2). repeat split.
    + apply buffer_array_at. simpl. split; [reflexivity|].
      assert (Hnew3 : block_of h3 (length h) = Some (<[length l := Some item]> buf2)).
      { unfold h3. apply block_of_insert. eapply block_of_lt; eauto. }
      fold p. destruct p as [|b off]; [exact Hnew3|].
      rewrite block_of_insert_ne; [exact Hnew3|]. simpl in Hap. lia.
    + rewrite length_insert, Hlen2. simpl. fold c. lia.
    + simpl. fold c. lia.
    + simpl. rewrite to_size_t_small by lia. rewrite length_app. simpl. lia.
    + apply take_snoc_insert; [|lia].
      unfold buf2. rewrite take_app_le by (rewrite length_take; lia).
      rewrite take_take, Nat.min_id. exact Htake.
  - simpl. rewrite to_size_t_small by lia. lia.
  - simpl. fold c. unfold c.
    destruct (Z.eqb_spec (2 * capacity_ this) 0), (Z.eqb_spec (capacity_ this) 0); lia.
Qed.

(** ** Insert *)

(** The in-place branch shared by both [Insert]s. *)
Lemma insert_in_place mv h this l (dist : nat) value :
  holds h this l -> size_ this < capacity_ this -> (dist <= length l)%nat ->
  exists h',
    (std_copy_backward mv (Get (data_ this) +ₚ Z.of_nat dist)
       (Get (data_ this) +ₚ size_ this) (Get (data_ this) +ₚ size_ this +ₚ 1) ;;
     store (ArrayPtr_index (data_ this) (Z.of_nat dist)) (Some value) ;;
     let this' := with_size this (to_size_t (size_ this + 1)) in
     ret (Get (data_ this') +ₚ Z.of_nat dist, this')) h =
      Ret ((begin_ this +ₚ Z.of_nat dist, with_size this (size_ this + 1)), h') /\
    holds h' (with_size this (size_ this + 1))
      (take dist l ++ value :: drop dist l).
Proof.
  intros Hholds Hlt Hd.
  destruct (holds_nonempty h this l Hholds)
    as (b & buf & Hp & Hb & Hcap & Htake & Hle); [apply holds_size in Hholds; lia|].
  pose proof (holds_size h this l Hholds) as [Hsize _].
  pose proof Hholds as (_ & _ & _ & Hmod & _).
  set (n := (length l - dist)%nat).
  set (buf1 := copy_backward_within mv n (length l) (S (length l)) buf).
  set (buf2 := <[dist := Some value]> buf1).
  pose proof (block_of_lt _ _ _ Hb) as Hblt.
  assert (Hlen1 : length buf1 = length buf) by apply copy_backward_within_length.
  exists (<[b := Some buf2]> h). split.
  - rewrite Hp. simpl ptr_add. rewrite !Z.add_0_l, Hsize.
    replace (Z.of_nat (length l)) with (Z.of_nat (dist + n)) at 1 by (unfold n; lia).
    replace (Z.of_nat (length l) + 1) with (Z.of_nat (S (length l))) by lia.
    erewrite bind_Ret by (apply std_copy_backward_same; [exact Hb|unfold n; lia..]).
    replace (dist + n)%nat with (length l) by (unfold n; lia). fold buf1.
    unfold ArrayPtr_index.
    change (raw_ptr_ (data_ this)) with (Get (data_ this)).
    rewrite Hp. simpl ptr_add. rewrite Z.add_0_l.
    erewrite bind_Ret
      by (eapply store_at; [apply block_of_insert; exact Hblt|lia]).
    rewrite list_insert_insert_eq. fold buf2. unfold ret, begin_.
    rewrite to_size_t_small by lia. simpl data_. rewrite Hp. simpl ptr_add.
    rewrite Z.add_0_l. reflexivity.
  - apply (array_holds _ _ _ buf2).
    + simpl data_. rewrite Hp. split; [reflexivity|]. apply block_of_insert. exact Hblt.
    + unfold buf2. rewrite length_insert, Hlen1. exact Hcap.
    + exact Hmod.
    + simpl. rewrite length_app, length_take. simpl. rewrite length_drop. lia.
    + unfold buf2. apply (insert_contents buf); try assumption; try lia.
      * intros i Hi. unfold buf1. rewrite shift_right_lookup by lia.
        repeat case_decide; try lia;
          first [reflexivity | exfalso; unfold n in *; lia].
      * intros i Hi. unfold buf1. rewrite shift_right_lookup by lia.
        repeat case_decide; try lia;
          first [reflexivity | exfalso; unfold n in *; lia].
Qed.

(** The growing branch of the moving [Insert]. *)
Lemma insert_move_grow h this l (dist : nat) value :
  holds h this l -> size_ this = capacity_ this -> (dist <= length l)%nat ->
  alloc_limit < size_t_modulus ->
  Z.max 1 (capacity_multiplier * capacity_ this) <= alloc_limit ->
  exists h' this',
    (let* (tmp, this1) :=
       Realloc (to_size_t (capacity_multiplier * capacity_ this)) this in
     std_copy true (Get tmp) (Get tmp +ₚ Z.of_nat dist) (Get (data_ this1)) ;;
     std_copy_backward true (Get tmp +ₚ Z.of_nat dist) (Get tmp +ₚ size_ this1)
       (Get (data_ this1) +ₚ size_ this1 +ₚ 1) ;;
     store (ArrayPtr_index (data_ this1) (Z.of_nat dist)) (Some value) ;;
     let this' := with_size this1 (to_size_t (size_ this1 + 1)) in
     ArrayPtr_destroy tmp ;;
     ret (Get (data_ this') +ₚ Z.of_nat dist, this')) h =
      Ret ((begin_ this' +ₚ Z.of_nat dist, this'), h') /\
    holds h' this' (take dist l ++ value :: drop dist l) /\
    size_ this' = size_ this + 1 /\
    capacity_ this' =
      (if capacity_ this =? 0 then 1 else capacity_multiplier * capacity_ this).
Proof.
  intros Hholds Hfull Hd Hlim Hgrow. unfold capacity_multiplier in *.
  destruct (holds_array h this l Hholds)
    as (buf & Ha & Hcap & Hmod & Hsize & Htake & Hle).
  assert (Hlen : length buf = length l) by lia.
  rewrite (to_size_t_small (2 * capacity_ this)) by lia.
  set (c := if 2 * capacity_ this =? 0 then 1 else 2 * capacity_ this).
  assert (Hc : c = Z.max 1 (2 * capacity_ this)).
  { unfold c. destruct (Z.eqb_spec (2 * capacity_ this) 0); lia. }
  set (n := (length l - dist)%nat).
  set (fresh := replicate (Z.to_nat c) (@None T)).
  set (h1 := h ++ [Some fresh]).
  set (op := Get (data_ this)) in *.
  set (np := Ptr (length h) 0).
  assert (Hflen : length fresh = Z.to_nat c) by apply length_replicate.
  assert (Ha1 : array_at h1 op buf) by (apply array_at_app; exact Ha).
  assert (Hn1 : array_at h1 np fresh).
  { split; [reflexivity|]. apply block_of_fresh. }
  assert (Hap : apart op np) by (eapply array_at_apart_fresh; exact Ha).
  set (ob1 := wipe true buf 0 dist).
  set (nb1 := take dist buf ++ drop dist fresh).
  set (h2 := set_array (set_array h1 op ob1) np nb1).
  assert (Hol1 : length ob1 = length buf) by (apply wipe_length; lia).
  assert (Hnl1 : length nb1 = length fresh).
  { unfold nb1. rewrite length_app, length_take, length_drop. lia. }
  assert (Ha2 : array_at h2 op ob1).
  { apply array_at_set_other; [apply apart_sym; exact Hap|].
    eapply array_at_set_same; eauto. }
  assert (Hn2 : array_at h2 np nb1).
  { eapply array_at_set_same; [|exact Hnl1].
    apply array_at_set_other; [exact Hap|exact Hn1]. }
  set (ob2 := wipe true ob1 dist n).
  set (nb2 := blit ob1 dist n nb1 (S dist)).
  set (h3 := set_array (set_array h2 op ob2) np nb2).
  assert (Hol2 : length ob2 = length ob1) by (apply wipe_length; unfold n; lia).
  assert (Hnl2 : length nb2 = length nb1) by (apply blit_length; unfold n; lia).
  assert (Ha3 : array_at h3 op ob2).
  { apply array_at_set_other; [apply apart_sym; exact Hap|].
    eapply array_at_set_same; eauto. }
  assert (Hn3 : block_of h3 (length h) = Some nb2).
  { unfold h3. simpl. apply block_of_insert. rewrite set_array_length.
    unfold h2. rewrite !set_array_length.
    unfold h1. rewrite length_app. simpl. lia. }
  set (nb3 := <[dist := Some value]> nb2).
  set (h4 := <[length h := Some nb3]> h3).
  assert (Ha4 : array_at h4 op ob2).
  { apply (array_at_set_other h3 np); [apply apart_sym; exact Hap|exact Ha3]. }
  assert (Hn4 : array_at h4 np nb3).
  { split; [reflexivity|]. apply block_of_insert. eapply block_of_lt; eauto. }
  exists (free_array h4 op),
    {| data_ := {| raw_ptr_ := np |}; size_ := size_ this + 1; capacity_ := c |}.
  split; [|split; [|split]].
  - erewrite bind_Ret by (apply Realloc_ok; fold c; lia).
    cbv beta iota. fold c. fold fresh. fold h1. fold op. simpl size_. simpl data_.
    change (Get {| raw_ptr_ := Ptr (length h) 0 |}) with np.
    erewrite bind_Ret by (apply std_copy_prefix; [exact Ha1|exact Hn1|exact Hap|lia|lia]).
    fold ob1. fold nb1. fold h2. rewrite Hsize.
    replace (Z.of_nat (length l)) with (Z.of_nat (dist + n)) at 1 by (unfold n; lia).
    replace (np +ₚ Z.of_nat (length l) +ₚ 1) with (np +ₚ Z.of_nat (S (length l)))
      by (simpl; f_equal; lia).
    erewrite bind_Ret
      by (apply std_copy_backward_arrays;
          [exact Ha2|exact Hn2|exact Hap|unfold n; lia|unfold n; lia]).
    replace (S (length l) - n)%nat with (S dist) by (unfold n; lia).
    fold ob2. fold nb2. fold h3.
    unfold ArrayPtr_index. simpl raw_ptr_. simpl ptr_add. rewrite Z.add_0_l.
    erewrite bind_Ret by (eapply store_at; [exact Hn3|unfold n in *; lia]).
    fold nb3. fold h4.
    erewrite bind_Ret by (eapply ArrayPtr_destroy_free; exact Ha4).
    unfold ret, begin_. rewrite to_size_t_small by lia. reflexivity.
  - apply (array_holds _ _ _ nb3).
    + change (array_at (free_array h4 op) np nb3).
      apply array_at_free_other; assumption.
    + simpl. unfold nb3. rewrite length_insert. lia.
    + simpl. lia.
    + simpl. rewrite length_app, length_take. simpl. rewrite length_drop. lia.
    + unfold nb3. apply (insert_contents buf); try assumption; try lia.
      * intros i Hi. unfold nb2. rewrite blit_lookup by (unfold n; lia).
        case_decide; [lia|]. unfold nb1.
        rewrite lookup_app_l by (rewrite length_take; lia).
        apply lookup_take_lt. exact Hi.
      * intros i Hi. unfold nb2. rewrite blit_lookup by (unfold n; lia).
        case_decide; [|unfold n in *; lia].
        unfold ob1. rewrite wipe_lookup by lia.
        case_decide; [lia|]. f_equal. lia.
  - reflexivity.
  - simpl. unfold c.
    destruct (Z.eqb_spec (2 * capacity_ this) 0), (Z.eqb_spec (capacity_ this) 0); lia.
Qed.

(** What [Insert] does where it is right: the moving overload on every
    vector, the copying overload while there is room.  The elements from
    the position on move one slot toward the end in their order, the value
    takes the position, [size_] grows by one, and the iterator returned
    reads the value. *)
Lemma Insert_inserts ins h this l (dist : nat) value :
  ins = Insert_move \/ (ins = Insert_copy /\ size_ this < capacity_ this) ->
  holds h this l -> (dist <= length l)%nat ->
  alloc_limit < size_t_modulus ->
  (size_ this = capacity_ this ->
   Z.max 1 (capacity_multiplier * capacity_ this) <= alloc_limit) ->
  exists h' this',
    ins (begin_ this +ₚ Z.of_nat dist) (ref_object value) this h =
      Ret ((begin_ this' +ₚ Z.of_nat dist, this'), h') /\
    holds h' this' (take dist l ++ value :: drop dist l) /\
    size_ this' = size_ this + 1 /\
    capacity_ this' =
      (if size_ this <? capacity_ this then capacity_ this
       else if capacity_ this =? 0 then 1 else 2 * capacity_ this) /\
    load_value (begin_ this' +ₚ Z.of_nat dist) h' = Ret (value, h').
Proof.
  intros Hins Hholds Hd Hlim Hgrow.
  destruct (holds_ptr_diff h this l dist Hholds Hd) as [Hdiff Hsmall].
  pose proof (holds_size h this l Hholds) as [Hsize Hle].
  assert (Hread : forall h' this',
             holds h' this' (take dist l ++ value :: drop dist l) ->
             load_value (begin_ this' +ₚ Z.of_nat dist) h' = Ret (value, h')).
  { intros h' this' Hres. eapply holds_load; [exact Hres|].
    rewrite lookup_app_r by (rewrite length_take; lia).
    rewrite length_take, Nat.min_l by lia. rewrite Nat.sub_diag. reflexivity. }
  destruct (Z.ltb_spec (size_ this) (capacity_ this)) as [Hlt|Hge].
  - destruct (insert_in_place false h this l dist value Hholds Hlt Hd)
      as (hc & Hrunc & Hresc).
    destruct (insert_in_place true h this l dist value Hholds Hlt Hd)
      as (hm & Hrunm & Hresm).
    destruct Hins as [-> | [-> _]]; unfold Insert_move, Insert_copy;
      rewrite Hdiff, bind_lift_Ret; cbv beta zeta; rewrite Hsmall;
      destruct (Z.ltb_spec (size_ this) (capacity_ this)); try lia;
      eexists _, (with_size this (size_ this + 1));
      (split; [eassumption|]); repeat split; auto.
  - destruct Hins as [-> | [_ Hlt]]; [|lia].
    assert (Hfull : size_ this = capacity_ this) by lia.
    destruct (insert_move_grow h this l dist value Hholds Hfull Hd Hlim (Hgrow Hfull))
      as (h' & this' & Hrun & Hres & Hsz & Hcap).
    exists h', this'. unfold Insert_move.
    rewrite Hdiff, bind_lift_Ret. cbv beta zeta. rewrite Hsmall.
    destruct (Z.ltb_spec (size_ this) (capacity_ this)); try lia.
    repeat split; auto.
Qed.

Lemma Insert_end_in_place mv (assign : pointer -> M unit) h this :
  (std_copy_backward mv (Get (data_ this) +ₚ size_ this)
     (Get (data_ this) +ₚ size_ this) (Get (data_ this) +ₚ size_ this +ₚ 1) ;;
   assign (ArrayPtr_index (data_ this) (size_ this)) ;;
   let this' := with_size this (to_size_t (size_ this + 1)) in
   ret (Get (data_ this') +ₚ size_ this, this')) h =
  (let* this' :=
     (assign (ArrayPtr_index (data_ this) (size_ this)) ;;
      ret (with_size this (to_size_t (size_ this + 1)))) in
   ret (begin_ this' +ₚ size_ this, this')) h.
Proof.
  unfold bind at 1. rewrite std_copy_backward_empty.
  rewrite bind_assoc. apply bind_ext. intros [] h' _. reflexivity.
Qed.

Lemma Insert_end_grow mv (d_last : SimpleVector -> pointer)
    (assign : pointer -> M unit) h this :
  (let* (tmp, this1) :=
     Realloc (to_size_t (capacity_multiplier * capacity_ this)) this in
   std_copy mv (Get tmp) (Get tmp +ₚ size_ this) (Get (data_ this1)) ;;
   std_copy_backward mv (Get tmp +ₚ size_ this) (Get tmp +ₚ size_ this1)
     (d_last this1) ;;
   assign (ArrayPtr_index (data_ this1) (size_ this)) ;;
   let this' := with_size this1 (to_size_t (size_ this1 + 1)) in
   ArrayPtr_destroy tmp ;;
   ret (Get (data_ this') +ₚ size_ this, this')) h =
  (let* this' :=
     (let* (tmp, this1) :=
        Realloc (to_size_t (capacity_multiplier * capacity_ this)) this in
      std_copy mv (Get tmp) (Get tmp +ₚ size_ this1) (Get (data_ this1)) ;;
      assign (ArrayPtr_index (data_ this1) (size_ this1)) ;;
      let this' := with_size this1 (to_size_t (size_ this1 + 1)) in
      ArrayPtr_destroy tmp ;;
      ret this') in
   ret (begin_ this' +ₚ size_ this, this')) h.
Proof.
  rewrite bind_assoc. apply bind_ext. intros [tmp this1] h1 Hre.
  apply Realloc_size in Hre. rewrite Hre.
  rewrite bind_assoc. apply bind_ext. intros q h2 _.
  unfold bind at 1. rewrite std_copy_backward_empty.
  rewrite bind_assoc. apply bind_ext. intros [] h3 _.
  rewrite bind_assoc. apply bind_ext. intros [] h4 _.
  reflexivity.
Qed.

(** C9: inserting at [end()] is [PushBack]: the same outcome, the same
    vector (elements, size, capacity) and the same heap, for the copying and
    for the moving variant, in place and when the array grows.  The iterator
    returned is the position of the new last element. *)
Theorem Insert_at_end_is_PushBack h this value :
  invariant h this ->
  Insert_copy (end_ this) value this h =
    (let* this' := PushBack_copy value this in
     ret (begin_ this' +ₚ size_ this, this')) h /\
  Insert_move (end_ this) value this h =
    (let* this' := PushBack_move value this in
     ret (begin_ this' +ₚ size_ this, this')) h.
Proof.
  intros Hinv. destruct (invariant_end_diff h this Hinv) as [Hdiff Hsmall].
  unfold Insert_copy, Insert_move, PushBack_copy, PushBack_move.
  rewrite Hdiff, !bind_lift_Ret. cbv beta zeta. rewrite Hsmall.
  destruct (size_ this <? capacity_ this).
  - split.
    + apply (Insert_end_in_place false (fun dst => assign_from false dst value)).
    + apply (Insert_end_in_place true (fun dst => assign_from true dst value)).
  - split.
    + apply (Insert_end_grow false (fun this1 => Get (data_ this1) +ₚ 1)
               (fun dst => assign_from false dst value)).
    + apply (Insert_end_grow true
               (fun this1 => Get (data_ this1) +ₚ size_ this1 +ₚ 1)
               (fun dst => assign_from true dst value)).
Qed.

(** ** PopBack, Clear and Erase *)

(** [PopBack()] and [Clear()]. *)
Lemma PopBack_holds h this l :
  holds h this l ->
  holds h (PopBack this) (take (length l - 1) l) /\
  capacity_ (PopBack this) = capacity_ this /\
  holds h (Clear this) [] /\ capacity_ (Clear this) = capacity_ this.
Proof.
  intros Hholds.
  destruct (holds_array h this l Hholds)
    as (buf & Ha & Hcap & Hmod & Hsize & Htake & Hle).
  assert (Hpop : PopBack this =
                 with_size this (Z.of_nat (length (take (length l - 1) l)))).
  { unfold PopBack. rewrite length_take.
    destruct (Z.gtb_spec (size_ this) 0).
    - rewrite to_size_t_small by lia. f_equal. lia.
    - destruct this as [d sz c]. unfold with_size. simpl in *. f_equal.
      destruct l; simpl in *; lia. }
  split; [|split; [|split]].
  - rewrite Hpop. apply (array_holds _ _ _ buf); try assumption; try reflexivity.
    rewrite length_take, Nat.min_l by lia.
    rewrite fmap_take, <- Htake, take_take. f_equal. lia.
  - rewrite Hpop. reflexivity.
  - apply (array_holds _ _ _ buf); try assumption; reflexivity.
  - reflexivity.
Qed.

(** C6: [Erase] on an empty vector changes nothing and returns [begin()];
    on a position [begin() + dist] of a non-empty vector it removes the
    element at [dist], keeps the order of the others, takes one off [size_],
    leaves [capacity_] and the array where they are, and returns the same
    position: the slot of the element that followed the erased one, or
    [end()] when the erased element was the last. *)
Theorem Erase_removes h this l pos :
  holds h this l ->
  (size_ this = 0 -> Erase pos this h = Ret ((begin_ this, this), h)) /\
  (forall dist : nat,
     (dist < length l)%nat -> pos = begin_ this +ₚ Z.of_nat dist ->
     exists h' this',
       Erase pos this h = Ret ((begin_ this' +ₚ Z.of_nat dist, this'), h') /\
       holds h' this' (take dist l ++ drop (S dist) l) /\
       size_ this' = size_ this - 1 /\
       capacity_ this' = capacity_ this /\
       data_ this' = data_ this /\
       (forall x, l !! S dist = Some x ->
                  load_value (begin_ this' +ₚ Z.of_nat dist) h' = Ret (x, h')) /\
       (S dist = length l -> begin_ this' +ₚ Z.of_nat dist = end_ this')).
Proof.
  intros Hholds. split.
  - intros H0. unfold Erase. rewrite H0. reflexivity.
  - intros dist Hdist ->.
    pose proof Hholds as (buf0 & _ & Hcap0 & Hmod & Hsz & Htake0).
    destruct (holds_nonempty h this l Hholds)
      as (b & buf & Hp & Hb & Hcap & Htake & Hle).
    { apply (f_equal length) in Htake0.
      rewrite length_take, length_fmap in Htake0. lia. }
    set (n := (length l - dist - 1)%nat).
    set (buf' := copy_within true n (S dist) dist buf).
    set (this' := with_size this (size_ this - 1)).
    assert (Hrun : Erase (begin_ this +ₚ Z.of_nat dist) this h =
                   Ret ((begin_ this' +ₚ Z.of_nat dist, this'),
                        <[b := Some buf']> h)).
    { unfold Erase, begin_. destruct (Z.gtb_spec (size_ this) 0); [|lia].
      rewrite Hp. simpl ptr_add. simpl ptr_diff. rewrite Nat.eqb_refl.
      rewrite bind_lift_Ret.
      replace (0 + (0 + Z.of_nat dist - 0) + 1) with (Z.of_nat (S dist)) by lia.
      replace (0 + (0 + Z.of_nat dist - 0)) with (Z.of_nat dist) by lia.
      replace (0 + size_ this) with (Z.of_nat (S dist + n)) by (unfold n; lia).
      erewrite bind_Ret by (apply std_copy_same; [exact Hb|unfold n; lia..]).
      unfold ret. rewrite to_size_t_small by lia.
      rewrite Z.sub_0_r. reflexivity. }
    assert (Hres : holds (<[b := Some buf']> h) this'
                     (take dist l ++ drop (S dist) l)).
    { exists buf'. repeat split.
      - apply buffer_array_at. simpl. rewrite Hp. split; [reflexivity|].
        apply block_of_insert. eapply block_of_lt; eauto.
      - unfold buf'. rewrite copy_within_length. exact Hcap.
      - exact Hmod.
      - simpl. rewrite length_app, length_take, length_drop. lia.
      - replace (length (take dist l ++ drop (S dist) l)) with (length l - 1)%nat
          by (rewrite length_app, length_take, length_drop; lia).
        apply erase_contents; assumption. }
    exists (<[b := Some buf']> h), this'.
    split; [exact Hrun|]. split; [exact Hres|].
    split; [reflexivity|]. split; [reflexivity|]. split; [reflexivity|]. split.
    + intros x Hx. eapply holds_load; [exact Hres|].
      rewrite lookup_app_r by (rewrite length_take; lia).
      rewrite length_take, Nat.min_l by lia. rewrite lookup_drop.
      rewrite Nat.sub_diag, Nat.add_0_r. exact Hx.
    + intros Hlast. unfold end_, begin_. simpl. f_equal. lia.
Qed.

(** ** Resize and Reserve *)

Lemma Resize_shrinks h this l new_size :
  holds h this l -> 0 <= new_size <= size_ this ->
  Resize new_size this h = Ret (with_size this new_size, h) /\
  holds h (with_size this new_size) (take (Z.to_nat new_size) l).
Proof.
  intros Hholds Hr.
  destruct (holds_array h this l Hholds)
    as (buf & Ha & Hcap & Hmod & Hsize & Htake & Hle).
  split.
  - unfold Resize. destruct (Z.leb_spec new_size (size_ this)); [reflexivity|lia].
  - apply (array_holds h _ _ buf); simpl; try assumption.
    + rewrite length_take. lia.
    + rewrite length_take, Nat.min_l by lia.
      rewrite fmap_take, <- Htake, take_take. f_equal. lia.
Qed.

Lemma Resize_fills h this l new_size :
  holds h this l -> size_ this < new_size < capacity_ this ->
  exists h',
    Resize new_size this h = Ret (with_size this new_size, h') /\
    holds h' (with_size this new_size)
      (l ++ replicate (Z.to_nat (new_size - size_ this)) Type_default).
Proof.
  intros Hholds Hr.
  destruct (holds_array h this l Hholds)
    as (buf & Ha & Hcap & Hmod & Hsize & Htake & Hle).
  set (m := Z.to_nat (new_size - size_ this)).
  set (buf' := fill_range (Some Type_default) buf (length l) m).
  exists (set_array h (Get (data_ this)) buf'). split.
  - unfold Resize. destruct (Z.leb_spec new_size (size_ this)); [lia|].
    destruct (Z.ltb_spec new_size (capacity_ this)); [|lia].
    rewrite Hsize. replace new_size with (Z.of_nat (length l + m)) at 1 by lia.
    erewrite bind_Ret by (apply std_fill_array; [exact Ha|lia]).
    reflexivity.
  - apply (array_holds _ _ _ buf'); simpl; try assumption.
    + eapply array_at_set_same; [exact Ha|]. apply fill_range_length. lia.
    + unfold buf'. rewrite fill_range_length by lia. exact Hcap.
    + rewrite length_app, length_replicate. lia.
    + apply fill_contents; [exact Htake|lia].
Qed.

Lemma Resize_grows h this l new_size :
  holds h this l -> size_ this < new_size -> capacity_ this <= new_size ->
  capacity_multiplier * new_size <= alloc_limit -> alloc_limit < size_t_modulus ->
  exists h' this',
    Resize new_size this h = Ret (this', h') /\
    holds h' this'
      (l ++ replicate (Z.to_nat (new_size - size_ this)) Type_default) /\
    capacity_ this' = capacity_multiplier * new_size /\
    Get (data_ this') = Ptr (length h) 0.
Proof.
  intros Hholds Hgt Hge Hlim Hmodl. unfold capacity_multiplier in *.
  destruct (holds_array h this l Hholds)
    as (buf & Ha & Hcap & Hmod & Hsize & Htake & Hle).
  set (m := Z.to_nat (new_size - size_ this)).
  set (c := 2 * new_size) in *.
  set (np := Ptr (length h) 0).
  destruct (grow_copy true
              (fun tmp this1 =>
                 std_fill (Get (data_ this1) +ₚ size_ this1)
                   (Get (data_ this1) +ₚ new_size) Type_default ;;
                 let this2 := with_size this1 new_size in
                 ArrayPtr_destroy tmp ;; ret this2)
              h this l c Hholds) as (h2 & obuf & Hrun & Hnew & Hold); [lia|lia|].
  set (nb := (Some <$> l) ++ replicate (Z.to_nat c - length l) (@None T)) in *.
  assert (Hnlen : length nb = Z.to_nat c).
  { unfold nb. rewrite length_app, length_fmap, length_replicate. lia. }
  assert (Hna : array_at h2 np nb) by (split; [reflexivity|exact Hnew]).
  set (nb' := fill_range (Some Type_default) nb (length l) m).
  set (h3 := set_array h2 np nb').
  assert (Hap : apart np (Get (data_ this))).
  { apply apart_sym. eapply array_at_apart_fresh. exact Ha. }
  assert (Hold3 : array_at h3 (Get (data_ this)) obuf).
  { apply array_at_set_other; assumption. }
  assert (Hna3 : array_at h3 np nb').
  { eapply array_at_set_same; [exact Hna|]. apply fill_range_length. lia. }
  exists (free_array h3 (Get (data_ this))),
    {| data_ := {| raw_ptr_ := np |}; size_ := new_size; capacity_ := c |}.
  split; [|split; [|split; reflexivity]].
  - unfold Resize. destruct (Z.leb_spec new_size (size_ this)); [lia|].
    destruct (Z.ltb_spec new_size (capacity_ this)); [lia|].
    unfold capacity_multiplier. fold c. rewrite to_size_t_small by lia.
    cbv beta zeta in Hrun. rewrite Hrun. simpl size_. simpl data_. unfold Get at 1 2. simpl raw_ptr_.
    fold np. rewrite Hsize.
    replace new_size with (Z.of_nat (length l + m)) at 1 by lia.
    erewrite bind_Ret by (apply std_fill_array; [exact Hna|lia]).
    fold nb'. fold h3.
    erewrite bind_Ret by (eapply ArrayPtr_destroy_free; exact Hold3).
    reflexivity.
  - apply (array_holds _ _ _ nb').
    + change (array_at (free_array h3 (Get (data_ this))) np nb').
      apply array_at_free_other; [apply apart_sym; exact Hap|exact Hna3].
    + simpl. unfold nb'. rewrite fill_range_length by lia. lia.
    + simpl. lia.
    + simpl. rewrite length_app, length_replicate. lia.
    + apply fill_contents; [|lia].
      unfold nb. apply take_app_length'. rewrite length_fmap. reflexivity.
Qed.

(** [Resize] to a larger size, away from the boundary: when
    [size_ < new_size < capacity_] it sets the slots from [size_] up to
    [new_size] to the default value, sets [size_] to [new_size] and keeps
    capacity and array; when [new_size > capacity_] it moves the elements to
    a fresh array of capacity [2 * new_size] and default-fills the same
    range. *)
Theorem Resize_up h this l new_size :
  holds h this l -> size_ this < new_size ->
  (new_size < capacity_ this ->
   exists h' this',
     Resize new_size this h = Ret (this', h') /\
     holds h' this'
       (l ++ replicate (Z.to_nat (new_size - size_ this)) Type_default) /\
     size_ this' = new_size /\
     capacity_ this' = capacity_ this /\ data_ this' = data_ this) /\
  (capacity_ this < new_size ->
   capacity_multiplier * new_size <= alloc_limit -> alloc_limit < size_t_modulus ->
   exists h' this',
     Resize new_size this h = Ret (this', h') /\
     holds h' this'
       (l ++ replicate (Z.to_nat (new_size - size_ this)) Type_default) /\
     size_ this' = new_size /\
     capacity_ this' = 2 * new_size /\ Get (data_ this') = Ptr (length h) 0).
Proof.
  intros Hholds Hgt. split.
  - intros Hlt.
    destruct (Resize_fills h this l new_size Hholds) as (h' & Hrun & Hres); [lia|].
    exists h', (with_size this new_size). repeat split; assumption.
  - intros Hcap Hlim Hmod.
    destruct (Resize_grows h this l new_size Hholds) as (h' & this' & Hrun & Hres & Hc & Hd);
      try assumption; try lia.
    exists h', this'. repeat split; try assumption.
    destruct Hres as (buf & _ & _ & _ & Hsz & _).
    rewrite Hsz, length_app, length_replicate.
    apply holds_size in Hholds. lia.
Qed.

(** [Reserve(new_capacity)]. *)
Lemma Reserve_holds h this l new_capacity :
  holds h this l -> new_capacity <= alloc_limit -> alloc_limit < size_t_modulus ->
  exists h' this',
    Reserve new_capacity this h = Ret (this', h') /\
    holds h' this' l /\
    capacity_ this' = Z.max (capacity_ this) new_capacity /\
    size_ this' = size_ this /\
    (capacity_ this < new_capacity ->
     Get (data_ this') = Ptr (length h) 0 /\
     forall b off, Get (data_ this) = Ptr b off -> block_of h' b = None).
Proof.
  intros Hholds Hlim Hmodl. unfold Reserve.
  pose proof (holds_size h this l Hholds) as [Hsize Hle].
  destruct (Z.ltb_spec (capacity_ this) new_capacity) as [Hlt|Hge].
  - destruct (grow_copy false
                (fun tmp this1 => ArrayPtr_destroy tmp ;; ret this1)
                h this l new_capacity Hholds) as (h2 & obuf & Hrun & Hnew & Hold);
      [lia|lia|].
    exists (free_array h2 (Get (data_ this))),
      {| data_ := {| raw_ptr_ := Ptr (length h) 0 |};
         size_ := size_ this; capacity_ := new_capacity |}.
    split; [|split; [|split; [|split; [reflexivity|]]]];
      [| | |intros _; split; [reflexivity|];
            intros b off Hp; rewrite Hp; apply block_of_released].
    + cbv beta in Hrun. rewrite Hrun.
      erewrite bind_Ret by (eapply ArrayPtr_destroy_free; exact Hold).
      reflexivity.
    + apply (array_holds _ _ _
               ((Some <$> l) ++ replicate (Z.to_nat new_capacity - length l) None)).
      * change (array_at (free_array h2 (Get (data_ this))) (Ptr (length h) 0)
                  ((Some <$> l) ++ replicate (Z.to_nat new_capacity - length l) None)).
        apply array_at_free_other.
        -- destruct Hholds as (buf & Hb & _). apply buffer_array_at in Hb.
           eapply array_at_apart_fresh. exact Hb.
        -- split; [reflexivity|exact Hnew].
      * simpl. rewrite length_app, length_fmap, length_replicate. lia.
      * simpl. lia.
      * simpl. exact Hsize.
      * apply take_app_length'. rewrite length_fmap. reflexivity.
    + simpl. lia.
  - exists h, this. split; [reflexivity|]. split; [exact Hholds|].
    split; [lia|]. split; [reflexivity|]. intros Hlt. lia.
Qed.

(** ** At *)

(** C7: [At], in both overloads, throws [std::out_of_range] with a message
    exactly when [index >= size_], whether the vector is empty or not, and
    is [operator[]] otherwise; it computes from the fields alone and writes
    nothing.  In a vector that holds [l] the reference it returns reads
    element [index] of [l]. *)
Theorem At_checked index this :
  ((exists what, At index this = Throw (out_of_range what) /\ what <> EmptyString)
     <-> size_ this <= index) /\
  ((exists what, At_const index this = Throw (out_of_range what) /\ what <> EmptyString)
     <-> size_ this <= index) /\
  (index < size_ this ->
     At index this = Ret (subscript index this) /\
     At_const index this = Ret (subscript index this)) /\
  (forall h l,
     holds h this l -> 0 <= index < size_ this ->
     exists x,
       l !! Z.to_nat index = Some x /\
       load_value (subscript index this) h = Ret (x, h)).
Proof.
  unfold At, At_const, subscript.
  destruct (Z.geb_spec index (size_ this)) as [Hge|Hlt].
  - split; [|split; [|split]].
    + split; [intros _; lia|]. intros _. eexists. split; [reflexivity|discriminate].
    + split; [intros _; lia|]. intros _. eexists. split; [reflexivity|discriminate].
    + intros Hlt. lia.
    + intros h l _ Hr. lia.
  - split; [|split; [|split]].
    + split; [intros (what & Hw & _); discriminate|lia].
    + split; [intros (what & Hw & _); discriminate|lia].
    + intros _. split; reflexivity.
    + intros h l Hholds Hr.
      pose proof Hholds as (buf & _ & _ & _ & Hsz & _).
      destruct (lookup_lt_is_Some_2 l (Z.to_nat index)) as [x Hx]; [lia|].
      exists x. split; [exact Hx|].
      pose proof (holds_load h this l (Z.to_nat index) x Hholds Hx) as Hload.
      rewrite Z2Nat.id in Hload by lia. exact Hload.
Qed.

(** ** operator== *)

(** C3: [operator==] returns [true] exactly when the two vectors have the
    same length and equal elements at every index; the guard that compares
    [lhs.GetSize()] with itself never fires, and vectors of different
    lengths are told apart by [std::equal], which is given both ends. *)
Theorem operator_eq_iff h lhs rhs l1 l2 :
  holds h lhs l1 -> holds h rhs l2 ->
  exists r,
    operator_eq lhs rhs h = Ret (r, h) /\
    (r = true <->
       length l1 = length l2 /\
       Forall2 (fun x y => Type_eqb x y = true) l1 l2) /\
    (length l1 <> length l2 -> r = false).
Proof.
  intros H1 H2.
  destruct (invariant_end_diff h lhs (holds_invariant h lhs l1 H1)) as [Hd1 _].
  destruct (invariant_end_diff h rhs (holds_invariant h rhs l2 H2)) as [Hd2 _].
  pose proof H1 as (buf1 & _ & _ & _ & Hsz1 & Htake1).
  pose proof H2 as (buf2 & _ & _ & _ & Hsz2 & Htake2).
  unfold operator_eq, GetSize. rewrite Z.eqb_refl.
  change (negb true) with false. cbv iota.
  unfold std_equal, begin_. rewrite Hd1, bind_lift_Ret. cbv beta.
  rewrite Hd2, bind_lift_Ret. cbv beta.
  replace ((size_ lhs <? 0) || (size_ rhs <? 0)) with false
    by (symmetry; apply orb_false_iff; split; apply Z.ltb_ge; lia).
  destruct (Z.eqb_spec (size_ lhs) (size_ rhs)) as [Heq|Hne];
    [change (negb true) with false|change (negb false) with true]; cbv iota.
  - assert (Hlen : length l1 = length l2) by lia.
    destruct l1 as [|x l1].
    + destruct l2 as [|y l2]; [|discriminate].
      rewrite Hsz1. simpl. exists true. split; [reflexivity|].
      split; [|intros Hc; contradiction].
      split; [intros _; split; [reflexivity|constructor]|reflexivity].
    + destruct (holds_nonempty h lhs (x :: l1) H1)
        as (b1 & bf1 & Hp1 & Hb1 & _ & Ht1 & _).
      { apply holds_size in H1. simpl length in H1. lia. }
      destruct (holds_nonempty h rhs l2 H2)
        as (b2 & bf2 & Hp2 & Hb2 & _ & Ht2 & _).
      { apply holds_size in H2. simpl length in *. lia. }
      rewrite Hp1, Hp2, Hsz1, Nat2Z.id.
      destruct (equal_loop_spec h b1 b2 bf1 bf2 (x :: l1) l2 0 0 Hb1 Hb2)
        as (r & Hrun & Hr); try assumption.
      exists r. split; [exact Hrun|]. split; [|intros Hc; contradiction].
      rewrite Hr. prop_tauto.
  - exists false. split; [reflexivity|]. split; [|reflexivity].
    split; [discriminate|]. intros [Hlen _]. lia.
Qed.

(** ** Assignment and swap *)

(** The branch of both assignments that keeps the destination's array. *)
Lemma assign_reuse mv h t r lt lr :
  holds h t lt -> holds h r lr ->
  apart (Get (data_ t)) (Get (data_ r)) ->
  size_ r < size_ t \/ capacity_ r <= capacity_ t ->
  exists q h',
    std_copy mv (Get (data_ r)) (Get (data_ r) +ₚ size_ r) (Get (data_ t)) h =
      Ret (q, h') /\
    holds h' (with_size t (size_ r)) lr /\
    holds h' (with_size r 0) [] /\
    (mv = false -> holds h' r lr) /\
    (forall buf buf',
       buffer h t = Some buf -> buffer h' t = Some buf' ->
       drop (length lr) buf' = drop (length lr) buf).
Proof.
  intros Ht Hr Hap Hcond.
  destruct (holds_array h t lt Ht) as (tbuf & Hta & Htcap & Htmod & Htsz & Httake & Htle).
  destruct (holds_array h r lr Hr) as (rbuf & Hra & Hrcap & Hrmod & Hrsz & Hrtake & Hrle).
  assert (Hfit : (length lr <= length tbuf)%nat) by lia.
  rewrite Hrsz.
  set (rbuf' := wipe mv rbuf 0 (length lr)).
  set (tbuf' := take (length lr) rbuf ++ drop (length lr) tbuf).
  assert (Hrlen : length rbuf' = length rbuf) by (apply wipe_length; lia).
  assert (Htlen : length tbuf' = length tbuf).
  { unfold tbuf'. rewrite length_app, length_take, length_drop. lia. }
  set (h1 := set_array h (Get (data_ r)) rbuf').
  set (h' := set_array h1 (Get (data_ t)) tbuf').
  assert (Hra1 : array_at h1 (Get (data_ r)) rbuf').
  { eapply array_at_set_same; eauto. }
  assert (Hta1 : array_at h1 (Get (data_ t)) tbuf).
  { apply array_at_set_other; [apply apart_sym; exact Hap|exact Hta]. }
  assert (Hta' : array_at h' (Get (data_ t)) tbuf').
  { eapply array_at_set_same; eauto. }
  assert (Hra' : array_at h' (Get (data_ r)) rbuf').
  { apply array_at_set_other; [exact Hap|exact Hra1]. }
  exists (Get (data_ t) +ₚ Z.of_nat (length lr)), h'.
  split; [|split; [|split; [|split]]].
  - apply std_copy_prefix; try assumption. apply apart_sym. exact Hap.
  - apply (array_holds h' _ lr tbuf'); simpl; try assumption; try lia.
    unfold tbuf'. rewrite take_app_le by (rewrite length_take; lia).
    rewrite take_take, Nat.min_id. exact Hrtake.
  - apply (array_holds h' _ [] rbuf'); simpl; try assumption; try lia.
    reflexivity.
  - intros ->. apply (array_holds h' _ lr rbuf); try assumption.
  - intros buf buf' Hbuf Hbuf'.
    apply buffer_array_at in Hbuf, Hbuf'.
    assert (buf = tbuf) as ->.
    { destruct (Get (data_ t)); simpl in *; [congruence|].
      destruct Hbuf as [_ Hbuf], Hta as [_ Hta]. congruence. }
    assert (buf' = tbuf') as ->.
    { destruct (Get (data_ t)); simpl in Hbuf', Hta'; [congruence|].
      destruct Hbuf' as [_ Hbuf'], Hta' as [_ Hta']. congruence. }
    unfold tbuf'. rewrite drop_app_length'; [reflexivity|].
    rewrite length_take. lia.
Qed.

(** The branch of both assignments that replaces the destination's array. *)
Lemma assign_realloc mv {A} (k : SimpleVector -> M A) h t r lt lr :
  holds h t lt -> holds h r lr ->
  apart (Get (data_ t)) (Get (data_ r)) ->
  capacity_ t < capacity_ r -> capacity_ r <= alloc_limit ->
  exists h',
    (let* (tmp, t1) := Realloc (capacity_ r) t in
     ArrayPtr_destroy tmp ;;
     std_copy mv (Get (data_ r)) (Get (data_ r) +ₚ size_ r) (Get (data_ t1)) ;;
     k t1) h =
      k {| data_ := {| raw_ptr_ := Ptr (length h) 0 |};
           size_ := size_ t; capacity_ := capacity_ r |} h' /\
    holds h' {| data_ := {| raw_ptr_ := Ptr (length h) 0 |};
                size_ := size_ r; capacity_ := capacity_ r |} lr /\
    holds h' (with_size r 0) [] /\
    (mv = false -> holds h' r lr).
Proof.
  intros Ht Hr Hap Hlt Hlim.
  destruct (holds_array h t lt Ht) as (tbuf & Hta & Htcap & Htmod & Htsz & Httake & Htle).
  destruct (holds_array h r lr Hr) as (rbuf & Hra & Hrcap & Hrmod & Hrsz & Hrtake & Hrle).
  assert (Hc : (if capacity_ r =? 0 then 1 else capacity_ r) = capacity_ r).
  { destruct (Z.eqb_spec (capacity_ r) 0); lia. }
  set (fresh := replicate (Z.to_nat (capacity_ r)) (@None T)).
  set (np := Ptr (length h) 0).
  set (h1 := h ++ [Some fresh]).
  set (h2 := free_array h1 (Get (data_ t))).
  set (rbuf' := wipe mv rbuf 0 (length lr)).
  set (nbuf := take (length lr) rbuf ++ drop (length lr) fresh).
  set (h3 := set_array h2 (Get (data_ r)) rbuf').
  set (h' := set_array h3 np nbuf).
  assert (Hflen : length fresh = Z.to_nat (capacity_ r)) by apply length_replicate.
  assert (Hrlen : length rbuf' = length rbuf) by (apply wipe_length; lia).
  assert (Hnlen : length nbuf = length fresh).
  { unfold nbuf. rewrite length_app, length_take, length_drop. lia. }
  assert (Hta1 : array_at h1 (Get (data_ t)) tbuf) by (apply array_at_app; exact Hta).
  assert (Hra1 : array_at h1 (Get (data_ r)) rbuf) by (apply array_at_app; exact Hra).
  assert (Hna1 : array_at h1 np fresh).
  { split; [reflexivity|]. apply block_of_fresh. }
  assert (Hra2 : array_at h2 (Get (data_ r)) rbuf).
  { apply array_at_free_other; assumption. }
  assert (Hna2 : array_at h2 np fresh).
  { apply array_at_free_other; [|exact Hna1].
    eapply array_at_apart_fresh. exact Hta. }
  assert (Hapn : apart (Get (data_ r)) np).
  { eapply array_at_apart_fresh. exact Hra. }
  assert (Hra3 : array_at h3 (Get (data_ r)) rbuf').
  { eapply array_at_set_same; eauto. }
  assert (Hna3 : array_at h3 np fresh).
  { apply array_at_set_other; assumption. }
  assert (Hna' : array_at h' np nbuf).
  { eapply array_at_set_same; eauto. }
  assert (Hra' : array_at h' (Get (data_ r)) rbuf').
  { apply array_at_set_other; [apply apart_sym; exact Hapn|exact Hra3]. }
  exists h'. split; [|split; [|split]].
  - erewrite bind_Ret by (apply Realloc_ok; lia).
    cbv beta iota. rewrite Hc. fold fresh. fold h1.
    erewrite bind_Ret by (eapply ArrayPtr_destroy_free; exact Hta1).
    fold h2. rewrite Hrsz.
    erewrite bind_Ret by (apply std_copy_prefix; [exact Hra2|exact Hna2|exact Hapn|lia|lia]).
    reflexivity.
  - apply (array_holds h' _ lr nbuf); simpl; try assumption; try lia.
    unfold nbuf. rewrite take_app_le by (rewrite length_take; lia).
    rewrite take_take, Nat.min_id. exact Hrtake.
  - apply (array_holds h' _ [] rbuf'); simpl; try assumption; try lia.
    reflexivity.
  - intros ->. apply (array_holds h' _ lr rbuf); try assumption.
Qed.

(** C4: copy assignment between two different vector objects keeps the
    destination's array exactly when the destination's size exceeds the
    source's size or its capacity is at least the source's capacity: capacity
    and array stay, the first [source.size] slots are overwritten and the
    slots behind them are left alone.  Otherwise the destination gets a
    freshly allocated array of exactly the source's capacity.  Either way
    the destination then holds the source's elements in order, and the
    source still holds them.  Assigning a vector to itself changes
    nothing. *)
Theorem assign_copy_spec objs h this rhs t r lt lr :
  objs !! this = Some t -> objs !! rhs = Some r ->
  holds h t lt -> holds h r lr ->
  apart (Get (data_ t)) (Get (data_ r)) ->
  capacity_ r <= alloc_limit ->
  assign_copy this this objs h = Ret (objs, h) /\
  (this <> rhs ->
   exists h' t',
     assign_copy this rhs objs h = Ret (<[this := t']> objs, h') /\
     holds h' t' lr /\ holds h' r lr /\
     if (size_ t >? size_ r) || (capacity_ t >=? capacity_ r)
     then data_ t' = data_ t /\ capacity_ t' = capacity_ t /\
          (forall buf buf',
             buffer h t = Some buf -> buffer h' t' = Some buf' ->
             drop (length lr) buf' = drop (length lr) buf)
     else Get (data_ t') = Ptr (length h) 0 /\ capacity_ t' = capacity_ r).
Proof.
  intros Hthis Hrhs Ht Hr Hap Hlim. split.
  - unfold assign_copy. rewrite Nat.eqb_refl. reflexivity.
  - intros Hne. unfold assign_copy.
    destruct (Nat.eqb_spec this rhs) as [|_]; [contradiction|].
    change (negb false) with true. cbv iota.
    unfold object_at. rewrite Hthis, Hrhs.
    unfold bind at 1, ret at 1. unfold bind at 1, ret at 1.
    destruct ((size_ t >? size_ r) || (capacity_ t >=? capacity_ r)) eqn:Hcond.
    + assert (Hc : size_ r < size_ t \/ capacity_ r <= capacity_ t).
      { apply orb_true_iff in Hcond. destruct Hcond as [H|H]; [left|right]; lia. }
      destruct (assign_reuse false h t r lt lr Ht Hr Hap Hc)
        as (q & h' & Hrun & Ht' & _ & Hr' & Hrest).
      exists h', (with_size t (size_ r)).
      split; [|split; [exact Ht'|split; [exact (Hr' eq_refl)|]]].
      * erewrite bind_Ret by exact Hrun. reflexivity.
      * split; [reflexivity|]. split; [reflexivity|]. exact Hrest.
    + assert (Hc : capacity_ t < capacity_ r).
      { apply orb_false_iff in Hcond. lia. }
      destruct (assign_realloc false
                  (fun t1 => ret (<[this := with_size t1 (size_ r)]> objs))
                  h t r lt lr Ht Hr Hap Hc Hlim)
        as (h' & Hrun & Ht' & _ & Hr').
      exists h', {| data_ := {| raw_ptr_ := Ptr (length h) 0 |};
                    size_ := size_ r; capacity_ := capacity_ r |}.
      split; [|split; [exact Ht'|split; [exact (Hr' eq_refl)|]]].
      * exact Hrun.
      * split; reflexivity.
Qed.

(** C10: move assignment between two different vector objects leaves the
    source with size 0 and with the capacity and the array it had, on the
    path that keeps the destination's array and on the path that replaces
    it: the elements are moved one by one into an array of the destination
    that is not the source's.  Move construction instead hands the source's
    array over and leaves the source with size 0, capacity 0 and no
    array. *)
Theorem assign_move_source objs h this rhs t r lt lr :
  objs !! this = Some t -> objs !! rhs = Some r ->
  holds h t lt -> holds h r lr ->
  apart (Get (data_ t)) (Get (data_ r)) ->
  capacity_ r <= alloc_limit ->
  this <> rhs ->
  (exists h' t' r',
     assign_move this rhs objs h = Ret (<[rhs := r']> (<[this := t']> objs), h') /\
     size_ r' = 0 /\ capacity_ r' = capacity_ r /\ data_ r' = data_ r /\
     holds h' r' [] /\ holds h' t' lr /\
     apart (Get (data_ t')) (Get (data_ r')) /\
     if (size_ t >? size_ r) || (capacity_ t >=? capacity_ r)
     then data_ t' = data_ t /\ capacity_ t' = capacity_ t
     else Get (data_ t') = Ptr (length h) 0 /\ capacity_ t' = capacity_ r) /\
  (let '(new, r') := SimpleVector_move r in
   Get (data_ new) = Get (data_ r) /\
   size_ new = size_ r /\ capacity_ new = capacity_ r /\
   size_ r' = 0 /\ capacity_ r' = 0 /\ Get (data_ r') = nullptr).
Proof.
  intros Hthis Hrhs Ht Hr Hap Hlim Hne. split; [|simpl; repeat split; reflexivity].
  unfold assign_move.
  destruct (Nat.eqb_spec this rhs) as [|_]; [contradiction|].
  change (negb false) with true. cbv iota.
  unfold object_at. rewrite Hthis, Hrhs.
  unfold bind at 1, ret at 1. unfold bind at 1, ret at 1.
  destruct ((size_ t >? size_ r) || (capacity_ t >=? capacity_ r)) eqn:Hcond.
  - assert (Hc : size_ r < size_ t \/ capacity_ r <= capacity_ t).
    { apply orb_true_iff in Hcond. destruct Hcond as [H|H]; [left|right]; lia. }
    destruct (assign_reuse true h t r lt lr Ht Hr Hap Hc)
      as (q & h' & Hrun & Ht' & Hr' & _ & _).
    exists h', (with_size t (size_ r)), (with_size r 0).
    split; [erewrite bind_Ret by exact Hrun; reflexivity|].
    repeat split; try assumption.
  - assert (Hc : capacity_ t < capacity_ r).
    { apply orb_false_iff in Hcond. lia. }
    destruct (assign_realloc true
                (fun t1 => ret (<[rhs := with_size r 0]>
                                  (<[this := with_size t1 (size_ r)]> objs)))
                h t r lt lr Ht Hr Hap Hc Hlim)
      as (h' & Hrun & Ht' & Hr' & _).
    exists h', {| data_ := {| raw_ptr_ := Ptr (length h) 0 |};
                  size_ := size_ r; capacity_ := capacity_ r |}, (with_size r 0).
    split; [exact Hrun|].
    repeat split; try assumption.
    change (apart (Ptr (length h) 0) (Get (data_ r))). apply apart_sym.
    destruct (holds_array h r lr Hr) as (rbuf & Hra & _).
    eapply array_at_apart_fresh. exact Hra.
Qed.

(** [swap]: the two objects trade places, also when they are the same
    object. *)
Lemma swap_exchanges objs h this other t o :
  objs !! this = Some t -> objs !! other = Some o ->
  swap this other objs h = Ret (<[other := t]> (<[this := o]> objs), h) /\
  <[other := t]> (<[this := o]> objs) !! other = Some t /\
  (this <> other -> <[other := t]> (<[this := o]> objs) !! this = Some o).
Proof.
  intros Ht Ho. split; [|split].
  - unfold swap, object_at. rewrite Ht, Ho. reflexivity.
  - apply list_lookup_insert_eq. rewrite length_insert.
    eapply lookup_lt_Some; eauto.
  - intros Hne. rewrite list_lookup_insert_ne by congruence.
    apply list_lookup_insert_eq. eapply lookup_lt_Some; eauto.
Qed.

(** ** Building vectors *)

(** Writing through [operator[]] below [size_]. *)
Lemma subscript_store h this l (i : nat) x :
  holds h this l -> (i < length l)%nat ->
  exists h',
    store (subscript (Z.of_nat i) this) (Some x) h = Ret (tt, h') /\
    holds h' this (<[i := x]> l) /\
    load_value (subscript (Z.of_nat i) this) h' = Ret (x, h') /\
    (forall other lo,
       holds h other lo -> apart (Get (data_ this)) (Get (data_ other)) ->
       holds h' other lo).
Proof.
  intros Hholds Hi.
  destruct (holds_size _ _ _ Hholds) as [Hsz Hlecap].
  destruct (holds_nonempty h this l Hholds) as (b & buf & Hp & Hb & Hcap & Htake & Hle);
    [lia|].
  destruct (holds_array h this l Hholds) as (_ & _ & _ & Hmod & _).
  unfold subscript, ArrayPtr_index.
  change (raw_ptr_ (data_ this)) with (Get (data_ this)). rewrite Hp.
  simpl ptr_add. replace (0 + Z.of_nat i) with (Z.of_nat i) by lia.
  pose proof (block_of_lt _ _ _ Hb) as Hblt.
  exists (<[b := Some (<[i := Some x]> buf)]> h).
  split; [apply store_at; [exact Hb|lia]|]. split; [|split].
  - apply (array_holds _ _ _ (<[i := Some x]> buf)).
    + rewrite Hp. split; [reflexivity|]. apply block_of_insert. exact Hblt.
    + rewrite length_insert. exact Hcap.
    + exact Hmod.
    + rewrite length_insert. exact Hsz.
    + rewrite length_insert, take_insert_lt by exact Hi.
      rewrite Htake, list_fmap_insert. reflexivity.
  - unfold load_value.
    erewrite bind_Ret
      by (eapply load_at;
          [apply block_of_insert; exact Hblt
          |apply list_lookup_insert_eq; lia]).
    reflexivity.
  - intros other lo Ho Hap.
    destruct (holds_array h other lo Ho) as (obuf & Hoa & Hocap & Homod & Hosz & Hotake & _).
    apply (array_holds _ _ _ obuf); try assumption.
    apply (array_at_set_other h (Ptr b 0) _ (<[i := Some x]> buf) obuf Hap Hoa).
Qed.

(** X1: [SimpleVector(std::initializer_list<Type>)] builds a vector whose
    elements are those of the list, in order, with size and capacity both
    the length of the list.  Every vector that existed before keeps its
    elements.  The empty list gives the default vector and allocates
    nothing; a list longer than the allocator grants makes the constructor
    throw [std::bad_alloc]. *)
Theorem SimpleVector_init_builds init h :
  0 <= alloc_limit < size_t_modulus ->
  (Z.of_nat (length init) <= alloc_limit ->
   exists h' this,
     SimpleVector_init init h = Ret (this, h') /\
     holds h' this init /\
     GetSize this = Z.of_nat (length init) /\
     GetCapacity this = Z.of_nat (length init) /\
     (forall other l, holds h other l -> holds h' other l)) /\
  (init = [] -> SimpleVector_init init h = Ret (SimpleVector_default, h)) /\
  (alloc_limit < Z.of_nat (length init) ->
   SimpleVector_init init h = Throw bad_alloc).
Proof.
  intros Hlim. split; [|split].
  - intros Hlen.
    destruct (SimpleVector_init_holds init h Hlen (proj2 Hlim))
      as (h' & this & Hrun & Hholds & Hsz & Hcap & Hext & _).
    exists h', this. split; [exact Hrun|]. split; [exact Hholds|].
    split; [exact Hsz|]. split; [exact Hcap|].
    intros other l. apply holds_extends. exact Hext.
  - intros ->. reflexivity.
  - intros Hbig. unfold SimpleVector_init, ArrayPtr_sized.
    destruct (Z.eqb_spec (Z.of_nat (length init)) 0) as [H0|_]; [lia|].
    unfold bind at 1. unfold bind at 1. unfold new_array.
    destruct (Z.ltb_spec alloc_limit (Z.of_nat (length init))); [reflexivity|lia].
Qed.

(** X2: [SimpleVector(size, value)] builds [size] copies of [value] with
    capacity [size], and [SimpleVector(size)] is the same constructor with
    [Type{}] for the value.  Every vector that existed before keeps its
    elements, size 0 allocates nothing, and a size beyond what the allocator
    grants makes the constructor throw [std::bad_alloc]. *)
Theorem SimpleVector_filled_builds size value h :
  0 <= size -> 0 <= alloc_limit < size_t_modulus ->
  (size <= alloc_limit ->
   exists h' this,
     SimpleVector_filled size value h = Ret (this, h') /\
     holds h' this (replicate (Z.to_nat size) value) /\
     GetSize this = size /\ GetCapacity this = size /\
     (forall other l, holds h other l -> holds h' other l) /\
     (size = 0 -> h' = h)) /\
  SimpleVector_sized size h = SimpleVector_filled size Type_default h /\
  (alloc_limit < size -> SimpleVector_filled size value h = Throw bad_alloc).
Proof.
  intros Hpos Hlim. split; [|split].
  - intros Hle.
    destruct (SimpleVector_filled_holds size value h (conj Hpos Hle) (proj2 Hlim))
      as (h' & this & Hrun & _ & Hholds & Hsz & Hcap & Hext & H0).
    exists h', this. split; [exact Hrun|]. split; [exact Hholds|].
    split; [exact Hsz|]. split; [exact Hcap|]. split; [|exact H0].
    intros other l. apply holds_extends. exact Hext.
  - reflexivity.
  - intros Hbig. unfold SimpleVector_filled, ArrayPtr_sized.
    destruct (Z.eqb_spec size 0) as [H0|_]; [lia|].
    unfold bind at 1. unfold bind at 1. unfold new_array.
    destruct (Z.ltb_spec alloc_limit size); [reflexivity|lia].
Qed.

(** X3: [SimpleVector(Reserve(n))] builds an empty vector of capacity [n]
    and leaves the vectors that existed before as they were; the first
    [PushBack] on it, of an object outside the arrays, when [n > 0], writes
    into the reserved array without allocating.  [Reserve(0)] gives the
    default vector. *)
Theorem SimpleVector_reserved_builds n item h :
  0 <= n <= alloc_limit -> alloc_limit < size_t_modulus ->
  exists h' this,
    SimpleVector_reserved (Reserve_proxy n) h = Ret (this, h') /\
    holds h' this [] /\ IsEmpty this = true /\ GetCapacity this = n /\
    (forall other l, holds h other l -> holds h' other l) /\
    (n = 0 -> this = SimpleVector_default /\ h' = h) /\
    (0 < n ->
     exists h'',
       PushBack_copy (ref_object item) this h' = Ret (with_size this 1, h'') /\
       PushBack_move (ref_object item) this h' = Ret (with_size this 1, h'') /\
       holds h'' (with_size this 1) [item] /\
       length h'' = length h').
Proof.
  intros Hn Hlim.
  destruct (SimpleVector_reserved_holds n h Hn Hlim)
    as (h' & this & Hrun & Hholds & Hsz & Hcap & Hext & H0).
  exists h', this. split; [exact Hrun|]. split; [exact Hholds|].
  split; [unfold IsEmpty; rewrite Hsz; reflexivity|]. split; [exact Hcap|].
  split; [intros other l; apply holds_extends; exact Hext|]. split.
  - intros ->. split; [|apply H0; reflexivity].
    revert Hrun. unfold SimpleVector_reserved, Reserve_proxy. simpl.
    intros Hrun. injection Hrun as <- _. reflexivity.
  - intros Hpos.
    assert (Hlt : size_ this < capacity_ this) by lia.
    destruct (push_in_place h' this [] item Hholds Hlt) as (h'' & Hpush & Hres).
    rewrite Hsz in Hpush, Hres. simpl Z.add in Hpush, Hres.
    exists h''.
    assert (Hif : (size_ this <? capacity_ this) = true) by (apply Z.ltb_lt; lia).
    split; [|split; [|split]].
    + unfold PushBack_copy. rewrite Hif, Hsz. exact Hpush.
    + unfold PushBack_move. rewrite Hif, Hsz. exact Hpush.
    + exact Hres.
    + revert Hpush. unfold bind, store, ArrayPtr_index.
      destruct (raw_ptr_ (data_ this) +ₚ 0) as [|b off]; [discriminate|].
      destruct (block_of h' b) as [buf|]; [|discriminate].
      destruct ((0 <=? off) && (off <? Z.of_nat (length buf))); [|discriminate].
      unfold ret. intros Heq. injection Heq as <-. apply length_insert.
Qed.

(** ** Element access *)

(** X5: [operator[]] does no checking.  Below [size_] the reference it
    returns can be assigned: the vector then holds the same elements with
    element [index] replaced, reading the reference gives the new value, and
    vectors with other arrays are untouched.  At [capacity_] or beyond, the
    reference is outside the array and both reading and writing through it
    are undefined behaviour, where [At] throws. *)
Theorem subscript_assign h this l index x :
  holds h this l -> 0 <= index ->
  (index < size_ this ->
   exists h',
     store (subscript index this) (Some x) h = Ret (tt, h') /\
     holds h' this (<[Z.to_nat index := x]> l) /\
     load_value (subscript index this) h' = Ret (x, h') /\
     (forall other lo,
        holds h other lo -> apart (Get (data_ this)) (Get (data_ other)) ->
        holds h' other lo)) /\
  (capacity_ this <= index ->
   store (subscript index this) (Some x) h = Undefined /\
   load_value (subscript index this) h = Undefined /\
   exists what, At index this = Throw (out_of_range what)).
Proof.
  intros Hholds Hpos. split.
  - intros Hlt.
    destruct (holds_size _ _ _ Hholds) as [Hsz _].
    destruct (subscript_store h this l (Z.to_nat index) x Hholds) as (h' & Hrun);
      [lia|].
    rewrite Z2Nat.id in Hrun by exact Hpos. exists h'. exact Hrun.
  - intros Hge.
    destruct (holds_size _ _ _ Hholds) as [Hsz Hlecap].
    destruct (holds_array h this l Hholds) as (buf & Ha & Hcap & _).
    unfold subscript, ArrayPtr_index, load_value, At.
    change (raw_ptr_ (data_ this)) with (Get (data_ this)).
    split; [|split].
    + destruct (Get (data_ this)) as [|b off]; [reflexivity|].
      destruct Ha as [-> Hb]. simpl. rewrite Hb.
      destruct (Z.ltb_spec (0 + index) (Z.of_nat (length buf))); [lia|].
      rewrite andb_false_r. reflexivity.
    + unfold bind.
      destruct (Get (data_ this)) as [|b off]; [reflexivity|].
      destruct Ha as [-> Hb]. simpl. rewrite Hb.
      destruct (0 <=? 0 + index); [|reflexivity].
      rewrite lookup_ge_None_2 by lia. reflexivity.
    + destruct (Z.geb_spec index (size_ this)); [|lia]. eexists. reflexivity.
Qed.

(** ** What a computation leaves alone *)

Lemma bind_Ret_inv {A B} (m : M A) (k : A -> M B) h b h' :
  bind m k h = Ret (b, h') ->
  exists a h1, m h = Ret (a, h1) /\ k a h1 = Ret (b, h').
Proof.
  unfold bind. destruct (m h) as [[a h1]| |]; [|discriminate..].
  intros H. exists a, h1. split; [reflexivity|exact H].
Qed.

Lemma bind_lift_inv {A B} (o : outcome A) (k : A -> M B) h b h' :
  bind (lift o) k h = Ret (b, h') -> exists a, o = Ret a /\ k a h = Ret (b, h').
Proof.
  unfold bind, lift. destruct o as [a| |]; [|discriminate..].
  intros H. exists a. split; [reflexivity|exact H].
Qed.

Lemma ret_inv {A} (a b : A) h h' : ret a h = Ret (b, h') -> b = a /\ h' = h.
Proof. unfold ret. intros H. injection H as <- <-. split; reflexivity. Qed.

Lemma apart_ptr_add p k q : apart p q -> apart (p +ₚ k) q.
Proof. destruct p; intros H; exact H. Qed.

Lemma keeps_refl p h : keeps p h h.
Proof. split; [lia|]. intros; reflexivity. Qed.

Lemma load_inv p h s h' : load p h = Ret (s, h') -> h' = h.
Proof.
  unfold load. destruct p as [|b off]; [discriminate|].
  destruct (block_of h b) as [buf|]; [|discriminate].
  destruct (0 <=? off); [|discriminate].
  destruct (buf !! Z.to_nat off); [|discriminate].
  intros H. injection H as _ <-. reflexivity.
Qed.

Lemma store_keeps p s h u h' :
  store p s h = Ret (u, h') ->
  length h' = length h /\
  forall b, apart p (Ptr b 0) -> h' !! b = h !! b.
Proof.
  unfold store. destruct p as [|b0 off]; [discriminate|].
  destruct (block_of h b0) as [buf|]; [|discriminate].
  destruct ((0 <=? off) && (off <? Z.of_nat (length buf))); [|discriminate].
  intros H. injection H as _ <-. split; [apply length_insert|].
  intros b Hb. apply list_lookup_insert_ne. exact Hb.
Qed.

Lemma assign_through_keeps mv dst src h u h' :
  assign_through mv dst src h = Ret (u, h') ->
  length h' = length h /\
  forall b, apart dst (Ptr b 0) -> apart src (Ptr b 0) -> h' !! b = h !! b.
Proof.
  unfold assign_through. intros H.
  apply bind_Ret_inv in H as (s & h1 & Hload & H). apply load_inv in Hload as ->.
  apply bind_Ret_inv in H as (u1 & h2 & Hst & H).
  apply store_keeps in Hst as [Hlen2 Hk2].
  destruct mv.
  - apply store_keeps in H as [Hlen3 Hk3]. split; [lia|].
    intros b Hd Hs. rewrite Hk3, Hk2 by assumption. reflexivity.
  - apply ret_inv in H as [_ ->]. split; [exact Hlen2|].
    intros b Hd _. apply Hk2. exact Hd.
Qed.

Lemma copy_loop_keeps mv n first d_first h r h' :
  copy_loop mv n first d_first h = Ret (r, h') ->
  length h' = length h /\
  forall b, apart first (Ptr b 0) -> apart d_first (Ptr b 0) -> h' !! b = h !! b.
Proof.
  revert first d_first h. induction n as [|n IH]; intros first d_first h H; simpl in H.
  - apply ret_inv in H as [_ ->]. split; [reflexivity|]. intros; reflexivity.
  - apply bind_Ret_inv in H as (u & h1 & Ha & H).
    apply assign_through_keeps in Ha as [Hlen1 Hk1].
    apply IH in H as [Hlen2 Hk2]. split; [lia|].
    intros b Hf Hd. rewrite Hk2 by (apply apart_ptr_add; assumption).
    apply Hk1; assumption.
Qed.

Lemma copy_backward_loop_keeps mv n last d_last h r h' :
  copy_backward_loop mv n last d_last h = Ret (r, h') ->
  length h' = length h /\
  forall b, apart last (Ptr b 0) -> apart d_last (Ptr b 0) -> h' !! b = h !! b.
Proof.
  revert last d_last h. induction n as [|n IH]; intros last d_last h H; simpl in H.
  - apply ret_inv in H as [_ ->]. split; [reflexivity|]. intros; reflexivity.
  - apply bind_Ret_inv in H as (u & h1 & Ha & H).
    apply assign_through_keeps in Ha as [Hlen1 Hk1].
    apply IH in H as [Hlen2 Hk2]. split; [lia|].
    intros b Hf Hd. rewrite Hk2 by (apply apart_ptr_add; assumption).
    apply Hk1; apply apart_ptr_add; assumption.
Qed.

Lemma fill_loop_keeps n first value h u h' :
  fill_loop n first value h = Ret (u, h') ->
  length h' = length h /\
  forall b, apart first (Ptr b 0) -> h' !! b = h !! b.
Proof.
  revert first h. induction n as [|n IH]; intros first h H; simpl in H.
  - apply ret_inv in H as [_ ->]. split; [reflexivity|]. intros; reflexivity.
  - apply bind_Ret_inv in H as (u1 & h1 & Hst & H).
    apply store_keeps in Hst as [Hlen1 Hk1].
    apply IH in H as [Hlen2 Hk2]. split; [lia|].
    intros b Hf. rewrite Hk2 by (apply apart_ptr_add; assumption).
    apply Hk1; assumption.
Qed.

Lemma std_copy_keeps mv first last d_first h r h' :
  std_copy mv first last d_first h = Ret (r, h') ->
  length h' = length h /\
  forall b, apart first (Ptr b 0) -> apart d_first (Ptr b 0) -> h' !! b = h !! b.
Proof.
  unfold std_copy. intros H. apply bind_lift_inv in H as (n & _ & H).
  destruct (n <? 0); [discriminate|]. eapply copy_loop_keeps. exact H.
Qed.

Lemma ptr_diff_apart p q n b :
  ptr_diff p q = Ret n -> apart q (Ptr b 0) -> apart p (Ptr b 0).
Proof.
  destruct p as [|b1 o1], q as [|b2 o2]; simpl; try discriminate; try (intros; exact I).
  destruct (Nat.eqb_spec b1 b2) as [->|]; [|discriminate]. intros _ H. exact H.
Qed.

Lemma std_copy_backward_keeps mv first last d_last h r h' :
  std_copy_backward mv first last d_last h = Ret (r, h') ->
  length h' = length h /\
  forall b, apart first (Ptr b 0) -> apart d_last (Ptr b 0) -> h' !! b = h !! b.
Proof.
  unfold std_copy_backward. intros H. apply bind_lift_inv in H as (n & Hdiff & H).
  destruct (n <? 0); [discriminate|].
  apply copy_backward_loop_keeps in H as [Hlen Hk]. split; [exact Hlen|].
  intros b Hf Hd. apply Hk; [|exact Hd]. eapply ptr_diff_apart; eassumption.
Qed.

Lemma std_fill_keeps first last value h u h' :
  std_fill first last value h = Ret (u, h') ->
  length h' = length h /\
  forall b, apart first (Ptr b 0) -> h' !! b = h !! b.
Proof.
  unfold std_fill. intros H. apply bind_lift_inv in H as (n & _ & H).
  destruct (n <? 0); [discriminate|]. eapply fill_loop_keeps. exact H.
Qed.

Lemma ArrayPtr_destroy_keeps a h u h' :
  ArrayPtr_destroy a h = Ret (u, h') ->
  length h' = length h /\
  forall b, apart (Get a) (Ptr b 0) -> h' !! b = h !! b.
Proof.
  unfold ArrayPtr_destroy, delete_array, Get.
  destruct (raw_ptr_ a) as [|b0 off].
  - intros H. injection H as _ <-. split; [reflexivity|]. intros; reflexivity.
  - destruct (block_of h b0); [|discriminate].
    destruct (off =? 0); [|discriminate].
    intros H. injection H as _ <-. split; [apply length_insert|].
    intros b Hb. apply list_lookup_insert_ne. exact Hb.
Qed.

Lemma Realloc_inv new_capacity this h tmp this1 h1 :
  Realloc new_capacity this h = Ret ((tmp, this1), h1) ->
  tmp = data_ this /\ size_ this1 = size_ this /\
  Get (data_ this1) = Ptr (length h) 0 /\
  exists fresh, h1 = h ++ [Some fresh].
Proof.
  unfold Realloc, ArrayPtr_sized.
  set (c := if new_capacity =? 0 then 1 else new_capacity).
  assert (Hc : (c =? 0) = false).
  { unfold c. destruct (Z.eqb_spec new_capacity 0); [reflexivity|].
    apply Z.eqb_neq. assumption. }
  rewrite Hc. unfold bind, new_array, ret. simpl.
  destruct (alloc_limit <? c); [discriminate|].
  intros H. injection H as <- <- <-.
  split; [reflexivity|]. split; [reflexivity|]. split; [reflexivity|].
  eexists. reflexivity.
Qed.

Lemma assign_from_keeps mv dst item h u h' :
  assign_from mv dst item h = Ret (u, h') ->
  length h' = length h /\
  forall b, apart dst (Ptr b 0) -> ref_apart item (Ptr b 0) -> h' !! b = h !! b.
Proof.
  destruct item as [x|src]; simpl; intros H.
  - apply store_keeps in H as [Hlen Hk]. split; [exact Hlen|].
    intros b Hd _. apply Hk. exact Hd.
  - apply assign_through_keeps in H. exact H.
Qed.

(** The shape shared by the growing branches: a fresh array, then steps that
    write to it and to the old array only. *)
Lemma keeps_grow this h fresh h' :
  (length (h ++ [Some fresh]) <= length h')%nat ->
  (forall b, apart (Get (data_ this)) (Ptr b 0) -> apart (Ptr (length h) 0) (Ptr b 0) ->
             h' !! b = (h ++ [Some fresh]) !! b) ->
  keeps (Get (data_ this)) h h'.
Proof.
  intros Hlen Hk. rewrite length_app in Hlen. simpl in Hlen. split; [lia|].
  intros b Hb Hap. rewrite Hk; [apply lookup_app_l; exact Hb|exact Hap|].
  simpl. lia.
Qed.

(** The same where the steps may write to the argument as well. *)
Lemma keeps_but_grow this item h fresh h' :
  (length (h ++ [Some fresh]) <= length h')%nat ->
  (forall b, apart (Get (data_ this)) (Ptr b 0) -> apart (Ptr (length h) 0) (Ptr b 0) ->
             ref_apart item (Ptr b 0) ->
             h' !! b = (h ++ [Some fresh]) !! b) ->
  keeps_but (Get (data_ this)) item h h'.
Proof.
  intros Hlen Hk. rewrite length_app in Hlen. simpl in Hlen. split; [lia|].
  intros b Hb Hap Hit. rewrite Hk; [apply lookup_app_l; exact Hb|exact Hap| |exact Hit].
  simpl. lia.
Qed.

Lemma keeps_keeps_but p item h h' : keeps p h h' -> keeps_but p item h h'.
Proof. intros [Hlen Hk]. split; [exact Hlen|]. intros b Hb Hap _. apply Hk; assumption. Qed.

Lemma PushBack_keeps (mv : bool) item this h this' h' :
  (if mv then PushBack_move else PushBack_copy) item this h = Ret (this', h') ->
  keeps_but (Get (data_ this)) item h h'.
Proof.
  intros H.
  assert (H' : (if size_ this <? capacity_ this then
                  assign_from mv (ArrayPtr_index (data_ this) (size_ this)) item ;;
                  ret (with_size this (to_size_t (size_ this + 1)))
                else
                  let* (tmp, this) :=
                    Realloc (to_size_t (capacity_multiplier * capacity_ this)) this in
                  std_copy mv (Get tmp) (Get tmp +ₚ size_ this) (Get (data_ this)) ;;
                  assign_from mv (ArrayPtr_index (data_ this) (size_ this)) item ;;
                  let this := with_size this (to_size_t (size_ this + 1)) in
                  ArrayPtr_destroy tmp ;;
                  ret this) h = Ret (this', h')).
  { destruct mv; exact H. }
  clear H. destruct (size_ this <? capacity_ this).
  - apply bind_Ret_inv in H' as (u & h1 & Hst & H).
    apply ret_inv in H as [_ ->].
    apply assign_from_keeps in Hst as [Hlen Hk]. split; [lia|].
    intros b _ Hap Hit. apply Hk; [|exact Hit]. apply apart_ptr_add. exact Hap.
  - apply bind_Ret_inv in H' as ([tmp this1] & h1 & Hre & H).
    apply Realloc_inv in Hre as (-> & Hsz & Hnew & fresh & ->).
    apply bind_Ret_inv in H as (r & h2 & Hcp & H).
    apply std_copy_keeps in Hcp as [Hlen2 Hk2].
    apply bind_Ret_inv in H as (u & h3 & Hst & H).
    apply assign_from_keeps in Hst as [Hlen3 Hk3].
    cbv zeta in H. apply bind_Ret_inv in H as (u' & h4 & Hde & H).
    apply ArrayPtr_destroy_keeps in Hde as [Hlen4 Hk4].
    apply ret_inv in H as [_ ->].
    apply (keeps_but_grow this item h fresh); [lia|].
    intros b Hold Hnewb Hit. rewrite Hk4 by exact Hold.
    rewrite Hk3; [|unfold ArrayPtr_index; apply apart_ptr_add;
                    change (raw_ptr_ (data_ this1)) with (Get (data_ this1));
                    rewrite Hnew; exact Hnewb|exact Hit].
    apply Hk2; [exact Hold|rewrite Hnew; exact Hnewb].
Qed.

Lemma Insert_keeps (mv : bool) pos value this h r h' :
  (if mv then Insert_move else Insert_copy) pos value this h = Ret (r, h') ->
  keeps_but (Get (data_ this)) value h h'.
Proof.
  intros H.
  assert (H' : exists d_last : SimpleVector -> pointer,
             (forall v b, apart (Get (data_ v)) (Ptr b 0) -> apart (d_last v) (Ptr b 0)) /\
             (let* d := lift (ptr_diff pos (Get (data_ this))) in
              let dist := to_size_t d in
              if size_ this <? capacity_ this then
                std_copy_backward mv (Get (data_ this) +ₚ dist)
                  (Get (data_ this) +ₚ size_ this)
                  (Get (data_ this) +ₚ size_ this +ₚ 1) ;;
                assign_from mv (ArrayPtr_index (data_ this) dist) value ;;
                let this := with_size this (to_size_t (size_ this + 1)) in
                ret (Get (data_ this) +ₚ dist, this)
              else
                let* (tmp, this) :=
                  Realloc (to_size_t (capacity_multiplier * capacity_ this)) this in
                std_copy mv (Get tmp) (Get tmp +ₚ dist) (Get (data_ this)) ;;
                std_copy_backward mv (Get tmp +ₚ dist) (Get tmp +ₚ size_ this)
                  (d_last this) ;;
                assign_from mv (ArrayPtr_index (data_ this) dist) value ;;
                let this := with_size this (to_size_t (size_ this + 1)) in
                ArrayPtr_destroy tmp ;;
                ret (Get (data_ this) +ₚ dist, this)) h = Ret (r, h')).
  { destruct mv.
    - exists (fun v => Get (data_ v) +ₚ size_ v +ₚ 1).
      split; [intros v b Hv; repeat apply apart_ptr_add; exact Hv|exact H].
    - exists (fun v => Get (data_ v) +ₚ 1).
      split; [intros v b Hv; apply apart_ptr_add; exact Hv|exact H]. }
  clear H. destruct H' as (d_last & Hdl & H).
  apply bind_lift_inv in H as (d & Hd & H). cbv zeta in H.
  destruct (size_ this <? capacity_ this).
  - apply bind_Ret_inv in H as (q & h1 & Hcb & H).
    apply std_copy_backward_keeps in Hcb as [Hlen1 Hk1].
    apply bind_Ret_inv in H as (u & h2 & Hst & H).
    apply assign_from_keeps in Hst as [Hlen2 Hk2].
    apply ret_inv in H as [_ ->]. split; [lia|].
    intros b _ Hap Hit.
    rewrite Hk2; [|unfold ArrayPtr_index; apply apart_ptr_add; exact Hap|exact Hit].
    apply Hk1; repeat apply apart_ptr_add; exact Hap.
  - apply bind_Ret_inv in H as ([tmp this1] & h1 & Hre & H).
    apply Realloc_inv in Hre as (-> & Hsz & Hnew & fresh & ->).
    apply bind_Ret_inv in H as (q & h2 & Hcp & H).
    apply std_copy_keeps in Hcp as [Hlen2 Hk2].
    apply bind_Ret_inv in H as (q' & h3 & Hcb & H).
    apply std_copy_backward_keeps in Hcb as [Hlen3 Hk3].
    apply bind_Ret_inv in H as (u & h4 & Hst & H).
    apply assign_from_keeps in Hst as [Hlen4 Hk4].
    apply bind_Ret_inv in H as (u' & h5 & Hde & H).
    apply ArrayPtr_destroy_keeps in Hde as [Hlen5 Hk5].
    apply ret_inv in H as [_ ->].
    apply (keeps_but_grow this value h fresh); [lia|].
    intros b Hold Hnewb Hit. rewrite Hk5 by exact Hold.
    rewrite Hk4; [|unfold ArrayPtr_index; apply apart_ptr_add;
                    change (raw_ptr_ (data_ this1)) with (Get (data_ this1));
                    rewrite Hnew; exact Hnewb|exact Hit].
    rewrite Hk3; [|apply apart_ptr_add; exact Hold
                  |apply Hdl; rewrite Hnew; exact Hnewb].
    apply Hk2; [exact Hold|rewrite Hnew; exact Hnewb].
Qed.

Lemma Erase_keeps pos this h r h' :
  Erase pos this h = Ret (r, h') -> keeps (Get (data_ this)) h h'.
Proof.
  unfold Erase. intros H. destruct (size_ this >? 0).
  - apply bind_lift_inv in H as (d & Hd & H).
    apply bind_Ret_inv in H as (q & h1 & Hcp & H).
    apply std_copy_keeps in Hcp as [Hlen1 Hk1].
    apply ret_inv in H as [_ ->]. split; [lia|].
    intros b _ Hap. apply Hk1; repeat apply apart_ptr_add; exact Hap.
  - apply ret_inv in H as [_ ->]. apply keeps_refl.
Qed.

Lemma Resize_keeps new_size this h this' h' :
  Resize new_size this h = Ret (this', h') -> keeps (Get (data_ this)) h h'.
Proof.
  unfold Resize. intros H. destruct (new_size <=? size_ this).
  { apply ret_inv in H as [_ ->]. apply keeps_refl. }
  destruct (new_size <? capacity_ this).
  - apply bind_Ret_inv in H as (u & h1 & Hfl & H).
    apply std_fill_keeps in Hfl as [Hlen1 Hk1].
    apply ret_inv in H as [_ ->]. split; [lia|].
    intros b _ Hap. apply Hk1. apply apart_ptr_add. exact Hap.
  - apply bind_Ret_inv in H as ([tmp this1] & h1 & Hre & H).
    apply Realloc_inv in Hre as (-> & Hsz & Hnew & fresh & ->).
    apply bind_Ret_inv in H as (q & h2 & Hcp & H).
    apply std_copy_keeps in Hcp as [Hlen2 Hk2].
    apply bind_Ret_inv in H as (u & h3 & Hfl & H).
    apply std_fill_keeps in Hfl as [Hlen3 Hk3].
    apply bind_Ret_inv in H as (u' & h4 & Hde & H).
    apply ArrayPtr_destroy_keeps in Hde as [Hlen4 Hk4].
    apply ret_inv in H as [_ ->].
    apply (keeps_grow this h fresh); [lia|].
    intros b Hold Hnewb. rewrite Hk4 by exact Hold.
    rewrite Hk3 by (apply apart_ptr_add; rewrite Hnew; exact Hnewb).
    apply Hk2; [exact Hold|rewrite Hnew; exact Hnewb].
Qed.

Lemma Reserve_keeps new_capacity this h this' h' :
  Reserve new_capacity this h = Ret (this', h') -> keeps (Get (data_ this)) h h'.
Proof.
  unfold Reserve. intros H. destruct (capacity_ this <? new_capacity).
  - apply bind_Ret_inv in H as ([tmp this1] & h1 & Hre & H).
    apply Realloc_inv in Hre as (-> & Hsz & Hnew & fresh & ->).
    apply bind_Ret_inv in H as (q & h2 & Hcp & H).
    apply std_copy_keeps in Hcp as [Hlen2 Hk2].
    apply bind_Ret_inv in H as (u' & h4 & Hde & H).
    apply ArrayPtr_destroy_keeps in Hde as [Hlen4 Hk4].
    apply ret_inv in H as [_ ->].
    apply (keeps_grow this h fresh); [lia|].
    intros b Hold Hnewb. rewrite Hk4 by exact Hold.
    apply Hk2; [exact Hold|rewrite Hnew; exact Hnewb].
  - apply ret_inv in H as [_ ->]. apply keeps_refl.
Qed.

Lemma keeps_block_of p h h' b buf :
  keeps p h h' -> block_of h b = Some buf -> apart p (Ptr b 0) ->
  block_of h' b = Some buf.
Proof.
  intros [_ Hk] Hb Hap. pose proof (block_of_lt _ _ _ Hb) as Hlt.
  unfold block_of in *. rewrite Hk by assumption. exact Hb.
Qed.

Lemma keeps_but_block_of p item h h' b buf :
  keeps_but p item h h' -> block_of h b = Some buf -> apart p (Ptr b 0) ->
  ref_apart item (Ptr b 0) ->
  block_of h' b = Some buf.
Proof.
  intros [_ Hk] Hb Hap Hit. pose proof (block_of_lt _ _ _ Hb) as Hlt.
  unfold block_of in *. rewrite Hk by assumption. exact Hb.
Qed.

Lemma holds_keeps_but p item h h' other lo :
  keeps_but p item h h' -> holds h other lo -> apart p (Get (data_ other)) ->
  ref_apart item (Get (data_ other)) ->
  holds h' other lo.
Proof.
  intros Hk (buf & Hb & Hrest) Hap Hit. exists buf. split; [|exact Hrest].
  unfold buffer in *. destruct (Get (data_ other)) as [|b off]; [exact Hb|].
  destruct (off =? 0) eqn:Hoff; [|discriminate].
  eapply keeps_but_block_of; [exact Hk|exact Hb| |].
  - destruct p; exact Hap.
  - destruct item as [x|[|c o]]; exact Hit.
Qed.

Lemma holds_keeps p h h' other lo :
  keeps p h h' -> holds h other lo -> apart p (Get (data_ other)) ->
  holds h' other lo.
Proof.
  intros Hk (buf & Hb & Hrest) Hap. exists buf. split; [|exact Hrest].
  unfold buffer in *. destruct (Get (data_ other)) as [|b off]; [exact Hb|].
  destruct (off =? 0); [|discriminate].
  eapply keeps_block_of; [exact Hk|exact Hb|].
  destruct p; exact Hap.
Qed.

(** X6: no call on one vector reaches into the array of another.  Whenever
    [PushBack], [Insert], [Erase], [Resize] or [Reserve] returns, in place
    or after growing, every array that was live before the call and is not
    the vector's own, nor the one the argument of [PushBack] or [Insert] is
    a slot of, is live afterwards with the same slots, so every other
    vector holds the elements it held.  An argument that is an object
    outside the arrays rules no array out. *)
Theorem mutators_keep_other_vectors this h this' h' pos it item n :
  PushBack_copy item this h = Ret (this', h') \/
  PushBack_move item this h = Ret (this', h') \/
  Insert_copy pos item this h = Ret ((it, this'), h') \/
  Insert_move pos item this h = Ret ((it, this'), h') \/
  Erase pos this h = Ret ((it, this'), h') \/
  Resize n this h = Ret (this', h') \/
  Reserve n this h = Ret (this', h') ->
  (forall b buf,
     block_of h b = Some buf -> apart (Get (data_ this)) (Ptr b 0) ->
     ref_apart item (Ptr b 0) ->
     block_of h' b = Some buf) /\
  (forall other lo,
     holds h other lo -> apart (Get (data_ this)) (Get (data_ other)) ->
     ref_apart item (Get (data_ other)) ->
     holds h' other lo).
Proof.
  intros Hrun.
  assert (Hk : keeps_but (Get (data_ this)) item h h').
  { destruct Hrun as [H|[H|[H|[H|[H|[H|H]]]]]].
    - exact (PushBack_keeps false _ _ _ _ _ H).
    - exact (PushBack_keeps true _ _ _ _ _ H).
    - exact (Insert_keeps false _ _ _ _ _ _ H).
    - exact (Insert_keeps true _ _ _ _ _ _ H).
    - apply keeps_keeps_but. exact (Erase_keeps _ _ _ _ _ H).
    - apply keeps_keeps_but. exact (Resize_keeps _ _ _ _ _ H).
    - apply keeps_keeps_but. exact (Reserve_keeps _ _ _ _ _ H). }
  split.
  - intros b buf Hb Hap Hit. eapply keeps_but_block_of; eassumption.
  - intros other lo Ho Hap Hit. eapply holds_keeps_but; eassumption.
Qed.

(** ** Growing and shrinking at the end *)

Lemma bind_Throw {A B} (m : M A) (k : A -> M B) h e :
  m h = Throw e -> bind m k h = Throw e.
Proof. unfold bind. intros ->. reflexivity. Qed.

Lemma Realloc_throws new_capacity this h :
  alloc_limit < (if new_capacity =? 0 then 1 else new_capacity) ->
  Realloc new_capacity this h = Throw bad_alloc.
Proof.
  intros Hbig. unfold Realloc, ArrayPtr_sized.
  set (c := if new_capacity =? 0 then 1 else new_capacity) in *.
  assert (Hc : (c =? 0) = false).
  { unfold c. destruct (Z.eqb_spec new_capacity 0); [reflexivity|].
    apply Z.eqb_neq. assumption. }
  rewrite Hc. unfold bind, new_array.
  destruct (Z.ltb_spec alloc_limit c); [reflexivity|lia].
Qed.

(** Both [PushBack]s on a vector that holds [l], for an argument that is an
    object outside the arrays. *)
Lemma PushBack_holds (mv : bool) h this l (item : T) :
  holds h this l -> alloc_limit < size_t_modulus ->
  (size_ this = capacity_ this ->
   Z.max 1 (capacity_multiplier * capacity_ this) <= alloc_limit) ->
  exists h' this',
    (if mv then PushBack_move else PushBack_copy) (ref_object item) this h =
      Ret (this', h') /\
    holds h' this' (l ++ [item]) /\
    size_ this' = size_ this + 1 /\
    capacity_ this' =
      (if size_ this <? capacity_ this then capacity_ this
       else if capacity_ this =? 0 then 1 else 2 * capacity_ this) /\
    (size_ this < capacity_ this ->
     this' = with_size this (size_ this + 1) /\ length h' = length h).
Proof.
  intros Hholds Hlim Hgrow.
  destruct (holds_size _ _ _ Hholds) as [Hsz Hle].
  destruct (Z.ltb_spec (size_ this) (capacity_ this)) as [Hlt|Hge].
  - destruct (push_in_place h this l item Hholds Hlt) as (h' & Hrun & Hres).
    exists h', (with_size this (size_ this + 1)).
    split; [|split; [exact Hres|split; [reflexivity|split; [reflexivity|]]]].
    + assert (Hif : (size_ this <? capacity_ this) = true) by (apply Z.ltb_lt; lia).
      destruct mv; unfold PushBack_move, PushBack_copy; rewrite Hif; exact Hrun.
    + intros _. split; [reflexivity|].
      apply bind_Ret_inv in Hrun as (u & h1 & Hst & Hret).
      apply ret_inv in Hret as [_ ->].
      apply store_keeps in Hst as [Hlen _]. exact Hlen.
  - assert (Hfull : size_ this = capacity_ this) by lia.
    destruct (push_grow mv h this l item Hholds Hfull Hlim (Hgrow Hfull))
      as (h' & this' & Hrun & Hres & Hsz' & Hcap').
    exists h', this'.
    split; [|split; [exact Hres|split; [exact Hsz'|split; [exact Hcap'|intros; lia]]]].
    assert (Hif : (size_ this <? capacity_ this) = false) by (apply Z.ltb_ge; lia).
    destruct mv; unfold PushBack_move, PushBack_copy; rewrite Hif; exact Hrun.
Qed.

(** ** PushBack with an argument passed by reference *)






(** X7: [PopBack] on an empty vector does nothing, so [size_] never wraps
    below zero; on a vector that holds [l' ++ [x]] it leaves [l'] with the
    same array and capacity.  A [PushBack], by copy or by move, in place or
    growing, of an object outside the arrays, followed by [PopBack] gives
    back the elements the vector held before. *)
Theorem PopBack_drops_last h this l :
  holds h this l ->
  (l = [] -> PopBack this = this) /\
  (forall l' x, l = l' ++ [x] ->
     holds h (PopBack this) l' /\ GetSize (PopBack this) = GetSize this - 1) /\
  GetCapacity (PopBack this) = GetCapacity this /\
  data_ (PopBack this) = data_ this /\
  (forall (mv : bool) item,
     alloc_limit < size_t_modulus ->
     (size_ this = capacity_ this ->
      Z.max 1 (capacity_multiplier * capacity_ this) <= alloc_limit) ->
     exists h' this',
       (if mv then PushBack_move else PushBack_copy) (ref_object item) this h =
         Ret (this', h') /\
       holds h' (PopBack this') l).
Proof.
  intros Hholds.
  destruct (holds_size _ _ _ Hholds) as [Hsz Hle].
  destruct (holds_array h this l Hholds) as (_ & _ & _ & Hmod & _).
  split; [|split; [|split; [|split]]].
  - intros ->. unfold PopBack. rewrite Hsz. reflexivity.
  - intros l' x ->.
    destruct (PopBack_holds h this (l' ++ [x]) Hholds) as (Hpop & _).
    rewrite length_app, Nat.add_sub in Hpop.
    rewrite take_app_length in Hpop. split; [exact Hpop|].
    unfold GetSize, PopBack. rewrite length_app in Hsz, Hle. simpl in Hsz, Hle.
    destruct (Z.gtb_spec (size_ this) 0); [|lia].
    simpl. apply to_size_t_small. lia.
  - apply (PopBack_holds h this l Hholds).
  - unfold PopBack. destruct (size_ this >? 0); reflexivity.
  - intros mv item Hlim Hgrow.
    destruct (PushBack_holds mv h this l item Hholds Hlim Hgrow)
      as (h' & this' & Hrun & Hres & _).
    exists h', this'. split; [exact Hrun|].
    destruct (PopBack_holds h' this' (l ++ [item]) Hres) as (Hpop & _).
    rewrite length_app, Nat.add_sub, take_app_length in Hpop. exact Hpop.
Qed.

(** X8: [Clear] empties the vector and keeps its array and capacity.  After
    it [At] throws for every index, and growing back with [Resize] inside the
    capacity gives default values: the elements that were in the array do
    not come back. *)
Theorem Clear_empties h this l :
  holds h this l ->
  holds h (Clear this) [] /\ IsEmpty (Clear this) = true /\
  GetCapacity (Clear this) = GetCapacity this /\
  data_ (Clear this) = data_ this /\
  (forall index, 0 <= index ->
     exists what, At index (Clear this) = Throw (out_of_range what)) /\
  (forall n, 0 < n < capacity_ this ->
     exists h',
       Resize n (Clear this) h = Ret (with_size this n, h') /\
       holds h' (with_size this n) (replicate (Z.to_nat n) Type_default)).
Proof.
  intros Hholds.
  destruct (PopBack_holds h this l Hholds) as (_ & _ & Hclear & Hcap).
  split; [exact Hclear|]. split; [reflexivity|]. split; [reflexivity|].
  split; [reflexivity|]. split.
  - intros index Hpos. unfold At, Clear. simpl.
    destruct (Z.geb_spec index 0); [|lia]. eexists. reflexivity.
  - intros n Hn.
    destruct (Resize_fills h (Clear this) [] n Hclear) as (h' & Hrun & Hres).
    { simpl. lia. }
    exists h'. split; [exact Hrun|].
    simpl in Hres. rewrite Z.sub_0_r in Hres. exact Hres.
Qed.

(** ** Capacity *)

(** X9: [Reserve] asks for exactly the capacity it is given, not a multiple.
    A request that does not exceed the capacity changes nothing.  A larger
    one moves the vector to a fresh array of exactly [new_capacity] slots
    with the same elements and size and releases the old array, and the next
    [PushBack], of an object outside the arrays, then writes in place; if
    the allocator refuses the request [Reserve] throws [std::bad_alloc]. *)
Theorem Reserve_exact h this l new_capacity :
  holds h this l -> alloc_limit < size_t_modulus ->
  (new_capacity <= capacity_ this -> Reserve new_capacity this h = Ret (this, h)) /\
  (capacity_ this < new_capacity <= alloc_limit ->
   exists h' this',
     Reserve new_capacity this h = Ret (this', h') /\
     holds h' this' l /\ GetSize this' = GetSize this /\
     GetCapacity this' = new_capacity /\
     Get (data_ this') = Ptr (length h) 0 /\
     (forall b off, Get (data_ this) = Ptr b off -> block_of h' b = None) /\
     forall (mv : bool) item,
     exists h'',
       (if mv then PushBack_move else PushBack_copy) (ref_object item) this' h' =
         Ret (with_size this' (size_ this + 1), h'') /\
       holds h'' (with_size this' (size_ this + 1)) (l ++ [item]) /\
       length h'' = length h') /\
  (capacity_ this < new_capacity -> alloc_limit < new_capacity ->
   Reserve new_capacity this h = Throw bad_alloc).
Proof.
  intros Hholds Hlim.
  destruct (holds_size _ _ _ Hholds) as [Hsz Hle].
  split; [|split].
  - intros Hsmall. unfold Reserve.
    destruct (Z.ltb_spec (capacity_ this) new_capacity); [lia|reflexivity].
  - intros [Hlt Hgrant].
    destruct (Reserve_holds h this l new_capacity Hholds Hgrant Hlim)
      as (h' & this' & Hrun & Hres & Hcap & Hsz' & Hfresh).
    destruct (Hfresh Hlt) as [Hnew Hold].
    exists h', this'. split; [exact Hrun|]. split; [exact Hres|].
    split; [exact Hsz'|]. split; [unfold GetCapacity; lia|].
    split; [exact Hnew|]. split; [exact Hold|].
    intros mv item.
    destruct (PushBack_holds mv h' this' l item Hres Hlim) as
      (h'' & this'' & Hpush & Hres'' & _ & _ & Hin); [lia|].
    destruct Hin as [-> Hlen]; [lia|].
    rewrite Hsz' in *. exists h''. split; [exact Hpush|]. split; assumption.
  - intros Hlt Hbig. unfold Reserve.
    destruct (Z.ltb_spec (capacity_ this) new_capacity); [|lia].
    apply bind_Throw. apply Realloc_throws.
    destruct (Z.eqb_spec new_capacity 0); lia.
Qed.

(** ** swap *)

(** X10: [swap] exchanges the array, the size and the capacity of two vector
    objects and touches no element: the heap is the same afterwards, every
    other object is unchanged, swapping a vector with itself changes
    nothing, and swapping twice restores both objects. *)
Theorem swap_twice objs h this other t o :
  objs !! this = Some t -> objs !! other = Some o ->
  exists objs',
    swap this other objs h = Ret (objs', h) /\
    objs' !! this = Some o /\ objs' !! other = Some t /\
    (forall a, a <> this -> a <> other -> objs' !! a = objs !! a) /\
    (this = other -> objs' = objs) /\
    swap this other objs' h = Ret (objs, h).
Proof.
  intros Ht Ho.
  pose proof (lookup_lt_Some _ _ _ Ht) as Hlt.
  pose proof (lookup_lt_Some _ _ _ Ho) as Hlo.
  destruct (swap_exchanges objs h this other t o Ht Ho) as (Hrun & Hother & Hthis).
  set (objs' := <[other := t]> (<[this := o]> objs)) in *.
  assert (Hthis' : objs' !! this = Some o).
  { destruct (decide (this = other)) as [->|Hne].
    - rewrite Hother. congruence.
    - apply Hthis. exact Hne. }
  exists objs'. split; [exact Hrun|]. split; [exact Hthis'|].
  split; [exact Hother|]. split; [|split].
  - intros a Ha1 Ha2. unfold objs'.
    rewrite !list_lookup_insert_ne by congruence. reflexivity.
  - intros ->. unfold objs'. rewrite list_insert_insert_eq.
    apply list_insert_id. exact Ht.
  - destruct (swap_exchanges objs' h this other o t Hthis' Hother) as (Hrun' & _).
    rewrite Hrun'. f_equal. f_equal. unfold objs'.
    apply list_eq. intros a.
    destruct (decide (a = other)) as [->|Hao].
    + rewrite list_lookup_insert_eq by (rewrite !length_insert; lia). congruence.
    + rewrite list_lookup_insert_ne by congruence.
      destruct (decide (a = this)) as [->|Hat].
      * rewrite list_lookup_insert_eq by (rewrite !length_insert; lia). congruence.
      * rewrite !list_lookup_insert_ne by congruence. reflexivity.
Qed.

(** ** Iterators and observers *)

(** X11: in a vector that holds [l], [GetSize] is the length of [l],
    [IsEmpty] and [begin() == end()] both say that [l] is empty, [end()] is
    [GetSize()] slots after [begin()], [cbegin] and [cend] are [begin] and
    [end], and dereferencing [begin() + i] reads element [i] without
    changing anything.  Dereferencing [end()] of a vector that is full is
    undefined behaviour. *)
Theorem iterators_span_elements h this l :
  holds h this l ->
  GetSize this = Z.of_nat (length l) /\
  (IsEmpty this = true <-> l = []) /\
  (begin_ this = end_ this <-> l = []) /\
  ptr_diff (end_ this) (begin_ this) = Ret (GetSize this) /\
  cbegin this = begin_ this /\ cend this = end_ this /\
  (forall i x, l !! i = Some x ->
     load_value (begin_ this +ₚ Z.of_nat i) h = Ret (x, h)) /\
  (GetSize this = GetCapacity this -> load_value (end_ this) h = Undefined).
Proof.
  intros Hholds.
  destruct (holds_size _ _ _ Hholds) as [Hsz Hle].
  destruct (holds_array h this l Hholds) as (buf & Ha & Hcap & Hmod & _ & Htake & Hlen).
  assert (Hnil : size_ this = 0 <-> l = []).
  { rewrite Hsz. destruct l; simpl; split; intros; try reflexivity; try discriminate; lia. }
  split; [exact Hsz|]. split; [|split; [|split; [|split; [|split; [|split]]]]].
  - unfold IsEmpty. rewrite Z.eqb_eq. exact Hnil.
  - rewrite <- Hnil. unfold begin_, end_.
    destruct (Get (data_ this)) as [|b off].
    + simpl in Ha. subst buf. simpl in Hcap. split; intros; [lia|reflexivity].
    + simpl. split.
      * intros Heq. injection Heq as Heq. lia.
      * intros ->. f_equal. lia.
  - unfold begin_, end_, GetSize. destruct (Get (data_ this)) as [|b off].
    + simpl in Ha. subst buf. simpl in Hcap. simpl. f_equal. lia.
    + simpl. rewrite Nat.eqb_refl. f_equal. lia.
  - reflexivity.
  - reflexivity.
  - intros i x Hi. eapply holds_load; eassumption.
  - unfold GetSize, GetCapacity. intros Hfull.
    unfold load_value, bind, load, end_.
    destruct (Get (data_ this)) as [|b off]; [reflexivity|].
    destruct Ha as [-> Hb]. simpl. rewrite Hb.
    destruct (0 <=? 0 + size_ this); [|reflexivity].
    rewrite lookup_ge_None_2 by lia. reflexivity.
Qed.

(** ** Ordering *)

Lemma ptr_add_succ p (s : nat) : p +ₚ Z.of_nat s +ₚ 1 = p +ₚ Z.of_nat (S s).
Proof. destruct p as [|b off]; simpl; [reflexivity|f_equal; lia]. Qed.

Lemma readable_cons h p s x l :
  readable h p s (x :: l) ->
  load_value (p +ₚ Z.of_nat s) h = Ret (x, h) /\ readable h p (S s) l.
Proof.
  intros Hr. split.
  - specialize (Hr 0%nat x eq_refl). rewrite Nat.add_0_r in Hr. exact Hr.
  - intros i y Hy. specialize (Hr (S i) y Hy).
    replace (S s + i)%nat with (s + S i)%nat by lia. exact Hr.
Qed.

Lemma holds_readable h this l : holds h this l -> readable h (begin_ this) 0 l.
Proof. intros Hholds i x Hx. simpl. eapply holds_load; eassumption. Qed.

Lemma equal_loop_reads h p1 p2 : forall (l1 l2 : list T) (s1 s2 : nat),
  length l1 = length l2 ->
  readable h p1 s1 l1 -> readable h p2 s2 l2 ->
  equal_loop (length l1) (p1 +ₚ Z.of_nat s1) (p2 +ₚ Z.of_nat s2) h =
    Ret (list_eqb l1 l2, h).
Proof.
  induction l1 as [|x l1 IH]; intros [|y l2] s1 s2 Hlen H1 H2; try discriminate.
  - reflexivity.
  - apply readable_cons in H1 as [Hx H1]. apply readable_cons in H2 as [Hy H2].
    simpl. erewrite bind_Ret by exact Hx. erewrite bind_Ret by exact Hy.
    destruct (Type_eqb x y); [|reflexivity].
    rewrite !ptr_add_succ. apply IH; [simpl in Hlen; lia|assumption..].
Qed.

Lemma lexicographical_compare_loop_reads h p1 p2 :
  forall (l1 l2 : list T) (s1 s2 : nat),
  readable h p1 s1 l1 -> readable h p2 s2 l2 ->
  lexicographical_compare_loop (length l1) (length l2)
    (p1 +ₚ Z.of_nat s1) (p2 +ₚ Z.of_nat s2) h = Ret (lex_ltb l1 l2, h).
Proof.
  induction l1 as [|x l1 IH]; intros [|y l2] s1 s2 H1 H2; try reflexivity.
  apply readable_cons in H1 as [Hx H1]. apply readable_cons in H2 as [Hy H2].
  simpl. erewrite bind_Ret by exact Hx. erewrite bind_Ret by exact Hy.
  destruct (Type_ltb x y); [reflexivity|].
  destruct (Type_ltb y x); [reflexivity|].
  rewrite !ptr_add_succ. apply IH; assumption.
Qed.

Lemma list_eqb_length l1 l2 : list_eqb l1 l2 = true -> length l1 = length l2.
Proof.
  revert l2. induction l1 as [|x l1 IH]; intros [|y l2]; simpl; try discriminate.
  - reflexivity.
  - destruct (Type_eqb x y); [|discriminate]. intros H. f_equal. apply IH. exact H.
Qed.

(** [operator==] and [operator<] on two vectors that hold lists. *)
Lemma operator_eq_runs h lhs rhs l1 l2 :
  holds h lhs l1 -> holds h rhs l2 ->
  operator_eq lhs rhs h = Ret (list_eqb l1 l2, h).
Proof.
  intros H1 H2.
  destruct (invariant_end_diff h lhs (holds_invariant h lhs l1 H1)) as [Hd1 _].
  destruct (invariant_end_diff h rhs (holds_invariant h rhs l2 H2)) as [Hd2 _].
  destruct (holds_size _ _ _ H1) as [Hsz1 _].
  destruct (holds_size _ _ _ H2) as [Hsz2 _].
  unfold operator_eq, GetSize. rewrite Z.eqb_refl.
  change (negb true) with false. cbv iota.
  change (Get (data_ lhs)) with (begin_ lhs) in Hd1.
  change (Get (data_ rhs)) with (begin_ rhs) in Hd2.
  unfold std_equal. rewrite Hd1, bind_lift_Ret. cbv beta.
  rewrite Hd2, bind_lift_Ret. cbv beta.
  replace ((size_ lhs <? 0) || (size_ rhs <? 0)) with false
    by (symmetry; apply orb_false_iff; split; apply Z.ltb_ge; lia).
  destruct (Z.eqb_spec (size_ lhs) (size_ rhs)) as [Heq|Hne];
    [change (negb true) with false|change (negb false) with true]; cbv iota.
  - rewrite Hsz1, Nat2Z.id.
    rewrite <- (ptr_add_0 (begin_ lhs)), <- (ptr_add_0 (begin_ rhs)).
    apply (equal_loop_reads h (begin_ lhs) (begin_ rhs) l1 l2 0 0);
      [lia|apply holds_readable; assumption..].
  - unfold ret. f_equal. f_equal.
    destruct (list_eqb l1 l2) eqn:E; [|reflexivity].
    apply list_eqb_length in E. lia.
Qed.

Lemma operator_lt_runs h lhs rhs l1 l2 :
  holds h lhs l1 -> holds h rhs l2 ->
  operator_lt lhs rhs h = Ret (lex_ltb l1 l2, h).
Proof.
  intros H1 H2.
  destruct (invariant_end_diff h lhs (holds_invariant h lhs l1 H1)) as [Hd1 _].
  destruct (invariant_end_diff h rhs (holds_invariant h rhs l2 H2)) as [Hd2 _].
  destruct (holds_size _ _ _ H1) as [Hsz1 _].
  destruct (holds_size _ _ _ H2) as [Hsz2 _].
  change (Get (data_ lhs)) with (begin_ lhs) in Hd1.
  change (Get (data_ rhs)) with (begin_ rhs) in Hd2.
  unfold operator_lt, std_lexicographical_compare.
  rewrite Hd1, bind_lift_Ret. cbv beta.
  rewrite Hd2, bind_lift_Ret. cbv beta.
  replace ((size_ lhs <? 0) || (size_ rhs <? 0)) with false
    by (symmetry; apply orb_false_iff; split; apply Z.ltb_ge; lia).
  rewrite Hsz1, Hsz2, !Nat2Z.id.
  rewrite <- (ptr_add_0 (begin_ lhs)), <- (ptr_add_0 (begin_ rhs)).
  apply (lexicographical_compare_loop_reads h (begin_ lhs) (begin_ rhs) l1 l2 0 0);
    apply holds_readable; assumption.
Qed.

(** [lex_ltb] says that the first position where the lists differ by
    [Type_ltb] has the smaller element on the left, or that the left list
    runs out first. *)
Lemma lex_ltb_first_difference l1 l2 :
  lex_ltb l1 l2 = true <->
  exists i : nat,
    (forall (j : nat) x y, (j < i)%nat -> l1 !! j = Some x -> l2 !! j = Some y ->
                 Type_ltb x y = false /\ Type_ltb y x = false) /\
    ((i = length l1 /\ (i < length l2)%nat) \/
     (exists x y, l1 !! i = Some x /\ l2 !! i = Some y /\ Type_ltb x y = true)).
Proof.
  revert l2. induction l1 as [|x l1 IH]; intros [|y l2]; simpl.
  - split; [discriminate|].
    intros (i & _ & [[_ Hlt]|(x & y & Hx & _)]); [lia|discriminate].
  - split; [intros _|reflexivity].
    exists 0%nat. split; [intros; lia|]. left. split; [reflexivity|lia].
  - split; [discriminate|].
    intros (i & _ & [[_ Hlt]|(x' & y & _ & Hy & _)]); [lia|discriminate].
  - destruct (Type_ltb x y) eqn:Exy; [|destruct (Type_ltb y x) eqn:Eyx].
    + split; [intros _|reflexivity].
      exists 0%nat. split; [intros; lia|]. right. exists x, y. repeat split. exact Exy.
    + split; [discriminate|].
      intros ([|i] & Hpre & Hat).
      * destruct Hat as [[Hlen _]|(x' & y' & Hx & Hy & Hlt)]; [discriminate|].
        injection Hx as <-. injection Hy as <-. congruence.
      * destruct (Hpre 0%nat x y) as [_ Hc]; [lia|reflexivity|reflexivity|]. congruence.
    + rewrite IH. split.
      * intros (i & Hpre & Hat). exists (S i). split.
        -- intros [|j] x' y' Hj Hx Hy.
           ++ injection Hx as <-. injection Hy as <-. split; assumption.
           ++ apply (Hpre j); [lia|assumption..].
        -- destruct Hat as [[Hlen Hlt]|Hat]; [left; split; [f_equal; exact Hlen|lia]|].
           right. exact Hat.
      * intros ([|i] & Hpre & Hat).
        -- destruct Hat as [[Hlen _]|(x' & y' & Hx & Hy & Hlt)]; [discriminate|].
           injection Hx as <-. injection Hy as <-. congruence.
        -- exists i. split.
           ++ intros j x' y' Hj Hx Hy. apply (Hpre (S j)); [lia|assumption..].
           ++ destruct Hat as [[Hlen Hlt]|Hat]; [left; split; lia|].
              right. exact Hat.
Qed.

(** X12: [operator<] is the lexicographic order of the elements under
    [Type]'s [operator<]: it is true exactly when, after a common stretch in
    which no element is less than its counterpart either way, the left
    vector ends first or has the smaller element.  It only reads, and
    [operator>=] is its negation. *)
Theorem operator_lt_lexicographic h lhs rhs l1 l2 :
  holds h lhs l1 -> holds h rhs l2 ->
  exists r,
    operator_lt lhs rhs h = Ret (r, h) /\
    operator_ge lhs rhs h = Ret (negb r, h) /\
    (r = true <->
     exists i : nat,
       (forall (j : nat) x y,
          (j < i)%nat -> l1 !! j = Some x -> l2 !! j = Some y ->
          Type_ltb x y = false /\ Type_ltb y x = false) /\
       ((i = length l1 /\ (i < length l2)%nat) \/
        (exists x y, l1 !! i = Some x /\ l2 !! i = Some y /\ Type_ltb x y = true))).
Proof.
  intros H1 H2. exists (lex_ltb l1 l2).
  pose proof (operator_lt_runs h lhs rhs l1 l2 H1 H2) as Hrun.
  split; [exact Hrun|]. split.
  - unfold operator_ge. erewrite bind_Ret by exact Hrun. reflexivity.
  - apply lex_ltb_first_difference.
Qed.

Section TotalOrder.

(** [Type] is totally ordered by [operator<], and [operator==] is equality. *)
Hypothesis Type_eqb_eq : forall x y, Type_eqb x y = true <-> x = y.
Hypothesis Type_ltb_asym : forall x y, Type_ltb x y = true -> Type_ltb y x = false.
Hypothesis Type_ltb_total :
  forall x y, Type_ltb x y = false -> Type_ltb y x = false -> x = y.

Lemma lex_ltb_trichotomy l1 l2 :
  lex_ltb l2 l1 = negb (list_eqb l1 l2 || lex_ltb l1 l2).
Proof using Type_eqb_eq Type_ltb_asym Type_ltb_total.
  revert l2. induction l1 as [|x l1 IH]; intros [|y l2]; simpl; try reflexivity.
  destruct (Type_ltb x y) eqn:Exy.
  - rewrite (Type_ltb_asym _ _ Exy). rewrite orb_true_r. reflexivity.
  - destruct (Type_ltb y x) eqn:Eyx.
    + destruct (Type_eqb x y) eqn:Eeq; [|reflexivity].
      apply Type_eqb_eq in Eeq. subst y. congruence.
    + pose proof (Type_ltb_total _ _ Exy Eyx) as ->.
      rewrite (proj2 (Type_eqb_eq y y) eq_refl). apply IH.
Qed.

Lemma list_eqb_sym l1 l2 : list_eqb l1 l2 = list_eqb l2 l1.
Proof using Type_eqb_eq.
  revert l2. induction l1 as [|x l1 IH]; intros [|y l2]; simpl; try reflexivity.
  destruct (Type_eqb x y) eqn:E1, (Type_eqb y x) eqn:E2; try apply IH; try reflexivity.
  - apply Type_eqb_eq in E1. subst y. rewrite (proj2 (Type_eqb_eq x x) eq_refl) in E2.
    discriminate.
  - apply Type_eqb_eq in E2. subst y. rewrite (proj2 (Type_eqb_eq x x) eq_refl) in E1.
    discriminate.
Qed.

(** X13: when [Type]'s [operator<] is a strict total order and its
    [operator==] is equality, the derived operators agree with the usual
    reading: [lhs > rhs] is [rhs < lhs], [lhs <= rhs] is [rhs >= lhs],
    [lhs >= rhs] is [rhs <= lhs], [!=] is the negation of [==], and exactly
    one of [lhs < rhs], [lhs == rhs], [lhs > rhs] is true.  None of them
    changes the heap. *)
Theorem ordering_operators_consistent h lhs rhs l1 l2 :
  holds h lhs l1 -> holds h rhs l2 ->
  operator_gt lhs rhs h = operator_lt rhs lhs h /\
  operator_le lhs rhs h = operator_ge rhs lhs h /\
  operator_ge lhs rhs h = operator_le rhs lhs h /\
  exists less equal greater,
    operator_lt lhs rhs h = Ret (less, h) /\
    operator_eq lhs rhs h = Ret (equal, h) /\
    operator_gt lhs rhs h = Ret (greater, h) /\
    operator_ne lhs rhs h = Ret (negb equal, h) /\
    (equal = true <-> l1 = l2) /\
    ((less = true /\ equal = false /\ greater = false) \/
     (less = false /\ equal = true /\ greater = false) \/
     (less = false /\ equal = false /\ greater = true)).
Proof using Type_eqb_eq Type_ltb_asym Type_ltb_total.
  intros H1 H2.
  pose proof (operator_lt_runs h lhs rhs l1 l2 H1 H2) as Hlt.
  pose proof (operator_lt_runs h rhs lhs l2 l1 H2 H1) as Hlt'.
  pose proof (operator_eq_runs h lhs rhs l1 l2 H1 H2) as Heq.
  pose proof (operator_eq_runs h rhs lhs l2 l1 H2 H1) as Heq'.
  assert (Hle : operator_le lhs rhs h = Ret (list_eqb l1 l2 || lex_ltb l1 l2, h)).
  { unfold operator_le. erewrite bind_Ret by exact Heq.
    destruct (list_eqb l1 l2); [reflexivity|exact Hlt]. }
  assert (Hle' : operator_le rhs lhs h = Ret (list_eqb l2 l1 || lex_ltb l2 l1, h)).
  { unfold operator_le. erewrite bind_Ret by exact Heq'.
    destruct (list_eqb l2 l1); [reflexivity|exact Hlt']. }
  assert (Hgt : operator_gt lhs rhs h = Ret (lex_ltb l2 l1, h)).
  { unfold operator_gt. erewrite bind_Ret by exact Hle.
    rewrite (lex_ltb_trichotomy l1 l2). reflexivity. }
  assert (Hge : operator_ge lhs rhs h = Ret (negb (lex_ltb l1 l2), h)).
  { unfold operator_ge. erewrite bind_Ret by exact Hlt. reflexivity. }
  assert (Hge' : operator_ge rhs lhs h = Ret (negb (lex_ltb l2 l1), h)).
  { unfold operator_ge. erewrite bind_Ret by exact Hlt'. reflexivity. }
  assert (Hiff : list_eqb l1 l2 = true <-> l1 = l2).
  { clear H1 H2 Hlt Hlt' Heq Heq' Hle Hle' Hgt Hge Hge'.
    revert l2. induction l1 as [|x l1 IH]; intros [|y l2]; simpl;
      try (split; [discriminate|discriminate]); [split; reflexivity|].
    destruct (Type_eqb x y) eqn:E.
    - apply Type_eqb_eq in E. subst y. rewrite IH. split; [intros ->; reflexivity|].
      intros Hc. injection Hc as ->. reflexivity.
    - split; [discriminate|]. intros Hc. injection Hc as Hxy _.
      apply Type_eqb_eq in Hxy. congruence. }
  split; [rewrite Hgt, Hlt'; reflexivity|].
  split; [rewrite Hle, Hge', (lex_ltb_trichotomy l1 l2), negb_involutive;
          reflexivity|].
  split.
  { rewrite Hge, Hle'. rewrite (lex_ltb_trichotomy l2 l1), negb_involutive.
    reflexivity. }
  exists (lex_ltb l1 l2), (list_eqb l1 l2), (lex_ltb l2 l1).
  split; [exact Hlt|]. split; [exact Heq|]. split; [exact Hgt|].
  split; [unfold operator_ne; erewrite bind_Ret by exact Heq; reflexivity|].
  split; [exact Hiff|].
  pose proof (lex_ltb_trichotomy l1 l2) as Ht1.
  pose proof (lex_ltb_trichotomy l2 l1) as Ht2.
  rewrite (list_eqb_sym l2 l1) in Ht2.
  destruct (lex_ltb l1 l2), (list_eqb l1 l2), (lex_ltb l2 l1);
    simpl in Ht1, Ht2; try discriminate; prop_tauto.
Qed.

End TotalOrder.

(** ** Insert and Erase together *)

(** [Erase] at [begin() + dist], [dist < size_]. *)
Lemma Erase_at h this l (dist : nat) :
  holds h this l -> (dist < length l)%nat ->
  exists h',
    Erase (begin_ this +ₚ Z.of_nat dist) this h =
      Ret ((begin_ this +ₚ Z.of_nat dist, with_size this (size_ this - 1)), h') /\
    holds h' (with_size this (size_ this - 1)) (take dist l ++ drop (S dist) l) /\
    length h' = length h.
Proof.
  intros Hholds Hdist.
  pose proof Hholds as (buf0 & _ & Hcap0 & Hmod & Hsz & Htake0).
  destruct (holds_nonempty h this l Hholds)
    as (b & buf & Hp & Hb & Hcap & Htake & Hle).
  { apply (f_equal length) in Htake0.
    rewrite length_take, length_fmap in Htake0. lia. }
  set (n := (length l - dist - 1)%nat).
  set (buf' := copy_within true n (S dist) dist buf).
  exists (<[b := Some buf']> h). split; [|split].
  - unfold Erase, begin_. destruct (Z.gtb_spec (size_ this) 0); [|lia].
    rewrite Hp. simpl ptr_add. simpl ptr_diff. rewrite Nat.eqb_refl.
    rewrite bind_lift_Ret.
    replace (0 + (0 + Z.of_nat dist - 0) + 1) with (Z.of_nat (S dist)) by lia.
    replace (0 + (0 + Z.of_nat dist - 0)) with (Z.of_nat dist) by lia.
    replace (0 + size_ this) with (Z.of_nat (S dist + n)) by (unfold n; lia).
    erewrite bind_Ret by (apply std_copy_same; [exact Hb|unfold n; lia..]).
    unfold ret. rewrite to_size_t_small by lia.
    rewrite Z.sub_0_r.
    change (Get (data_ (with_size this (size_ this - 1)))) with (Get (data_ this)).
    rewrite Hp. reflexivity.
  - exists buf'. repeat split.
    + apply buffer_array_at. simpl. rewrite Hp. split; [reflexivity|].
      apply block_of_insert. eapply block_of_lt; eauto.
    + unfold buf'. rewrite copy_within_length. exact Hcap.
    + exact Hmod.
    + simpl. rewrite length_app, length_take, length_drop. lia.
    + replace (length (take dist l ++ drop (S dist) l)) with (length l - 1)%nat
        by (rewrite length_app, length_take, length_drop; lia).
      apply erase_contents; assumption.
  - apply length_insert.
Qed.

Lemma take_drop_insert_erase {A} (l : list A) dist value :
  (dist <= length l)%nat ->
  take dist (take dist l ++ value :: drop dist l) ++
    drop (S dist) (take dist l ++ value :: drop dist l) = l.
Proof.
  intros Hd.
  rewrite take_app_length' by (rewrite length_take; lia).
  rewrite cons_middle, (assoc_L app).
  rewrite drop_app_length' by (rewrite length_app, length_take; simpl; lia).
  apply take_drop.
Qed.

(** X14: for an argument that is an object outside the arrays, so not an
    element of the vector itself, [Insert] at [begin() + dist], by move on
    either path and by copy when the vector has a free slot, puts the value
    at index [dist] in front of the element that was there and returns an
    iterator that reads it; [Erase] at that iterator then gives back the
    elements the vector held before the insertion, with the capacity the
    insertion left. *)
Theorem Insert_then_Erase ins h this l (dist : nat) (value : T) :
  ins = Insert_move \/ (ins = Insert_copy /\ size_ this < capacity_ this) ->
  holds h this l -> (dist <= length l)%nat ->
  alloc_limit < size_t_modulus ->
  (size_ this = capacity_ this ->
   Z.max 1 (capacity_multiplier * capacity_ this) <= alloc_limit) ->
  exists h1 this1 it,
    ins (begin_ this +ₚ Z.of_nat dist) (ref_object value) this h =
      Ret ((it, this1), h1) /\
    it = begin_ this1 +ₚ Z.of_nat dist /\
    holds h1 this1 (take dist l ++ value :: drop dist l) /\
    load_value it h1 = Ret (value, h1) /\
    GetSize this1 = GetSize this + 1 /\
    exists h2 this2,
      Erase it this1 h1 = Ret ((it, this2), h2) /\
      holds h2 this2 l /\
      GetSize this2 = GetSize this /\
      GetCapacity this2 = GetCapacity this1 /\
      data_ this2 = data_ this1.
Proof.
  intros Hins Hholds Hd Hlim Hgrow.
  destruct (Insert_inserts ins h this l dist value Hins Hholds Hd Hlim Hgrow)
    as (h1 & this1 & Hrun & Hres & Hsz & Hcap & Hread).
  exists h1, this1, (begin_ this1 +ₚ Z.of_nat dist).
  split; [exact Hrun|]. split; [reflexivity|]. split; [exact Hres|].
  split; [exact Hread|]. split; [exact Hsz|].
  destruct (Erase_at h1 this1 (take dist l ++ value :: drop dist l) dist Hres)
    as (h2 & Hrun2 & Hres2 & _).
  { rewrite length_app, length_take. simpl. lia. }
  rewrite take_drop_insert_erase in Hres2 by exact Hd.
  exists h2, (with_size this1 (size_ this1 - 1)).
  split; [exact Hrun2|]. split; [exact Hres2|].
  split; [unfold GetSize; simpl; lia|]. split; reflexivity.
Qed.

(** X15: [Erase] does not check its position.  On a vector that is not
    empty, [Erase(end())] and [Erase] of an iterator into another array are
    undefined behaviour: the first hands [std::copy] a range whose start is
    past its end, the second subtracts pointers into different arrays. *)
Theorem Erase_unchecked h this l :
  holds h this l -> l <> [] ->
  Erase (end_ this) this h = Undefined /\
  (forall b off, apart (Get (data_ this)) (Ptr b off) ->
                 Erase (Ptr b off) this h = Undefined) /\
  Erase nullptr this h = Undefined.
Proof.
  intros Hholds Hne.
  destruct (holds_size _ _ _ Hholds) as [Hsz Hle].
  assert (Hpos : 0 < size_ this).
  { rewrite Hsz. destruct l; [contradiction|simpl; lia]. }
  destruct (holds_nonempty h this l Hholds)
    as (b0 & buf & Hp & Hb & Hcap & Htake & Hlen); [lia|].
  assert (Hif : (size_ this >? 0) = true) by (apply Z.gtb_lt; exact Hpos).
  unfold Erase, end_. rewrite Hif, Hp. split; [|split].
  - simpl ptr_add. simpl ptr_diff. rewrite Nat.eqb_refl, bind_lift_Ret.
    unfold std_copy, bind, lift. simpl. rewrite Nat.eqb_refl.
    destruct (Z.ltb_spec (0 + size_ this - (0 + (0 + size_ this - 0) + 1)) 0);
      [reflexivity|lia].
  - intros b off Hap. simpl in Hap. simpl ptr_diff.
    destruct (Nat.eqb_spec b b0) as [->|_]; [contradiction|]. reflexivity.
  - reflexivity.
Qed.

(** ** Resize *)

(** X16: [Resize] to a size that is not larger only lowers [size_]: heap,
    array and capacity stay, and the first [new_size] elements remain.
    Growing again inside the capacity fills with default values, so the
    elements cut off by the first [Resize] do not come back. *)
Theorem Resize_shrink_then_grow h this l n m :
  holds h this l -> 0 <= n <= size_ this ->
  Resize n this h = Ret (with_size this n, h) /\
  holds h (with_size this n) (take (Z.to_nat n) l) /\
  (n < m < capacity_ this ->
   exists h',
     Resize m (with_size this n) h = Ret (with_size this m, h') /\
     holds h' (with_size this m)
       (take (Z.to_nat n) l ++ replicate (Z.to_nat (m - n)) Type_default) /\
     length h' = length h).
Proof.
  intros Hholds Hn.
  destruct (Resize_shrinks h this l n Hholds Hn) as [Hrun Hres].
  split; [exact Hrun|]. split; [exact Hres|].
  intros Hm.
  destruct (Resize_fills h (with_size this n) _ m Hres) as (h' & Hrun' & Hres').
  { simpl. lia. }
  exists h'. split; [exact Hrun'|]. split; [exact Hres'|].
  pose proof (Resize_keeps _ _ _ _ _ Hrun') as [Hle _].
  revert Hrun'. unfold Resize. simpl.
  destruct (Z.leb_spec m n); [lia|].
  destruct (Z.ltb_spec m (capacity_ this)); [|lia].
  intros Hrun'. apply bind_Ret_inv in Hrun' as (u & h1 & Hfill & Hret).
  apply ret_inv in Hret as [_ ->].
  apply std_fill_keeps in Hfill as [Hlen _]. exact Hlen.
Qed.

(** ** The move constructor *)

(** X17: the move constructor hands the array over without touching the
    heap: the new vector holds the elements in the very array the source
    had, and the source is left as a default vector.  The source is still
    usable: a [PushBack] on it, of an object outside the arrays, allocates a
    one-slot array of its own and leaves the new vector's elements alone. *)
Theorem SimpleVector_move_transfers other l h (item : T) :
  holds h other l -> 0 < alloc_limit < size_t_modulus ->
  holds h (fst (SimpleVector_move other)) l /\
  Get (data_ (fst (SimpleVector_move other))) = Get (data_ other) /\
  GetSize (fst (SimpleVector_move other)) = GetSize other /\
  GetCapacity (fst (SimpleVector_move other)) = GetCapacity other /\
  snd (SimpleVector_move other) = SimpleVector_default /\
  exists h' other',
    PushBack_copy (ref_object item) (snd (SimpleVector_move other)) h =
      Ret (other', h') /\
    holds h' other' [item] /\ GetCapacity other' = 1 /\
    holds h' (fst (SimpleVector_move other)) l.
Proof.
  intros Hholds Hlim.
  destruct (SimpleVector_move_holds other l h Hholds) as [Hnew Hsrc].
  split; [exact Hnew|]. split; [reflexivity|]. split; [reflexivity|].
  split; [reflexivity|]. split; [reflexivity|].
  destruct (PushBack_holds false h _ [] item Hsrc (proj2 Hlim))
    as (h' & other' & Hrun & Hres & _ & Hcap & _).
  { intros _. simpl. lia. }
  exists h', other'. split; [exact Hrun|]. split; [exact Hres|].
  split; [exact Hcap|].
  eapply holds_keeps_but;
    [exact (PushBack_keeps false _ _ _ _ _ Hrun)|exact Hnew|exact I|exact I].
Qed.

(** ** When the allocator refuses *)

(** X18: a call that has to grow allocates the new array before it does
    anything else, so when the allocator refuses the array the call asks
    for, [PushBack] and [Insert] on a full vector and [Resize] beyond the
    capacity throw [std::bad_alloc]. *)
Theorem growth_throws_bad_alloc h this l :
  holds h this l ->
  (size_ this = capacity_ this ->
   capacity_multiplier * capacity_ this < size_t_modulus ->
   alloc_limit < Z.max 1 (capacity_multiplier * capacity_ this) ->
   forall item,
     PushBack_copy item this h = Throw bad_alloc /\
     PushBack_move item this h = Throw bad_alloc /\
     forall dist : nat, (dist <= length l)%nat ->
       Insert_copy (begin_ this +ₚ Z.of_nat dist) item this h = Throw bad_alloc /\
       Insert_move (begin_ this +ₚ Z.of_nat dist) item this h = Throw bad_alloc) /\
  (forall new_size,
     size_ this < new_size -> capacity_ this <= new_size ->
     capacity_multiplier * new_size < size_t_modulus ->
     alloc_limit < capacity_multiplier * new_size ->
     Resize new_size this h = Throw bad_alloc).
Proof.
  intros Hholds. unfold capacity_multiplier.
  destruct (holds_size _ _ _ Hholds) as [Hsz Hle].
  split.
  - intros Hfull Hwrap Hbig item.
    assert (Hif : (size_ this <? capacity_ this) = false) by (apply Z.ltb_ge; lia).
    assert (Hre : forall v,
               Realloc (to_size_t (2 * capacity_ this)) v h = Throw bad_alloc).
    { intros v. apply Realloc_throws. rewrite to_size_t_small by lia.
      destruct (Z.eqb_spec (2 * capacity_ this) 0); lia. }
    split; [|split].
    + unfold PushBack_copy, capacity_multiplier. rewrite Hif.
      apply bind_Throw. apply Hre.
    + unfold PushBack_move, capacity_multiplier. rewrite Hif.
      apply bind_Throw. apply Hre.
    + intros dist Hd.
      destruct (holds_ptr_diff h this l dist Hholds Hd) as [Hdiff _].
      unfold Insert_copy, Insert_move, capacity_multiplier.
      rewrite Hdiff, !bind_lift_Ret. cbv beta zeta. rewrite Hif.
      split; apply bind_Throw; apply Hre.
  - intros new_size Hgt Hge Hwrap Hbig. unfold Resize, capacity_multiplier.
    destruct (Z.leb_spec new_size (size_ this)); [lia|].
    destruct (Z.ltb_spec new_size (capacity_ this)); [lia|].
    apply bind_Throw. apply Realloc_throws. rewrite to_size_t_small by lia.
    destruct (Z.eqb_spec (2 * new_size) 0); lia.
Qed.

(** ** Sizes that wrap around *)

Lemma same_shape_refl h : same_shape h h.
Proof. intros b buf Hb. exists buf. split; [exact Hb|reflexivity]. Qed.

Lemma same_shape_trans h1 h2 h3 :
  same_shape h1 h2 -> same_shape h2 h3 -> same_shape h1 h3.
Proof.
  intros H12 H23 b buf Hb.
  destruct (H12 b buf Hb) as (buf2 & Hb2 & Hl2).
  destruct (H23 b buf2 Hb2) as (buf3 & Hb3 & Hl3).
  exists buf3. split; [exact Hb3|lia].
Qed.

Lemma store_inv p s h u h' :
  store p s h = Ret (u, h') ->
  exists b off buf,
    p = Ptr b off /\ block_of h b = Some buf /\
    0 <= off < Z.of_nat (length buf) /\
    h' = <[b := Some (<[Z.to_nat off := s]> buf)]> h.
Proof.
  unfold store. destruct p as [|b off]; [discriminate|].
  destruct (block_of h b) as [buf|] eqn:Hb; [|discriminate].
  destruct (Z.leb_spec 0 off) as [Hlo|Hlo]; [|discriminate].
  destruct (Z.ltb_spec off (Z.of_nat (length buf))) as [Hhi|Hhi]; [|discriminate].
  simpl. intros Heq. injection Heq as _ <-.
  exists b, off, buf. repeat split; try assumption; reflexivity.
Qed.

Lemma store_same_shape p s h u h' : store p s h = Ret (u, h') -> same_shape h h'.
Proof.
  intros H. apply store_inv in H as (b0 & off & buf0 & -> & Hb0 & Hoff & ->).
  intros b buf Hb. destruct (decide (b = b0)) as [->|Hne].
  - exists (<[Z.to_nat off := s]> buf0). split.
    + apply block_of_insert. eapply block_of_lt; eassumption.
    + rewrite length_insert. congruence.
  - exists buf. split; [|reflexivity].
    rewrite block_of_insert_ne by congruence. exact Hb.
Qed.

Section StorePreserved.

(** A relation between the heap before and the heap after that every store
    respects is respected by the loops of the standard algorithms. *)
Variable P : heap -> heap -> Prop.
Hypothesis P_refl : forall h, P h h.
Hypothesis P_trans : forall h1 h2 h3, P h1 h2 -> P h2 h3 -> P h1 h3.
Hypothesis P_store : forall p s h u h', store p s h = Ret (u, h') -> P h h'.

Lemma assign_through_preserves mv dst src h u h' :
  assign_through mv dst src h = Ret (u, h') -> P h h'.
Proof using P_refl P_trans P_store.
  unfold assign_through. intros H.
  apply bind_Ret_inv in H as (s & h1 & Hload & H). apply load_inv in Hload as ->.
  apply bind_Ret_inv in H as (u1 & h2 & Hst & H).
  apply P_store in Hst.
  destruct mv.
  - apply P_store in H. eapply P_trans; eassumption.
  - apply ret_inv in H as [_ ->]. exact Hst.
Qed.

Lemma copy_loop_preserves mv n first d_first h r h' :
  copy_loop mv n first d_first h = Ret (r, h') -> P h h'.
Proof using P_refl P_trans P_store.
  revert first d_first h. induction n as [|n IH]; intros first d_first h H; simpl in H.
  - apply ret_inv in H as [_ ->]. apply P_refl.
  - apply bind_Ret_inv in H as (u & h1 & Ha & H).
    apply assign_through_preserves in Ha. apply IH in H.
    eapply P_trans; eassumption.
Qed.

Lemma copy_backward_loop_preserves mv n last d_last h r h' :
  copy_backward_loop mv n last d_last h = Ret (r, h') -> P h h'.
Proof using P_refl P_trans P_store.
  revert last d_last h. induction n as [|n IH]; intros last d_last h H; simpl in H.
  - apply ret_inv in H as [_ ->]. apply P_refl.
  - apply bind_Ret_inv in H as (u & h1 & Ha & H).
    apply assign_through_preserves in Ha. apply IH in H.
    eapply P_trans; eassumption.
Qed.

Lemma fill_loop_preserves n first value h u h' :
  fill_loop n first value h = Ret (u, h') -> P h h'.
Proof using P_refl P_trans P_store.
  revert first h. induction n as [|n IH]; intros first h H; simpl in H.
  - apply ret_inv in H as [_ ->]. apply P_refl.
  - apply bind_Ret_inv in H as (u1 & h1 & Hst & H).
    apply P_store in Hst. apply IH in H. eapply P_trans; eassumption.
Qed.

Lemma std_copy_preserves mv first last d_first h r h' :
  std_copy mv first last d_first h = Ret (r, h') -> P h h'.
Proof using P_refl P_trans P_store.
  unfold std_copy. intros H. apply bind_lift_inv in H as (n & _ & H).
  destruct (n <? 0); [discriminate|]. eapply copy_loop_preserves. exact H.
Qed.

Lemma std_copy_backward_preserves mv first last d_last h r h' :
  std_copy_backward mv first last d_last h = Ret (r, h') -> P h h'.
Proof using P_refl P_trans P_store.
  unfold std_copy_backward. intros H. apply bind_lift_inv in H as (n & _ & H).
  destruct (n <? 0); [discriminate|]. eapply copy_backward_loop_preserves. exact H.
Qed.

Lemma std_fill_preserves first last value h u h' :
  std_fill first last value h = Ret (u, h') -> P h h'.
Proof using P_refl P_trans P_store.
  unfold std_fill. intros H. apply bind_lift_inv in H as (n & _ & H).
  destruct (n <? 0); [discriminate|]. eapply fill_loop_preserves. exact H.
Qed.

End StorePreserved.

Lemma std_copy_same_shape mv first last d_first h r h' :
  std_copy mv first last d_first h = Ret (r, h') -> same_shape h h'.
Proof.
  apply (std_copy_preserves same_shape same_shape_refl same_shape_trans
           store_same_shape).
Qed.

(** A fill that returns stayed inside its array. *)
Lemma fill_loop_bounds n : forall b off value h u h',
  fill_loop n (Ptr b off) value h = Ret (u, h') -> (0 < n)%nat ->
  exists buf,
    block_of h b = Some buf /\ 0 <= off /\
    off + Z.of_nat n <= Z.of_nat (length buf).
Proof.
  induction n as [|n IH]; intros b off value h u h' H Hn; [lia|].
  simpl in H. apply bind_Ret_inv in H as (u1 & h1 & Hst & H).
  apply store_inv in Hst as (b0 & off0 & buf & Hp & Hb & Hoff & ->).
  injection Hp as <- <-.
  exists buf. split; [exact Hb|]. split; [lia|].
  destruct n as [|n]; [lia|].
  apply IH in H as (buf1 & Hb1 & Hoff1 & Hend); [|lia].
  rewrite block_of_insert in Hb1 by (eapply block_of_lt; eassumption).
  injection Hb1 as <-. rewrite length_insert in Hend. lia.
Qed.

Lemma Realloc_inv_fresh new_capacity this h tmp this1 h1 :
  Realloc new_capacity this h = Ret ((tmp, this1), h1) ->
  block_of h1 (length h) =
    Some (replicate (Z.to_nat (if new_capacity =? 0 then 1 else new_capacity)) None).
Proof.
  unfold Realloc, ArrayPtr_sized.
  set (c := if new_capacity =? 0 then 1 else new_capacity).
  assert (Hc : (c =? 0) = false).
  { unfold c. destruct (Z.eqb_spec new_capacity 0); [reflexivity|].
    apply Z.eqb_neq. assumption. }
  rewrite Hc. unfold bind, new_array, ret. simpl.
  destruct (alloc_limit <? c); [discriminate|].
  intros H. injection H as _ _ <-. apply block_of_fresh.
Qed.

(** X19: [Resize] computes the new capacity as [2 * new_size] in [size_t].
    For a [new_size] of 2^63 or more the product wraps around to less than
    [new_size], so the array it asks for is too short for the elements it
    is about to fill in: the call never returns a vector.  Either the
    allocation fails or the copy or the fill runs past the end of the new
    array. *)
Theorem Resize_half_range_never_returns h this l new_size :
  holds h this l -> capacity_ this <= alloc_limit -> alloc_limit < 2 ^ 63 ->
  2 ^ 63 <= new_size < size_t_modulus ->
  to_size_t (capacity_multiplier * new_size) < new_size /\
  forall r, Resize new_size this h <> Ret r.
Proof.
  intros Hholds Hcap Hlim Hn.
  destruct (holds_size _ _ _ Hholds) as [Hsz Hle].
  assert (Hwrap : to_size_t (capacity_multiplier * new_size) =
                  2 * new_size - 2 ^ 64).
  { unfold to_size_t, capacity_multiplier, size_t_modulus in *. symmetry.
    apply (Z.mod_unique _ _ 1); lia. }
  split; [unfold size_t_modulus in *; lia|].
  intros [this' h'] Hrun. unfold Resize in Hrun.
  destruct (Z.leb_spec new_size (size_ this)); [lia|].
  destruct (Z.ltb_spec new_size (capacity_ this)); [lia|].
  apply bind_Ret_inv in Hrun as ([tmp this1] & h1 & Hre & Hrun).
  pose proof (Realloc_inv_fresh _ _ _ _ _ _ Hre) as Hfresh.
  apply Realloc_inv in Hre as (-> & Hsz1 & Hnew & _).
  apply bind_Ret_inv in Hrun as (q & h2 & Hcp & Hrun).
  apply std_copy_same_shape in Hcp.
  destruct (Hcp _ _ Hfresh) as (buf2 & Hb2 & Hlen2).
  rewrite length_replicate in Hlen2.
  apply bind_Ret_inv in Hrun as (u & h3 & Hfill & _).
  unfold std_fill in Hfill. rewrite Hnew, Hsz1 in Hfill. simpl in Hfill.
  rewrite Nat.eqb_refl in Hfill.
  apply bind_lift_inv in Hfill as (n & Hdiff & Hfill). injection Hdiff as <-.
  destruct (Z.ltb_spec (0 + new_size - (0 + size_ this)) 0); [discriminate|].
  apply fill_loop_bounds in Hfill as (buf & Hb & _ & Hend); [|lia].
  rewrite Hb2 in Hb. injection Hb as <-.
  rewrite Hwrap in Hlen2. unfold size_t_modulus in *.
  destruct (Z.eqb_spec (2 * new_size - 2 ^ 64) 0); lia.
Qed.

(** ** A run of PushBacks *)

(** X20: calling [PushBack] on each item of a list in turn appends the
    items in order behind the elements the vector held.  The capacity
    grows by doubling only when the vector is full, so it ends no larger
    than the capacity it started with or twice the size before the last
    item, whichever is larger, or 1 for a vector that started without an
    array. *)
Theorem PushBack_each_appends items : forall h this l,
  holds h this l -> alloc_limit < size_t_modulus ->
  2 * Z.of_nat (length l + length items) <= alloc_limit ->
  exists h' this',
    PushBack_each items this h = Ret (this', h') /\
    holds h' this' (l ++ items) /\
    GetSize this' = GetSize this + Z.of_nat (length items) /\
    GetCapacity this' <=
      Z.max (GetCapacity this) (Z.max 1 (2 * (GetSize this' - 1))).
Proof.
  unfold GetSize, GetCapacity.
  induction items as [|x items IH]; intros h this l Hholds Hlim Hgrant.
  - exists h, this. split; [reflexivity|]. rewrite app_nil_r.
    split; [exact Hholds|]. split; simpl; lia.
  - destruct (holds_size _ _ _ Hholds) as [Hsz Hle].
    simpl length in Hgrant.
    destruct (PushBack_holds false h this l x Hholds Hlim)
      as (h1 & this1 & Hrun1 & Hres1 & Hsz1 & Hcap1 & _).
    { intros Hfull. unfold capacity_multiplier. lia. }
    destruct (IH h1 this1 (l ++ [x]) Hres1 Hlim)
      as (h' & this' & Hrun & Hres & Hsz' & Hcap').
    { rewrite length_app. simpl. lia. }
    exists h', this'. split; [|split; [|split]].
    + simpl. erewrite bind_Ret by exact Hrun1. exact Hrun.
    + rewrite <- (assoc_L app) in Hres. exact Hres.
    + simpl length. lia.
    + destruct (Z.ltb_spec (size_ this) (capacity_ this));
        [|destruct (Z.eqb_spec (capacity_ this) 0)]; lia.
Qed.

(** ** The copying Insert on a full vector *)

Lemma bind_Undefined {A B} (m : M A) (k : A -> M B) h :
  m h = Undefined -> bind m k h = Undefined.
Proof. unfold bind. intros ->. reflexivity. Qed.

(** [std::copy_backward] of two or more slots to a destination range that
    ends right after the first slot of its array writes before the array. *)
Lemma copy_backward_loop_underrun mv n bs bd (e : nat) h sbuf dbuf :
  bs <> bd -> block_of h bs = Some sbuf -> block_of h bd = Some dbuf ->
  (2 <= n)%nat -> (n <= e <= length sbuf)%nat -> (1 <= length dbuf)%nat ->
  copy_backward_loop mv n (Ptr bs (Z.of_nat e)) (Ptr bd 1) h = Undefined.
Proof.
  intros Hne Hs Hd Hn He Hdl.
  destruct n as [|[|n]]; [lia|lia|].
  destruct (lookup_lt_is_Some_2 sbuf (e - 1)) as [x Hx]; [lia|].
  destruct (lookup_lt_is_Some_2 sbuf (e - 2)) as [y Hy]; [lia|].
  change (copy_backward_loop mv (S (S n)) (Ptr bs (Z.of_nat e)) (Ptr bd 1) h)
    with ((assign_through mv (Ptr bd 1 +ₚ (-1)) (Ptr bs (Z.of_nat e) +ₚ (-1)) ;;
           copy_backward_loop mv (S n) (Ptr bs (Z.of_nat e) +ₚ (-1))
             (Ptr bd 1 +ₚ (-1))) h).
  simpl ptr_add.
  replace (Z.of_nat e + -1) with (Z.of_nat (e - 1)) by lia.
  change (1 + -1) with (Z.of_nat 0).
  erewrite bind_Ret by (eapply assign_through_cross; eauto; lia).
  simpl copy_backward_loop. apply bind_Undefined.
  unfold assign_through. simpl ptr_add.
  replace (Z.of_nat (e - 1) + -1) with (Z.of_nat (e - 2)) by lia.
  set (sbuf' := if mv then <[(e - 1)%nat := None]> sbuf else sbuf).
  erewrite bind_Ret.
  2:{ apply (load_at _ bs sbuf' (e - 2) y).
      - apply block_of_insert. rewrite length_insert. eapply block_of_lt; eauto.
      - unfold sbuf'. destruct mv; [rewrite list_lookup_insert_ne by lia|]; exact Hy. }
  apply bind_Undefined. unfold store.
  match goal with |- context [block_of ?hh bd] => destruct (block_of hh bd) end;
    reflexivity.
Qed.

(** X21: on a full vector the copying [Insert] is right only at [end()].
    Its growing branch ends the shifted range at [data_ + 1]: with two or
    more elements at or after the position the shift writes before the new
    array, which is undefined behaviour; with exactly one, the call returns
    a vector of size [size_ + 1] whose last slot was never written, so the
    invariant is broken and reading the last element is undefined
    behaviour.  The value inserted is an object outside the arrays. *)
Theorem Insert_copy_full_misbehaves h this l (dist : nat) (value : T) :
  holds h this l -> size_ this = capacity_ this ->
  alloc_limit < size_t_modulus ->
  capacity_multiplier * capacity_ this <= alloc_limit ->
  ((dist + 2 <= length l)%nat ->
   Insert_copy (begin_ this +ₚ Z.of_nat dist) (ref_object value) this h = Undefined) /\
  ((dist + 1 = length l)%nat ->
   exists h' this' it,
     Insert_copy (begin_ this +ₚ Z.of_nat dist) (ref_object value) this h =
       Ret ((it, this'), h') /\
     GetSize this' = GetSize this + 1 /\
     load_value (begin_ this' +ₚ size_ this) h' = Undefined /\
     ~ invariant h' this').
Proof.
  intros Hholds Hfull Hlim Hgrow. unfold capacity_multiplier in *.
  assert (Hpre : (dist + 1 <= length l)%nat ->
    exists b buf c h2 nb1,
      Get (data_ this) = Ptr b 0 /\ b <> length h /\
      length buf = length l /\ c = 2 * capacity_ this /\
      block_of h2 b = Some buf /\ block_of h2 (length h) = Some nb1 /\
      length nb1 = Z.to_nat c /\
      (forall i, (dist <= i < length nb1)%nat -> nb1 !! i = Some None) /\
      Insert_copy (begin_ this +ₚ Z.of_nat dist) (ref_object value) this h =
        (let* q := std_copy_backward false (Ptr b (Z.of_nat dist))
                     (Ptr b (Z.of_nat (length l))) (Ptr (length h) 1) in
         store (Ptr (length h) (Z.of_nat dist)) (Some value) ;;
         ArrayPtr_destroy (data_ this) ;;
         ret (Ptr (length h) (Z.of_nat dist),
              {| data_ := {| raw_ptr_ := Ptr (length h) 0 |};
                 size_ := size_ this + 1; capacity_ := c |})) h2).
  { intros Hd.
    destruct (holds_ptr_diff h this l dist Hholds) as [Hdiff Hsmall]; [lia|].
    destruct (holds_size _ _ _ Hholds) as [Hsz Hle].
    destruct (holds_nonempty h this l Hholds)
      as (b & buf & Hp & Hb & Hcap & Htake & Hlen); [lia|].
    destruct (holds_array h this l Hholds) as (_ & _ & _ & Hmod & _).
    set (c := 2 * capacity_ this).
    assert (Hc : (if c =? 0 then 1 else c) = c).
    { destruct (Z.eqb_spec c 0); unfold c in *; lia. }
    set (fresh := replicate (Z.to_nat c) (@None T)).
    set (h1 := h ++ [Some fresh]).
    set (np := Ptr (length h) 0).
    pose proof (block_of_lt _ _ _ Hb) as Hblt.
    assert (Hflen : length fresh = Z.to_nat c) by apply length_replicate.
    assert (Ha1 : array_at h1 (Ptr b 0) buf).
    { split; [reflexivity|]. apply block_of_app. exact Hb. }
    assert (Hn1 : array_at h1 np fresh).
    { split; [reflexivity|]. apply block_of_fresh. }
    assert (Hap : apart (Ptr b 0) np) by (simpl; lia).
    set (nb1 := take dist buf ++ drop dist fresh).
    set (h2 := set_array (set_array h1 (Ptr b 0) (wipe false buf 0 dist)) np nb1).
    exists b, buf, c, h2, nb1.
    split; [exact Hp|]. split; [lia|]. split; [lia|]. split; [reflexivity|].
    assert (Hnl1 : length nb1 = Z.to_nat c).
    { unfold nb1. rewrite length_app, length_take, length_drop. lia. }
    split; [|split; [|split; [exact Hnl1|split]]].
    - unfold h2, wipe. rewrite (set_array_id h1 _ buf Ha1). simpl.
      rewrite block_of_insert_ne by lia. apply block_of_app. exact Hb.
    - unfold h2. simpl. apply block_of_insert.
      rewrite length_insert. unfold h1. rewrite length_app. simpl. lia.
    - intros i Hi. unfold nb1.
      rewrite lookup_app_r by (rewrite length_take; lia).
      rewrite length_take, Nat.min_l by lia.
      rewrite lookup_drop. unfold fresh. apply lookup_replicate_2. lia.
    - unfold Insert_copy, capacity_multiplier.
      rewrite Hdiff, bind_lift_Ret. cbv beta zeta. rewrite Hsmall.
      replace (size_ this <? capacity_ this) with false
        by (symmetry; apply Z.ltb_ge; lia).
      rewrite (to_size_t_small (2 * capacity_ this)) by lia. fold c.
      erewrite bind_Ret by (apply Realloc_ok; rewrite Hc; lia).
      cbv beta iota. rewrite Hc. fold fresh. fold h1. simpl size_. simpl data_.
      change (Get {| raw_ptr_ := Ptr (length h) 0 |}) with np.
      rewrite Hp.
      erewrite bind_Ret
        by (apply std_copy_prefix; [exact Ha1|exact Hn1|exact Hap|lia|lia]).
      fold nb1. fold h2. rewrite Hsz.
      unfold ArrayPtr_index. simpl raw_ptr_. simpl ptr_add.
      rewrite !Z.add_0_l. rewrite to_size_t_small by lia.
      apply bind_ext. intros q h3 _. apply bind_ext. intros u h4 _.
      unfold ArrayPtr_destroy. change (raw_ptr_ (data_ this)) with (Get (data_ this)).
      rewrite Hp. reflexivity. }
  split.
  - intros Hd.
    destruct Hpre as (b & buf & c & h2 & nb1 & Hp & Hne & Hlen & Hc & Hb2 & Hn2 &
                      Hnl1 & _ & Hrun); [lia|].
    rewrite Hrun. apply bind_Undefined.
    unfold std_copy_backward. simpl ptr_diff. rewrite Nat.eqb_refl, bind_lift_Ret.
    destruct (Z.ltb_spec (Z.of_nat (length l) - Z.of_nat dist) 0); [lia|].
    apply (copy_backward_loop_underrun false _ b (length h) (length l) h2 buf nb1);
      try assumption; try lia.
    destruct (holds_size _ _ _ Hholds) as [Hsz Hle]. lia.
  - intros Hd.
    destruct Hpre as (b & buf & c & h2 & nb1 & Hp & Hne & Hlen & Hc & Hb2 & Hn2 &
                      Hnl1 & Hnone & Hrun); [lia|].
    destruct (holds_size _ _ _ Hholds) as [Hsz Hle].
    assert (Hcz : Z.to_nat c = (2 * length l)%nat) by lia.
    set (np := Ptr (length h) 0).
    assert (Ha2 : array_at h2 (Ptr b 0) buf) by (split; [reflexivity|exact Hb2]).
    assert (Hn2' : array_at h2 np nb1) by (split; [reflexivity|exact Hn2]).
    assert (Hap : apart (Ptr b 0) np) by (simpl; exact Hne).
    set (nb2 := blit buf dist 1 nb1 0).
    set (h3 := set_array (set_array h2 (Ptr b 0) (wipe false buf dist 1)) np nb2).
    assert (Hcb : std_copy_backward false (Ptr b (Z.of_nat dist))
                    (Ptr b (Z.of_nat (length l))) (Ptr (length h) 1) h2 =
                  Ret (np +ₚ Z.of_nat (1 - 1), h3)).
    { pose proof (std_copy_backward_arrays false h2 (Ptr b 0) np buf nb1 dist 1 1
                    Ha2 Hn2' Hap) as H.
      simpl ptr_add in H. rewrite !Z.add_0_l in H.
      replace (dist + 1)%nat with (length l) in H by lia.
      apply H; lia. }
    assert (Hnl2 : length nb2 = length nb1) by (apply blit_length; lia).
    assert (Hb3 : block_of h3 b = Some buf).
    { unfold h3, wipe. rewrite (set_array_id h2 _ buf Ha2). simpl.
      rewrite block_of_insert_ne by lia. exact Hb2. }
    assert (Hn3 : block_of h3 (length h) = Some nb2).
    { unfold h3. simpl. apply block_of_insert. rewrite length_insert.
      eapply block_of_lt. exact Hn2. }
    set (nb3 := <[dist := Some value]> nb2).
    set (h4 := <[length h := Some nb3]> h3).
    assert (Ha4 : array_at h4 (Get (data_ this)) buf).
    { rewrite Hp. split; [reflexivity|]. unfold h4.
      rewrite block_of_insert_ne by lia. exact Hb3. }
    set (this' := {| data_ := {| raw_ptr_ := Ptr (length h) 0 |};
                     size_ := size_ this + 1; capacity_ := c |}).
    set (h' := free_array h4 (Get (data_ this))).
    assert (Hn' : block_of h' (length h) = Some nb3).
    { unfold h'. rewrite Hp. simpl. rewrite block_of_insert_ne by lia.
      unfold h4. apply block_of_insert. eapply block_of_lt. exact Hn3. }
    assert (Hlast : nb3 !! length l = Some None).
    { unfold nb3. rewrite list_lookup_insert_ne by lia.
      unfold nb2. rewrite blit_lookup by lia.
      case_decide; [lia|]. apply Hnone. lia. }
    exists h', this', (Ptr (length h) (Z.of_nat dist)).
    split; [|split; [reflexivity|split]].
    + rewrite Hrun.
      erewrite bind_Ret by exact Hcb.
      erewrite bind_Ret by (eapply store_at; [exact Hn3|lia]).
      fold nb3. fold h4.
      erewrite bind_Ret by (eapply ArrayPtr_destroy_free; exact Ha4).
      reflexivity.
    + unfold load_value, begin_. simpl. rewrite Z.add_0_l, Hsz.
      erewrite bind_Ret by (eapply load_at; [exact Hn'|exact Hlast]).
      reflexivity.
    + intros (bufi & Hbi & _ & _ & _ & Hlive).
      unfold buffer in Hbi. simpl in Hbi. rewrite Hn' in Hbi. injection Hbi as <-.
      simpl in Hlive. rewrite Forall_lookup in Hlive.
      destruct (Hlive (length l) None) as [x Hx]; [|discriminate].
      rewrite lookup_take_lt by lia. exact Hlast.
Qed.

(** ** Arrays allocated and released *)

Lemma live_arrays_app h1 h2 :
  live_arrays (h1 ++ h2) = (live_arrays h1 + live_arrays h2)%nat.
Proof.
  induction h1 as [|[buf|] h1 IH]; simpl; [reflexivity|rewrite IH; reflexivity|exact IH].
Qed.

Lemma live_arrays_insert_Some h b buf buf' :
  block_of h b = Some buf -> live_arrays (<[b := Some buf']> h) = live_arrays h.
Proof.
  rewrite block_of_lookup. revert b.
  induction h as [|o h IH]; intros [|b] Hb; try discriminate.
  - simpl in Hb. injection Hb as ->. reflexivity.
  - simpl in Hb. simpl. rewrite (IH b Hb). reflexivity.
Qed.

Lemma live_arrays_insert_None h b buf :
  block_of h b = Some buf -> S (live_arrays (<[b := None]> h)) = live_arrays h.
Proof.
  rewrite block_of_lookup. revert b.
  induction h as [|o h IH]; intros [|b] Hb; try discriminate.
  - simpl in Hb. injection Hb as ->. reflexivity.
  - simpl in Hb. simpl. destruct o; rewrite <- (IH b Hb); reflexivity.
Qed.

Lemma store_live p s h u h' :
  store p s h = Ret (u, h') -> live_arrays h' = live_arrays h.
Proof.
  intros H. apply store_inv in H as (b & off & buf & _ & Hb & _ & ->).
  eapply live_arrays_insert_Some. exact Hb.
Qed.

Lemma live_trans (h1 h2 h3 : heap) :
  live_arrays h2 = live_arrays h1 -> live_arrays h3 = live_arrays h2 ->
  live_arrays h3 = live_arrays h1.
Proof. congruence. Qed.

Lemma std_copy_live mv first last d_first h r h' :
  std_copy mv first last d_first h = Ret (r, h') -> live_arrays h' = live_arrays h.
Proof.
  apply (std_copy_preserves (fun h h' => live_arrays h' = live_arrays h)
           (fun _ => eq_refl) live_trans store_live).
Qed.

Lemma std_copy_backward_live mv first last d_last h r h' :
  std_copy_backward mv first last d_last h = Ret (r, h') ->
  live_arrays h' = live_arrays h.
Proof.
  apply (std_copy_backward_preserves (fun h h' => live_arrays h' = live_arrays h)
           (fun _ => eq_refl) live_trans store_live).
Qed.

Lemma std_fill_live first last value h u h' :
  std_fill first last value h = Ret (u, h') -> live_arrays h' = live_arrays h.
Proof.
  apply (std_fill_preserves (fun h h' => live_arrays h' = live_arrays h)
           (fun _ => eq_refl) live_trans store_live).
Qed.

Lemma ArrayPtr_destroy_live a this h u h' :
  ArrayPtr_destroy a h = Ret (u, h') -> a = data_ this ->
  (live_arrays h' + owned_arrays this)%nat = live_arrays h.
Proof.
  intros H ->. revert H. unfold ArrayPtr_destroy, delete_array, owned_arrays, Get.
  destruct (raw_ptr_ (data_ this)) as [|b off].
  - intros H. injection H as _ <-. lia.
  - destruct (block_of h b) as [buf|] eqn:Hb; [|discriminate].
    destruct (off =? 0); [|discriminate].
    intros H. injection H as _ <-.
    pose proof (live_arrays_insert_None h b buf Hb). lia.
Qed.

Lemma Realloc_live new_capacity this h tmp this1 h1 :
  Realloc new_capacity this h = Ret ((tmp, this1), h1) ->
  tmp = data_ this /\ owned_arrays this1 = 1%nat /\
  live_arrays h1 = S (live_arrays h).
Proof.
  intros H. apply Realloc_inv in H as (-> & _ & Hnew & fresh & ->).
  split; [reflexivity|]. split; [unfold owned_arrays; rewrite Hnew; reflexivity|].
  rewrite live_arrays_app. simpl. lia.
Qed.

Lemma assign_from_live mv dst item h u h' :
  assign_from mv dst item h = Ret (u, h') -> live_arrays h' = live_arrays h.
Proof.
  destruct item as [x|src]; simpl.
  - apply store_live.
  - apply (assign_through_preserves (fun h h' => live_arrays h' = live_arrays h)
             (fun _ => eq_refl) live_trans store_live).
Qed.

Lemma PushBack_live (mv : bool) item this h this' h' :
  (if mv then PushBack_move else PushBack_copy) item this h = Ret (this', h') ->
  (live_arrays h' + owned_arrays this = live_arrays h + owned_arrays this')%nat.
Proof.
  intros H.
  assert (H' : (if size_ this <? capacity_ this then
                  assign_from mv (ArrayPtr_index (data_ this) (size_ this)) item ;;
                  ret (with_size this (to_size_t (size_ this + 1)))
                else
                  let* (tmp, this) :=
                    Realloc (to_size_t (capacity_multiplier * capacity_ this)) this in
                  std_copy mv (Get tmp) (Get tmp +ₚ size_ this) (Get (data_ this)) ;;
                  assign_from mv (ArrayPtr_index (data_ this) (size_ this)) item ;;
                  let this := with_size this (to_size_t (size_ this + 1)) in
                  ArrayPtr_destroy tmp ;;
                  ret this) h = Ret (this', h')).
  { destruct mv; exact H. }
  clear H. destruct (size_ this <? capacity_ this).
  - apply bind_Ret_inv in H' as (u & h1 & Hst & H).
    apply ret_inv in H as [-> ->]. apply assign_from_live in Hst.
    unfold owned_arrays. simpl. lia.
  - apply bind_Ret_inv in H' as ([tmp this1] & h1 & Hre & H).
    apply Realloc_live in Hre as (Htmp & Hown & Hl1).
    apply bind_Ret_inv in H as (r & h2 & Hcp & H). apply std_copy_live in Hcp.
    apply bind_Ret_inv in H as (u & h3 & Hst & H). apply assign_from_live in Hst.
    cbv zeta in H. apply bind_Ret_inv in H as (u' & h4 & Hde & H).
    apply (ArrayPtr_destroy_live _ this) in Hde; [|exact Htmp].
    apply ret_inv in H as [-> ->].
    change (owned_arrays (with_size this1 (to_size_t (size_ this1 + 1))))
      with (owned_arrays this1).
    lia.
Qed.

Lemma Insert_live (mv : bool) pos value this h it this' h' :
  (if mv then Insert_move else Insert_copy) pos value this h = Ret ((it, this'), h') ->
  (live_arrays h' + owned_arrays this = live_arrays h + owned_arrays this')%nat.
Proof.
  intros H.
  assert (H' : exists d_last : SimpleVector -> pointer,
             (let* d := lift (ptr_diff pos (Get (data_ this))) in
              let dist := to_size_t d in
              if size_ this <? capacity_ this then
                std_copy_backward mv (Get (data_ this) +ₚ dist)
                  (Get (data_ this) +ₚ size_ this)
                  (Get (data_ this) +ₚ size_ this +ₚ 1) ;;
                assign_from mv (ArrayPtr_index (data_ this) dist) value ;;
                let this := with_size this (to_size_t (size_ this + 1)) in
                ret (Get (data_ this) +ₚ dist, this)
              else
                let* (tmp, this) :=
                  Realloc (to_size_t (capacity_multiplier * capacity_ this)) this in
                std_copy mv (Get tmp) (Get tmp +ₚ dist) (Get (data_ this)) ;;
                std_copy_backward mv (Get tmp +ₚ dist) (Get tmp +ₚ size_ this)
                  (d_last this) ;;
                assign_from mv (ArrayPtr_index (data_ this) dist) value ;;
                let this := with_size this (to_size_t (size_ this + 1)) in
                ArrayPtr_destroy tmp ;;
                ret (Get (data_ this) +ₚ dist, this)) h = Ret ((it, this'), h')).
  { destruct mv.
    - exists (fun v => Get (data_ v) +ₚ size_ v +ₚ 1). exact H.
    - exists (fun v => Get (data_ v) +ₚ 1). exact H. }
  clear H. destruct H' as (d_last & H).
  apply bind_lift_inv in H as (d & Hd & H). cbv zeta in H.
  destruct (size_ this <? capacity_ this).
  - apply bind_Ret_inv in H as (q & h1 & Hcb & H). apply std_copy_backward_live in Hcb.
    apply bind_Ret_inv in H as (u & h2 & Hst & H). apply assign_from_live in Hst.
    apply ret_inv in H as [Heq ->]. injection Heq as _ ->.
    unfold owned_arrays. simpl. lia.
  - apply bind_Ret_inv in H as ([tmp this1] & h1 & Hre & H).
    apply Realloc_live in Hre as (Htmp & Hown & Hl1).
    apply bind_Ret_inv in H as (q & h2 & Hcp & H). apply std_copy_live in Hcp.
    apply bind_Ret_inv in H as (q' & h3 & Hcb & H). apply std_copy_backward_live in Hcb.
    apply bind_Ret_inv in H as (u & h4 & Hst & H). apply assign_from_live in Hst.
    apply bind_Ret_inv in H as (u' & h5 & Hde & H).
    apply (ArrayPtr_destroy_live _ this) in Hde; [|exact Htmp].
    apply ret_inv in H as [Heq ->]. injection Heq as _ ->.
    change (owned_arrays (with_size this1 (to_size_t (size_ this1 + 1))))
      with (owned_arrays this1).
    lia.
Qed.

Lemma Erase_live pos this h it this' h' :
  Erase pos this h = Ret ((it, this'), h') ->
  (live_arrays h' + owned_arrays this = live_arrays h + owned_arrays this')%nat.
Proof.
  unfold Erase. intros H. destruct (size_ this >? 0).
  - apply bind_lift_inv in H as (d & Hd & H).
    apply bind_Ret_inv in H as (q & h1 & Hcp & H). apply std_copy_live in Hcp.
    apply ret_inv in H as [Heq ->]. injection Heq as _ ->.
    unfold owned_arrays. simpl. lia.
  - apply ret_inv in H as [Heq ->]. injection Heq as _ ->. lia.
Qed.

Lemma Resize_live new_size this h this' h' :
  Resize new_size this h = Ret (this', h') ->
  (live_arrays h' + owned_arrays this = live_arrays h + owned_arrays this')%nat.
Proof.
  unfold Resize. intros H. destruct (new_size <=? size_ this).
  { apply ret_inv in H as [-> ->]. unfold owned_arrays. simpl. lia. }
  destruct (new_size <? capacity_ this).
  - apply bind_Ret_inv in H as (u & h1 & Hfl & H). apply std_fill_live in Hfl.
    apply ret_inv in H as [-> ->]. unfold owned_arrays. simpl. lia.
  - apply bind_Ret_inv in H as ([tmp this1] & h1 & Hre & H).
    apply Realloc_live in Hre as (Htmp & Hown & Hl1).
    apply bind_Ret_inv in H as (q & h2 & Hcp & H). apply std_copy_live in Hcp.
    apply bind_Ret_inv in H as (u & h3 & Hfl & H). apply std_fill_live in Hfl.
    apply bind_Ret_inv in H as (u' & h4 & Hde & H).
    apply (ArrayPtr_destroy_live _ this) in Hde; [|exact Htmp].
    apply ret_inv in H as [-> ->].
    change (owned_arrays (with_size this1 new_size)) with (owned_arrays this1).
    lia.
Qed.

Lemma Reserve_live new_capacity this h this' h' :
  Reserve new_capacity this h = Ret (this', h') ->
  (live_arrays h' + owned_arrays this = live_arrays h + owned_arrays this')%nat.
Proof.
  unfold Reserve. intros H. destruct (capacity_ this <? new_capacity).
  - apply bind_Ret_inv in H as ([tmp this1] & h1 & Hre & H).
    apply Realloc_live in Hre as (Htmp & Hown & Hl1).
    apply bind_Ret_inv in H as (q & h2 & Hcp & H). apply std_copy_live in Hcp.
    apply bind_Ret_inv in H as (u' & h4 & Hde & H).
    apply (ArrayPtr_destroy_live _ this) in Hde; [|exact Htmp].
    apply ret_inv in H as [-> ->]. lia.
  - apply ret_inv in H as [-> ->]. lia.
Qed.

(** X22: no call leaks an array or releases one twice.  Whenever
    [PushBack], [Insert], [Erase], [Resize] or [Reserve] returns, the number
    of allocated arrays other than the vector's own is what it was before:
    a call that grows allocates one array and releases the one it replaces,
    and a vector that had no array ends up owning the one array that was
    added. *)
Theorem mutators_release_what_they_replace this h this' h' pos it item n :
  PushBack_copy item this h = Ret (this', h') \/
  PushBack_move item this h = Ret (this', h') \/
  Insert_copy pos item this h = Ret ((it, this'), h') \/
  Insert_move pos item this h = Ret ((it, this'), h') \/
  Erase pos this h = Ret ((it, this'), h') \/
  Resize n this h = Ret (this', h') \/
  Reserve n this h = Ret (this', h') ->
  (live_arrays h' + owned_arrays this = live_arrays h + owned_arrays this')%nat.
Proof.
  intros [H|[H|[H|[H|[H|[H|H]]]]]].
  - exact (PushBack_live false _ _ _ _ _ H).
  - exact (PushBack_live true _ _ _ _ _ H).
  - exact (Insert_live false _ _ _ _ _ _ _ H).
  - exact (Insert_live true _ _ _ _ _ _ _ H).
  - exact (Erase_live _ _ _ _ _ _ H).
  - exact (Resize_live _ _ _ _ _ H).
  - exact (Reserve_live _ _ _ _ _ H).
Qed.

(** ** PushBack inside the capacity *)

Lemma with_size_same this : with_size this (size_ this) = this.
Proof. destruct this. reflexivity. Qed.

(** X23: while the size stays within the capacity, [PushBack] never
    allocates: a run of [PushBack]s that fits appends the items and leaves
    the vector in the same array with the same capacity, so iterators
    obtained before stay valid.  This is what a preceding [Reserve] buys. *)
Theorem PushBack_each_within_capacity items : forall h this l,
  holds h this l -> size_ this + Z.of_nat (length items) <= capacity_ this ->
  exists h',
    PushBack_each items this h =
      Ret (with_size this (size_ this + Z.of_nat (length items)), h') /\
    holds h' (with_size this (size_ this + Z.of_nat (length items))) (l ++ items) /\
    length h' = length h /\ live_arrays h' = live_arrays h.
Proof.
  induction items as [|x items IH]; intros h this l Hholds Hfit.
  - exists h. simpl. rewrite Z.add_0_r, with_size_same, app_nil_r.
    split; [reflexivity|]. split; [exact Hholds|]. split; reflexivity.
  - simpl length in Hfit.
    assert (Hlt : size_ this < capacity_ this) by lia.
    destruct (push_in_place h this l x Hholds Hlt) as (h1 & Hrun1 & Hres1).
    destruct (IH h1 _ _ Hres1) as (h' & Hrun & Hres & Hlen & Hlive).
    { simpl. lia. }
    assert (Hshape : length h1 = length h /\ live_arrays h1 = live_arrays h).
    { apply bind_Ret_inv in Hrun1 as (u & h0 & Hst & Hret).
      apply ret_inv in Hret as [_ ->]. split.
      - apply store_keeps in Hst as [Hl _]. exact Hl.
      - apply store_live in Hst. exact Hst. }
    simpl size_ in Hrun, Hres.
    replace (size_ this + 1 + Z.of_nat (length items))
      with (size_ this + Z.of_nat (length (x :: items))) in Hrun, Hres
      by (simpl length; lia).
    exists h'. split; [|split; [|split]].
    + simpl PushBack_each. unfold PushBack_copy.
      replace (size_ this <? capacity_ this) with true
        by (symmetry; apply Z.ltb_lt; exact Hlt).
      erewrite bind_Ret by exact Hrun1. exact Hrun.
    + rewrite <- (assoc_L app) in Hres. exact Hres.
    + lia.
    + lia.
Qed.

(** ** Copies *)

Lemma list_eqb_refl l : (forall x, Type_eqb x x = true) -> list_eqb l l = true.
Proof.
  intros Hrefl. induction l as [|x l IH]; simpl; [reflexivity|].
  rewrite Hrefl. exact IH.
Qed.

(** X4: the copy constructor makes a deep copy.  The new vector has the
    elements, the size and the capacity of the source, in an array of its
    own; it compares equal to the source when [Type]'s [operator==] is
    reflexive.  Assigning to an element of the copy through [operator[]]
    changes that element of the copy and nothing of the source, and
    assigning to an element of the source changes nothing of the copy. *)
Theorem SimpleVector_copy_independent other l h (i : nat) x :
  holds h other l -> capacity_ other <= alloc_limit -> (i < length l)%nat ->
  exists h1 this,
    SimpleVector_copy other h = Ret (this, h1) /\
    holds h1 this l /\ holds h1 other l /\
    GetSize this = GetSize other /\ GetCapacity this = GetCapacity other /\
    (forall v lv, holds h v lv -> holds h1 v lv) /\
    ((forall y, Type_eqb y y = true) -> operator_eq this other h1 = Ret (true, h1)) /\
    (exists h2,
       store (subscript (Z.of_nat i) this) (Some x) h1 = Ret (tt, h2) /\
       holds h2 this (<[i := x]> l) /\ holds h2 other l) /\
    (exists h2,
       store (subscript (Z.of_nat i) other) (Some x) h1 = Ret (tt, h2) /\
       holds h2 other (<[i := x]> l) /\ holds h2 this l).
Proof.
  intros Hholds Hlim Hi.
  destruct (SimpleVector_copy_holds other l h Hholds Hlim)
    as (h1 & this & Hrun & Hthis & Hother & Hsz & Hcap & Hap & Hext).
  exists h1, this. split; [exact Hrun|]. split; [exact Hthis|].
  split; [exact Hother|]. split; [exact Hsz|]. split; [exact Hcap|].
  split; [intros v lv; apply holds_extends; exact Hext|]. split; [|split].
  - intros Hrefl. rewrite (operator_eq_runs h1 this other l l Hthis Hother).
    rewrite (list_eqb_refl l Hrefl). reflexivity.
  - destruct (subscript_store h1 this l i x Hthis Hi) as (h2 & Hst & Hnew & _ & Hfr).
    exists h2. split; [exact Hst|]. split; [exact Hnew|].
    apply Hfr; [exact Hother|exact Hap].
  - destruct (subscript_store h1 other l i x Hother Hi) as (h2 & Hst & Hnew & _ & Hfr).
    exists h2. split; [exact Hst|]. split; [exact Hnew|].
    apply Hfr; [exact Hthis|apply apart_sym; exact Hap].
Qed.

(** ** Iterators after a reallocation *)

Lemma ArrayPtr_destroy_released a h u h' off :
  ArrayPtr_destroy a h = Ret (u, h') ->
  load (Get a +ₚ off) h' = Undefined /\
  forall s, store (Get a +ₚ off) s h' = Undefined.
Proof.
  unfold ArrayPtr_destroy, delete_array, Get.
  destruct (raw_ptr_ a) as [|b o]; [intros _; split; reflexivity|].
  destruct (block_of h b) as [buf|]; [|discriminate].
  destruct (o =? 0); [|discriminate].
  intros H. injection H as _ <-.
  pose proof (block_of_released h b 0) as Hrel. simpl in Hrel.
  unfold load, store. simpl. rewrite Hrel. split; reflexivity.
Qed.

Lemma PushBack_grow_released (mv : bool) item this h this' h' off :
  capacity_ this <= size_ this ->
  (if mv then PushBack_move else PushBack_copy) item this h = Ret (this', h') ->
  Get (data_ this') = Ptr (length h) 0 /\
  load (begin_ this +ₚ off) h' = Undefined /\
  forall s, store (begin_ this +ₚ off) s h' = Undefined.
Proof.
  intros Hfull H.
  assert (H' : (if size_ this <? capacity_ this then
                  assign_from mv (ArrayPtr_index (data_ this) (size_ this)) item ;;
                  ret (with_size this (to_size_t (size_ this + 1)))
                else
                  let* (tmp, this) :=
                    Realloc (to_size_t (capacity_multiplier * capacity_ this)) this in
                  std_copy mv (Get tmp) (Get tmp +ₚ size_ this) (Get (data_ this)) ;;
                  assign_from mv (ArrayPtr_index (data_ this) (size_ this)) item ;;
                  let this := with_size this (to_size_t (size_ this + 1)) in
                  ArrayPtr_destroy tmp ;;
                  ret this) h = Ret (this', h')).
  { destruct mv; exact H. }
  clear H. destruct (Z.ltb_spec (size_ this) (capacity_ this)) as [Hc|Hc]; [lia|].
  apply bind_Ret_inv in H' as ([tmp this1] & h1 & Hre & H).
  apply Realloc_inv in Hre as (-> & _ & Hnew & _).
  apply bind_Ret_inv in H as (r & h2 & _ & H).
  apply bind_Ret_inv in H as (u & h3 & _ & H).
  cbv zeta in H. apply bind_Ret_inv in H as (u' & h4 & Hde & H).
  apply ret_inv in H as [-> ->].
  split; [exact Hnew|]. exact (ArrayPtr_destroy_released _ _ _ _ off Hde).
Qed.

Lemma Insert_grow_released (mv : bool) pos value this h it this' h' off :
  capacity_ this <= size_ this ->
  (if mv then Insert_move else Insert_copy) pos value this h = Ret ((it, this'), h') ->
  Get (data_ this') = Ptr (length h) 0 /\
  load (begin_ this +ₚ off) h' = Undefined /\
  forall s, store (begin_ this +ₚ off) s h' = Undefined.
Proof.
  intros Hfull H.
  assert (H' : exists d_last : SimpleVector -> pointer,
             (let* d := lift (ptr_diff pos (Get (data_ this))) in
              let dist := to_size_t d in
              if size_ this <? capacity_ this then
                std_copy_backward mv (Get (data_ this) +ₚ dist)
                  (Get (data_ this) +ₚ size_ this)
                  (Get (data_ this) +ₚ size_ this +ₚ 1) ;;
                assign_from mv (ArrayPtr_index (data_ this) dist) value ;;
                let this := with_size this (to_size_t (size_ this + 1)) in
                ret (Get (data_ this) +ₚ dist, this)
              else
                let* (tmp, this) :=
                  Realloc (to_size_t (capacity_multiplier * capacity_ this)) this in
                std_copy mv (Get tmp) (Get tmp +ₚ dist) (Get (data_ this)) ;;
                std_copy_backward mv (Get tmp +ₚ dist) (Get tmp +ₚ size_ this)
                  (d_last this) ;;
                assign_from mv (ArrayPtr_index (data_ this) dist) value ;;
                let this := with_size this (to_size_t (size_ this + 1)) in
                ArrayPtr_destroy tmp ;;
                ret (Get (data_ this) +ₚ dist, this)) h = Ret ((it, this'), h')).
  { destruct mv.
    - exists (fun v => Get (data_ v) +ₚ size_ v +ₚ 1). exact H.
    - exists (fun v => Get (data_ v) +ₚ 1). exact H. }
  clear H. destruct H' as (d_last & H).
  apply bind_lift_inv in H as (d & Hd & H). cbv zeta in H.
  destruct (Z.ltb_spec (size_ this) (capacity_ this)) as [Hc|Hc]; [lia|].
  apply bind_Ret_inv in H as ([tmp this1] & h1 & Hre & H).
  apply Realloc_inv in Hre as (-> & _ & Hnew & _).
  apply bind_Ret_inv in H as (q & h2 & _ & H).
  apply bind_Ret_inv in H as (q' & h3 & _ & H).
  apply bind_Ret_inv in H as (u & h4 & _ & H).
  apply bind_Ret_inv in H as (u' & h5 & Hde & H).
  apply ret_inv in H as [Heq ->]. injection Heq as _ ->.
  split; [exact Hnew|]. exact (ArrayPtr_destroy_released _ _ _ _ off Hde).
Qed.

Lemma Resize_grow_released new_size this h this' h' off :
  size_ this < new_size -> capacity_ this <= new_size ->
  Resize new_size this h = Ret (this', h') ->
  Get (data_ this') = Ptr (length h) 0 /\
  load (begin_ this +ₚ off) h' = Undefined /\
  forall s, store (begin_ this +ₚ off) s h' = Undefined.
Proof.
  intros Hgt Hge. unfold Resize. intros H.
  destruct (Z.leb_spec new_size (size_ this)) as [Hc1|Hc1]; [lia|].
  destruct (Z.ltb_spec new_size (capacity_ this)) as [Hc2|Hc2]; [lia|].
  apply bind_Ret_inv in H as ([tmp this1] & h1 & Hre & H).
  apply Realloc_inv in Hre as (-> & _ & Hnew & _).
  apply bind_Ret_inv in H as (q & h2 & _ & H).
  apply bind_Ret_inv in H as (u & h3 & _ & H).
  apply bind_Ret_inv in H as (u' & h4 & Hde & H).
  apply ret_inv in H as [-> ->].
  split; [exact Hnew|]. exact (ArrayPtr_destroy_released _ _ _ _ off Hde).
Qed.

Lemma Reserve_grow_released new_capacity this h this' h' off :
  capacity_ this < new_capacity ->
  Reserve new_capacity this h = Ret (this', h') ->
  Get (data_ this') = Ptr (length h) 0 /\
  load (begin_ this +ₚ off) h' = Undefined /\
  forall s, store (begin_ this +ₚ off) s h' = Undefined.
Proof.
  intros Hlt. unfold Reserve. intros H.
  destruct (Z.ltb_spec (capacity_ this) new_capacity) as [Hc|Hc]; [|lia].
  apply bind_Ret_inv in H as ([tmp this1] & h1 & Hre & H).
  apply Realloc_inv in Hre as (-> & _ & Hnew & _).
  apply bind_Ret_inv in H as (q & h2 & _ & H).
  apply bind_Ret_inv in H as (u' & h4 & Hde & H).
  apply ret_inv in H as [-> ->].
  split; [exact Hnew|]. exact (ArrayPtr_destroy_released _ _ _ _ off Hde).
Qed.

(** X24: a reallocation invalidates every iterator into the vector.  When
    [PushBack] or [Insert] runs on a full vector, [Resize] goes to the
    capacity or beyond, or [Reserve] asks for more than the capacity, and
    the call returns, the vector is in a newly allocated array and the array
    it had is released: reading or writing through [begin() + off] as it was
    before the call is undefined behaviour, for every [off]. *)
Theorem growth_invalidates_iterators this h this' h' pos it item n off :
  (capacity_ this <= size_ this /\
   (PushBack_copy item this h = Ret (this', h') \/
    PushBack_move item this h = Ret (this', h') \/
    Insert_copy pos item this h = Ret ((it, this'), h') \/
    Insert_move pos item this h = Ret ((it, this'), h'))) \/
  (size_ this < n /\ capacity_ this <= n /\ Resize n this h = Ret (this', h')) \/
  (capacity_ this < n /\ Reserve n this h = Ret (this', h')) ->
  begin_ this' = Ptr (length h) 0 /\
  load (begin_ this +ₚ off) h' = Undefined /\
  forall s, store (begin_ this +ₚ off) s h' = Undefined.
Proof.
  intros [[Hfull [H|[H|[H|H]]]]|[(Hgt & Hge & H)|[Hlt H]]].
  - exact (PushBack_grow_released false _ _ _ _ _ off Hfull H).
  - exact (PushBack_grow_released true _ _ _ _ _ off Hfull H).
  - exact (Insert_grow_released false _ _ _ _ _ _ _ off Hfull H).
  - exact (Insert_grow_released true _ _ _ _ _ _ _ off Hfull H).
  - exact (Resize_grow_released _ _ _ _ _ off Hgt Hge H).
  - exact (Reserve_grow_released _ _ _ _ _ off Hlt H).
Qed.

(** ** What the assignments leave alone *)

Lemma object_at_Some objs a v h : objs !! a = Some v -> object_at objs a h = Ret (v, h).
Proof. unfold object_at. intros ->. reflexivity. Qed.

Lemma assign_copy_keeps this rhs objs h objs' h' t r :
  objs !! this = Some t -> objs !! rhs = Some r ->
  assign_copy this rhs objs h = Ret (objs', h') ->
  ((length h <= length h')%nat /\
   forall b, (b < length h)%nat -> apart (Get (data_ t)) (Ptr b 0) ->
             apart (Get (data_ r)) (Ptr b 0) -> h' !! b = h !! b) /\
  (forall a, a <> this -> objs' !! a = objs !! a) /\
  exists t', objs' !! this = Some t' /\
    (live_arrays h' + owned_arrays t = live_arrays h + owned_arrays t')%nat.
Proof.
  intros Ht Hr. pose proof (lookup_lt_Some _ _ _ Ht) as Hlt.
  unfold assign_copy. destruct (Nat.eqb this rhs); cbn [negb]; cbv iota.
  - intros H. apply ret_inv in H as [-> ->].
    split; [split; [lia|intros; reflexivity]|]. split; [intros; reflexivity|].
    exists t. split; [exact Ht|reflexivity].
  - erewrite bind_Ret by (apply object_at_Some; exact Ht).
    erewrite bind_Ret by (apply object_at_Some; exact Hr).
    destruct ((size_ t >? size_ r) || (capacity_ t >=? capacity_ r)).
    + intros H. apply bind_Ret_inv in H as (q & h1 & Hcp & H).
      apply ret_inv in H as [-> ->].
      pose proof (std_copy_live _ _ _ _ _ _ _ Hcp) as Hlive.
      apply std_copy_keeps in Hcp as [Hlen Hk].
      split; [split; [lia|]|split].
      * intros b _ Hat Har. apply Hk; assumption.
      * intros a Ha. apply list_lookup_insert_ne. congruence.
      * exists (with_size t (size_ r)).
        split; [apply list_lookup_insert_eq; exact Hlt|].
        change (owned_arrays (with_size t (size_ r))) with (owned_arrays t). lia.
    + intros H. apply bind_Ret_inv in H as ([tmp t1] & h1 & Hre & H).
      pose proof (Realloc_live _ _ _ _ _ _ Hre) as (_ & Hown & Hl1).
      apply Realloc_inv in Hre as (-> & _ & Hnew & fresh & ->).
      apply bind_Ret_inv in H as (u & h2 & Hde & H).
      pose proof (ArrayPtr_destroy_live _ t _ _ _ Hde eq_refl) as Hl2.
      apply ArrayPtr_destroy_keeps in Hde as [Hlen2 Hk2].
      cbv zeta in H. apply bind_Ret_inv in H as (q & h3 & Hcp & H).
      apply ret_inv in H as [-> ->].
      pose proof (std_copy_live _ _ _ _ _ _ _ Hcp) as Hl3.
      apply std_copy_keeps in Hcp as [Hlen3 Hk3].
      rewrite length_app in Hlen2. simpl in Hlen2.
      split; [split; [lia|]|split].
      * intros b Hb Hat Har.
        rewrite Hk3; [|exact Har|].
        -- rewrite Hk2 by exact Hat. apply lookup_app_l. exact Hb.
        -- change (Get (data_ (with_size t1 (size_ r)))) with (Get (data_ t1)).
           rewrite Hnew. simpl. lia.
      * intros a Ha. apply list_lookup_insert_ne. congruence.
      * exists (with_size t1 (size_ r)).
        split; [apply list_lookup_insert_eq; exact Hlt|].
        change (owned_arrays (with_size t1 (size_ r))) with (owned_arrays t1). lia.
Qed.

Lemma assign_move_keeps this rhs objs h objs' h' t r :
  objs !! this = Some t -> objs !! rhs = Some r ->
  assign_move this rhs objs h = Ret (objs', h') ->
  ((length h <= length h')%nat /\
   forall b, (b < length h)%nat -> apart (Get (data_ t)) (Ptr b 0) ->
             apart (Get (data_ r)) (Ptr b 0) -> h' !! b = h !! b) /\
  (forall a, a <> this -> a <> rhs -> objs' !! a = objs !! a) /\
  exists t', objs' !! this = Some t' /\
    (live_arrays h' + owned_arrays t = live_arrays h + owned_arrays t')%nat.
Proof.
  intros Ht Hr. pose proof (lookup_lt_Some _ _ _ Ht) as Hlt.
  unfold assign_move. destruct (Nat.eqb_spec this rhs) as [Heq|Hne]; cbn [negb]; cbv iota.
  - intros H. apply ret_inv in H as [-> ->].
    split; [split; [lia|intros; reflexivity]|]. split; [intros; reflexivity|].
    exists t. split; [exact Ht|reflexivity].
  - erewrite bind_Ret by (apply object_at_Some; exact Ht).
    erewrite bind_Ret by (apply object_at_Some; exact Hr).
    destruct ((size_ t >? size_ r) || (capacity_ t >=? capacity_ r)).
    + intros H. apply bind_Ret_inv in H as (q & h1 & Hcp & H).
      apply ret_inv in H as [-> ->].
      pose proof (std_copy_live _ _ _ _ _ _ _ Hcp) as Hlive.
      apply std_copy_keeps in Hcp as [Hlen Hk].
      split; [split; [lia|]|split].
      * intros b _ Hat Har. apply Hk; assumption.
      * intros a Ha1 Ha2. rewrite !list_lookup_insert_ne by congruence. reflexivity.
      * exists (with_size t (size_ r)). split.
        -- rewrite list_lookup_insert_ne by congruence.
           apply list_lookup_insert_eq. exact Hlt.
        -- change (owned_arrays (with_size t (size_ r))) with (owned_arrays t). lia.
    + intros H. apply bind_Ret_inv in H as ([tmp t1] & h1 & Hre & H).
      pose proof (Realloc_live _ _ _ _ _ _ Hre) as (_ & Hown & Hl1).
      apply Realloc_inv in Hre as (-> & _ & Hnew & fresh & ->).
      apply bind_Ret_inv in H as (u & h2 & Hde & H).
      pose proof (ArrayPtr_destroy_live _ t _ _ _ Hde eq_refl) as Hl2.
      apply ArrayPtr_destroy_keeps in Hde as [Hlen2 Hk2].
      apply bind_Ret_inv in H as (q & h3 & Hcp & H).
      apply ret_inv in H as [-> ->].
      pose proof (std_copy_live _ _ _ _ _ _ _ Hcp) as Hl3.
      apply std_copy_keeps in Hcp as [Hlen3 Hk3].
      rewrite length_app in Hlen2. simpl in Hlen2.
      split; [split; [lia|]|split].
      * intros b Hb Hat Har.
        rewrite Hk3; [|exact Har|].
        -- rewrite Hk2 by exact Hat. apply lookup_app_l. exact Hb.
        -- rewrite Hnew. simpl. lia.
      * intros a Ha1 Ha2. rewrite !list_lookup_insert_ne by congruence. reflexivity.
      * exists (with_size t1 (size_ r)). split.
        -- rewrite list_lookup_insert_ne by congruence.
           apply list_lookup_insert_eq. exact Hlt.
        -- change (owned_arrays (with_size t1 (size_ r))) with (owned_arrays t1). lia.
Qed.

(** X25: the two assignment operators touch the arrays of the two vectors
    involved and nothing else.  Whenever [operator=], by copy or by move,
    returns, every other live array has the slots it had, so a third vector
    holds the elements it held; every other vector object is unchanged; and
    no array is leaked: when the destination takes a fresh array, the one it
    had is released. *)
Theorem assignments_keep_other_vectors this rhs objs h objs' h' t r :
  objs !! this = Some t -> objs !! rhs = Some r ->
  assign_copy this rhs objs h = Ret (objs', h') \/
  assign_move this rhs objs h = Ret (objs', h') ->
  (forall other lo,
     holds h other lo ->
     apart (Get (data_ t)) (Get (data_ other)) ->
     apart (Get (data_ r)) (Get (data_ other)) ->
     holds h' other lo) /\
  (forall a, a <> this -> a <> rhs -> objs' !! a = objs !! a) /\
  exists t', objs' !! this = Some t' /\
    (live_arrays h' + owned_arrays t = live_arrays h + owned_arrays t')%nat.
Proof.
  intros Ht Hr Hrun.
  assert (H : ((length h <= length h')%nat /\
               forall b, (b < length h)%nat -> apart (Get (data_ t)) (Ptr b 0) ->
                         apart (Get (data_ r)) (Ptr b 0) -> h' !! b = h !! b) /\
              (forall a, a <> this -> a <> rhs -> objs' !! a = objs !! a) /\
              exists t', objs' !! this = Some t' /\
                (live_arrays h' + owned_arrays t =
                 live_arrays h + owned_arrays t')%nat).
  { destruct Hrun as [H|H].
    - destruct (assign_copy_keeps _ _ _ _ _ _ _ _ Ht Hr H) as (Hk & Ho & Hl).
      split; [exact Hk|]. split; [|exact Hl]. intros a Ha _. apply Ho. exact Ha.
    - exact (assign_move_keeps _ _ _ _ _ _ _ _ Ht Hr H). }
  destruct H as ([Hlen Hk] & Ho & Hl). split; [|split; [exact Ho|exact Hl]].
  intros other lo (buf & Hb & Hrest) Hat Har. exists buf. split; [|exact Hrest].
  unfold buffer in *. destruct (Get (data_ other)) as [|b off]; [exact Hb|].
  destruct (off =? 0); [|discriminate].
  pose proof (block_of_lt _ _ _ Hb) as Hblt.
  unfold block_of in *. rewrite Hk; [exact Hb|exact Hblt| |].
  - destruct (Get (data_ t)); exact Hat.
  - destruct (Get (data_ r)); exact Har.
Qed.

End SimpleVector.

Arguments ref_object {T} x.
Arguments ref_slot {T} p.

(** * The theorems at concrete vectors *)

(** The examples use [int] elements, [int{}] = 0, and an allocator that
    grants up to 1000 slots.  [[1, 2, 3]] built from an initializer list
    lives in block 0 of a heap that holds nothing else. *)

Example init_list_123 :
  SimpleVector_init Z 1000 [1; 2; 3] [] =
  Ret ({| data_ := {| raw_ptr_ := Ptr 0 0 |}; size_ := 3; capacity_ := 3 |},
       [Some [Some 1; Some 2; Some 3]]).
Proof. reflexivity. Qed.



Lemma Insert_at_end_is_PushBack_witness :
  Insert_copy Z 1000 (Ptr 0 3) (ref_object 4)
    {| data_ := {| raw_ptr_ := Ptr 0 0 |}; size_ := 3; capacity_ := 3 |}
    [Some [Some 1; Some 2; Some 3]] =
  Ret ((Ptr 1 3,
        {| data_ := {| raw_ptr_ := Ptr 1 0 |}; size_ := 4; capacity_ := 6 |}),
       [None; Some [Some 1; Some 2; Some 3; Some 4; None; None]]).
Proof.
  destruct (Insert_at_end_is_PushBack Z 1000
              [Some [Some 1; Some 2; Some 3]]
              {| data_ := {| raw_ptr_ := Ptr 0 0 |}; size_ := 3; capacity_ := 3 |}
              (ref_object 4)) as [Hcopy _].
  - exists [Some 1; Some 2; Some 3]. repeat split; try reflexivity; try discriminate.
    repeat constructor; eexists; reflexivity.
  - etransitivity; [exact Hcopy|]. reflexivity.
Defined.

Lemma Erase_removes_witness :
  exists h' this',
    Erase Z (Ptr 0 1)
      {| data_ := {| raw_ptr_ := Ptr 0 0 |}; size_ := 3; capacity_ := 3 |}
      [Some [Some 1; Some 2; Some 3]] = Ret ((Ptr 0 1, this'), h') /\
    holds Z h' this' [1; 3] /\
    size_ this' = 2 /\ capacity_ this' = 3 /\
    load_value Z (Ptr 0 1) h' = Ret (3, h').
Proof.
  destruct (Erase_removes Z
              [Some [Some 1; Some 2; Some 3]]
              {| data_ := {| raw_ptr_ := Ptr 0 0 |}; size_ := 3; capacity_ := 3 |}
              [1; 2; 3] (Ptr 0 1)) as [_ Herase].
  - exists [Some 1; Some 2; Some 3]. repeat split; reflexivity.
  - destruct (Herase 1%nat) as (h' & this' & Hrun & Hres & Hsz & Hcap & Hdata & Hnext & _).
    + simpl. lia.
    + reflexivity.
    + assert (Hb : begin_ this' = Ptr 0 0).
      { unfold begin_. rewrite Hdata. reflexivity. }
      rewrite Hb in Hrun, Hnext.
      exists h', this'. repeat split; try assumption.
      apply (Hnext 3). reflexivity.
Defined.

Lemma At_checked_witness :
  At 3 {| data_ := {| raw_ptr_ := Ptr 0 0 |}; size_ := 3; capacity_ := 3 |} =
    Throw (out_of_range "index out of range in SimpleVector::At") /\
  At 0 {| data_ := {| raw_ptr_ := nullptr |}; size_ := 0; capacity_ := 0 |} =
    Throw (out_of_range "index out of range in SimpleVector::At") /\
  At 1 {| data_ := {| raw_ptr_ := Ptr 0 0 |}; size_ := 3; capacity_ := 3 |} =
    Ret (Ptr 0 1) /\
  load_value Z (Ptr 0 1) [Some [Some 1; Some 2; Some 3]] =
    Ret (2, [Some [Some 1; Some 2; Some 3]]).
Proof.
  destruct (At_checked Z 1
              {| data_ := {| raw_ptr_ := Ptr 0 0 |}; size_ := 3; capacity_ := 3 |})
    as (_ & _ & Hin & Hread).
  destruct Hin as [Hat _]; [reflexivity|].
  destruct (Hread [Some [Some 1; Some 2; Some 3]] [1; 2; 3]) as (x & Hx & Hload).
  - exists [Some 1; Some 2; Some 3]. repeat split; reflexivity.
  - split; [discriminate|reflexivity].
  - injection Hx as <-.
    split; [reflexivity|]. split; [reflexivity|]. split; [exact Hat|exact Hload].
Defined.

Lemma operator_eq_iff_witness :
  operator_eq Z Z.eqb
    {| data_ := {| raw_ptr_ := Ptr 0 0 |}; size_ := 3; capacity_ := 3 |}
    {| data_ := {| raw_ptr_ := Ptr 1 0 |}; size_ := 4; capacity_ := 4 |}
    [Some [Some 1; Some 2; Some 3]; Some [Some 1; Some 2; Some 3; Some 4]] =
  Ret (false,
       [Some [Some 1; Some 2; Some 3]; Some [Some 1; Some 2; Some 3; Some 4]]).
Proof.
  destruct (operator_eq_iff Z Z.eqb
              [Some [Some 1; Some 2; Some 3]; Some [Some 1; Some 2; Some 3; Some 4]]
              {| data_ := {| raw_ptr_ := Ptr 0 0 |}; size_ := 3; capacity_ := 3 |}
              {| data_ := {| raw_ptr_ := Ptr 1 0 |}; size_ := 4; capacity_ := 4 |}
              [1; 2; 3] [1; 2; 3; 4]) as (r & Hrun & _ & Hdiff).
  - exists [Some 1; Some 2; Some 3]. repeat split; reflexivity.
  - exists [Some 1; Some 2; Some 3; Some 4]. repeat split; reflexivity.
  - rewrite Hrun, Hdiff; [reflexivity|]. simpl. lia.
Defined.

Lemma assign_copy_spec_witness :
  exists h' t',
    assign_copy Z 1000 0 1
      [ {| data_ := {| raw_ptr_ := Ptr 0 0 |}; size_ := 1; capacity_ := 1 |};
        {| data_ := {| raw_ptr_ := Ptr 1 0 |}; size_ := 2; capacity_ := 2 |} ]
      [Some [Some 9]; Some [Some 1; Some 2]] =
      Ret ([ t';
             {| data_ := {| raw_ptr_ := Ptr 1 0 |}; size_ := 2; capacity_ := 2 |} ],
           h') /\
    holds Z h' t' [1; 2] /\
    Get (data_ t') = Ptr 2 0 /\ capacity_ t' = 2.
Proof.
  destruct (assign_copy_spec Z 1000
              [ {| data_ := {| raw_ptr_ := Ptr 0 0 |}; size_ := 1; capacity_ := 1 |};
                {| data_ := {| raw_ptr_ := Ptr 1 0 |}; size_ := 2; capacity_ := 2 |} ]
              [Some [Some 9]; Some [Some 1; Some 2]] 0%nat 1%nat
              {| data_ := {| raw_ptr_ := Ptr 0 0 |}; size_ := 1; capacity_ := 1 |}
              {| data_ := {| raw_ptr_ := Ptr 1 0 |}; size_ := 2; capacity_ := 2 |}
              [9] [1; 2]) as [_ Hassign].
  - reflexivity.
  - reflexivity.
  - exists [Some 9]. repeat split; reflexivity.
  - exists [Some 1; Some 2]. repeat split; reflexivity.
  - simpl. lia.
  - simpl. lia.
  - destruct Hassign as (h' & t' & Hrun & Ht' & _ & Hpath); [lia|].
    simpl in Hpath. destruct Hpath as [Hdata Hcap].
    exists h', t'. repeat split; assumption.
Defined.

Lemma assign_move_source_witness :
  exists h' t' r',
    assign_move Z 1000 0 1
      [ {| data_ := {| raw_ptr_ := Ptr 0 0 |}; size_ := 1; capacity_ := 1 |};
        {| data_ := {| raw_ptr_ := Ptr 1 0 |}; size_ := 2; capacity_ := 2 |} ]
      [Some [Some 9]; Some [Some 1; Some 2]] = Ret ([t'; r'], h') /\
    size_ r' = 0 /\ capacity_ r' = 2 /\ Get (data_ r') = Ptr 1 0 /\
    holds Z h' t' [1; 2].
Proof.
  destruct (assign_move_source Z 1000
              [ {| data_ := {| raw_ptr_ := Ptr 0 0 |}; size_ := 1; capacity_ := 1 |};
                {| data_ := {| raw_ptr_ := Ptr 1 0 |}; size_ := 2; capacity_ := 2 |} ]
              [Some [Some 9]; Some [Some 1; Some 2]] 0%nat 1%nat
              {| data_ := {| raw_ptr_ := Ptr 0 0 |}; size_ := 1; capacity_ := 1 |}
              {| data_ := {| raw_ptr_ := Ptr 1 0 |}; size_ := 2; capacity_ := 2 |}
              [9] [1; 2])
    as [(h' & t' & r' & Hrun & Hsz & Hcap & Hdata & _ & Ht' & _) _].
  - reflexivity.
  - reflexivity.
  - exists [Some 9]. repeat split; reflexivity.
  - exists [Some 1; Some 2]. repeat split; reflexivity.
  - simpl. lia.
  - simpl. lia.
  - lia.
  - exists h', t', r'. repeat split; try assumption.
    rewrite Hdata. reflexivity.
Defined.

(** C2, at the failing input: a vector with one element and capacity 2 is
    resized to 2, so [size_ < new_size <= capacity_] and the array has room;
    the code tests [new_size < capacity_], takes the growing path and leaves
    the vector with capacity 4 in a new array. *)
Theorem Resize_to_capacity_reallocates :
  holds Z [Some [Some 9; None]]
    {| data_ := {| raw_ptr_ := Ptr 0 0 |}; size_ := 1; capacity_ := 2 |} [9] /\
  Resize Z 0 1000 2
    {| data_ := {| raw_ptr_ := Ptr 0 0 |}; size_ := 1; capacity_ := 2 |}
    [Some [Some 9; None]] =
  Ret ({| data_ := {| raw_ptr_ := Ptr 1 0 |}; size_ := 2; capacity_ := 4 |},
       [None; Some [Some 9; Some 0; None; None]]).
Proof.
  split.
  - exists [Some 9; None]. repeat split; reflexivity.
  - reflexivity.
Qed.

Lemma Resize_up_example :
  exists h' this',
    Resize Z 0 1000 2
      {| data_ := {| raw_ptr_ := Ptr 0 0 |}; size_ := 1; capacity_ := 3 |}
      [Some [Some 9; None; None]] = Ret (this', h') /\
    holds Z h' this' [9; 0] /\
    size_ this' = 2 /\ capacity_ this' = 3.
Proof.
  destruct (Resize_up Z 0 1000
              [Some [Some 9; None; None]]
              {| data_ := {| raw_ptr_ := Ptr 0 0 |}; size_ := 1; capacity_ := 3 |}
              [9] 2) as [Hfill _].
  - exists [Some 9; None; None]. repeat split; reflexivity.
  - simpl. lia.
  - destruct Hfill as (h' & this' & Hrun & Hres & Hsz & Hcap & _); [simpl; lia|].
    exists h', this'. repeat split; assumption.
Defined.

(** C1, at the failing inputs.  The copying [Insert] on a full vector runs
    [std::copy_backward] with the end of the destination at [data_ + 1]
    where the moving [Insert] has [data_ + size_ + 1].  On [[1, 2, 3]]
    (size 3, capacity 3) with an lvalue 0 inserted at [begin()] the three
    elements are written to the slots -2, -1 and 0 of the new array, which is
    undefined behaviour; the moving variant yields [[0, 1, 2, 3]] and an
    iterator to the 0.  On [[7]] (size 1, capacity 1) the 7 is written to
    slot 0 and then overwritten: the vector is left with size 2, a 0 in
    slot 0 and no element in slot 1. *)
Theorem Insert_copy_full_vector :
  holds Z [Some [Some 1; Some 2; Some 3]]
    {| data_ := {| raw_ptr_ := Ptr 0 0 |}; size_ := 3; capacity_ := 3 |}
    [1; 2; 3] /\
  holds Z [Some [Some 7]]
    {| data_ := {| raw_ptr_ := Ptr 0 0 |}; size_ := 1; capacity_ := 1 |} [7] /\
  Insert_copy Z 1000 (Ptr 0 0) (ref_object 0)
    {| data_ := {| raw_ptr_ := Ptr 0 0 |}; size_ := 3; capacity_ := 3 |}
    [Some [Some 1; Some 2; Some 3]] = Undefined /\
  Insert_move Z 1000 (Ptr 0 0) (ref_object 0)
    {| data_ := {| raw_ptr_ := Ptr 0 0 |}; size_ := 3; capacity_ := 3 |}
    [Some [Some 1; Some 2; Some 3]] =
  Ret ((Ptr 1 0,
        {| data_ := {| raw_ptr_ := Ptr 1 0 |}; size_ := 4; capacity_ := 6 |}),
       [None; Some [Some 0; Some 1; Some 2; Some 3; None; None]]) /\
  Insert_copy Z 1000 (Ptr 0 0) (ref_object 0)
    {| data_ := {| raw_ptr_ := Ptr 0 0 |}; size_ := 1; capacity_ := 1 |}
    [Some [Some 7]] =
  Ret ((Ptr 1 0,
        {| data_ := {| raw_ptr_ := Ptr 1 0 |}; size_ := 2; capacity_ := 2 |}),
       [None; Some [Some 0; None]]) /\
  Insert_move Z 1000 (Ptr 0 0) (ref_object 0)
    {| data_ := {| raw_ptr_ := Ptr 0 0 |}; size_ := 1; capacity_ := 1 |}
    [Some [Some 7]] =
  Ret ((Ptr 1 0,
        {| data_ := {| raw_ptr_ := Ptr 1 0 |}; size_ := 2; capacity_ := 2 |}),
       [None; Some [Some 0; Some 7]]).
Proof.
  split; [exists [Some 1; Some 2; Some 3]; repeat split; reflexivity|].
  split; [exists [Some 7]; repeat split; reflexivity|].
  repeat split; reflexivity.
Qed.

(** C8, at the failing inputs.  [[7]] with size 1 and capacity 1 satisfies
    the invariant; after the copying [Insert] of 0 at [begin()] the vector
    has size 2 and slot 1, below [size_], holds no element.  On [[1, 2, 3]]
    the same call does not return a vector at all. *)
Theorem Insert_copy_breaks_invariant :
  invariant Z [Some [Some 7]]
    {| data_ := {| raw_ptr_ := Ptr 0 0 |}; size_ := 1; capacity_ := 1 |} /\
  Insert_copy Z 1000 (Ptr 0 0) (ref_object 0)
    {| data_ := {| raw_ptr_ := Ptr 0 0 |}; size_ := 1; capacity_ := 1 |}
    [Some [Some 7]] =
  Ret ((Ptr 1 0,
        {| data_ := {| raw_ptr_ := Ptr 1 0 |}; size_ := 2; capacity_ := 2 |}),
       [None; Some [Some 0; None]]) /\
  ~ invariant Z [None; Some [Some 0; None]]
      {| data_ := {| raw_ptr_ := Ptr 1 0 |}; size_ := 2; capacity_ := 2 |} /\
  invariant Z [Some [Some 1; Some 2; Some 3]]
    {| data_ := {| raw_ptr_ := Ptr 0 0 |}; size_ := 3; capacity_ := 3 |} /\
  Insert_copy Z 1000 (Ptr 0 0) (ref_object 0)
    {| data_ := {| raw_ptr_ := Ptr 0 0 |}; size_ := 3; capacity_ := 3 |}
    [Some [Some 1; Some 2; Some 3]] = Undefined.
Proof.
  split; [|split; [|split; [|split]]].
  - exists [Some 7]. repeat split; try reflexivity; try discriminate.
    repeat constructor. eexists. reflexivity.
  - reflexivity.
  - intros (buf & Hb & _ & _ & _ & Hlive).
    injection Hb as <-. simpl in Hlive.
    inversion Hlive as [|? ? _ Hrest]. inversion Hrest as [|? ? Hnone _].
    destruct Hnone as [v Hv]. discriminate.
  - exists [Some 1; Some 2; Some 3]. repeat split; try reflexivity; try discriminate.
    repeat constructor; eexists; reflexivity.
  - reflexivity.
Qed.

(** [Resize] with [new_size >= 2^63]: [capacity_multiplier * new_size] wraps
    around.  [[7]] resized to 2^63 asks [Realloc] for 0 slots, gets an array
    of one, and [std::fill] then writes behind it. *)
Lemma Resize_wraps_around :
  Resize Z 0 1000 (2 ^ 63)
    {| data_ := {| raw_ptr_ := Ptr 0 0 |}; size_ := 1; capacity_ := 1 |}
    [Some [Some 7]] = Undefined.
Proof.
  unfold Resize. cbn [size_ capacity_ data_].
  replace (2 ^ 63 <=? 1) with false by reflexivity.
  replace (2 ^ 63 <? 1) with false by reflexivity.
  replace (to_size_t (capacity_multiplier * 2 ^ 63)) with 0 by reflexivity.
  erewrite bind_Ret by reflexivity. cbv beta iota. cbn [size_ capacity_ data_].
  erewrite bind_Ret by reflexivity.
  unfold std_fill, Get. cbn [raw_ptr_ ptr_add ptr_diff]. rewrite Nat.eqb_refl.
  rewrite bind_assoc, bind_lift_Ret.
  replace (0 + 2 ^ 63 - (0 + 1) <? 0) with false by reflexivity.
  destruct (Z.to_nat (0 + 2 ^ 63 - (0 + 1))) as [|k] eqn:Hk; [lia|].
  reflexivity.
Qed.

(** * The further properties at concrete vectors *)

(** [[1, 2, 3]] with size 3 and capacity 3 in block 0. *)
Lemma holds_123 h :
  holds Z (Some [Some 1; Some 2; Some 3] :: h)
    {| data_ := {| raw_ptr_ := Ptr 0 0 |}; size_ := 3; capacity_ := 3 |} [1; 2; 3].
Proof. exists [Some 1; Some 2; Some 3]. repeat split; reflexivity. Qed.

Lemma SimpleVector_init_builds_witness :
  exists h' this,
    SimpleVector_init Z 1000 [1; 2; 3] [] = Ret (this, h') /\
    holds Z h' this [1; 2; 3] /\ GetSize this = 3 /\ GetCapacity this = 3.
Proof.
  destruct (SimpleVector_init_builds Z 1000 [1; 2; 3] []) as (Hok & _).
  - unfold size_t_modulus. lia.
  - destruct Hok as (h' & this & Hrun & Hres & Hsz & Hcap & _); [simpl; lia|].
    exists h', this. repeat split; assumption.
Defined.

Lemma SimpleVector_filled_builds_witness :
  exists h' this,
    SimpleVector_filled Z 1000 2 7 [] = Ret (this, h') /\
    holds Z h' this [7; 7] /\ GetSize this = 2 /\ GetCapacity this = 2.
Proof.
  destruct (SimpleVector_filled_builds Z 0 1000 2 7 []) as (Hok & _).
  - lia.
  - unfold size_t_modulus. lia.
  - destruct Hok as (h' & this & Hrun & Hres & Hsz & Hcap & _); [lia|].
    exists h', this. repeat split; assumption.
Defined.

Lemma SimpleVector_reserved_builds_witness :
  exists h' this h'',
    SimpleVector_reserved Z 1000 (Reserve_proxy 2) [] = Ret (this, h') /\
    holds Z h' this [] /\ GetCapacity this = 2 /\
    PushBack_copy Z 1000 (ref_object 5) this h' = Ret (with_size this 1, h'') /\
    holds Z h'' (with_size this 1) [5].
Proof.
  destruct (SimpleVector_reserved_builds Z 1000 2 5 [])
    as (h' & this & Hrun & Hres & _ & Hcap & _ & _ & Hpush).
  - lia.
  - unfold size_t_modulus. lia.
  - destruct Hpush as (h'' & Hc & _ & Hres' & _); [lia|].
    exists h', this, h''. repeat split; assumption.
Defined.

Lemma SimpleVector_copy_independent_witness :
  exists h1 this h2,
    SimpleVector_copy Z 1000
      {| data_ := {| raw_ptr_ := Ptr 0 0 |}; size_ := 3; capacity_ := 3 |}
      [Some [Some 1; Some 2; Some 3]] = Ret (this, h1) /\
    store Z (subscript 1 this) (Some 9) h1 = Ret (tt, h2) /\
    holds Z h2 this [1; 9; 3] /\
    holds Z h2
      {| data_ := {| raw_ptr_ := Ptr 0 0 |}; size_ := 3; capacity_ := 3 |} [1; 2; 3].
Proof.
  destruct (SimpleVector_copy_independent Z Z.eqb 1000
              {| data_ := {| raw_ptr_ := Ptr 0 0 |}; size_ := 3; capacity_ := 3 |}
              [1; 2; 3] [Some [Some 1; Some 2; Some 3]] 1%nat 9)
    as (h1 & this & Hrun & _ & _ & _ & _ & _ & _ & (h2 & Hst & Hnew & Hold) & _).
  - apply holds_123.
  - simpl. lia.
  - simpl. lia.
  - exists h1, this, h2. repeat split; assumption.
Defined.

Lemma subscript_assign_witness :
  exists h',
    store Z
      (subscript 1 {| data_ := {| raw_ptr_ := Ptr 0 0 |}; size_ := 3; capacity_ := 3 |})
      (Some 9) [Some [Some 1; Some 2; Some 3]] = Ret (tt, h') /\
    holds Z h'
      {| data_ := {| raw_ptr_ := Ptr 0 0 |}; size_ := 3; capacity_ := 3 |} [1; 9; 3] /\
    store Z
      (subscript 3 {| data_ := {| raw_ptr_ := Ptr 0 0 |}; size_ := 3; capacity_ := 3 |})
      (Some 9) [Some [Some 1; Some 2; Some 3]] = Undefined.
Proof.
  destruct (subscript_assign Z [Some [Some 1; Some 2; Some 3]]
              {| data_ := {| raw_ptr_ := Ptr 0 0 |}; size_ := 3; capacity_ := 3 |}
              [1; 2; 3] 1 9) as [Hin _].
  - apply holds_123.
  - lia.
  - destruct Hin as (h' & Hst & Hres & _); [simpl; lia|].
    exists h'. split; [exact Hst|]. split; [exact Hres|].
    destruct (subscript_assign Z [Some [Some 1; Some 2; Some 3]]
                {| data_ := {| raw_ptr_ := Ptr 0 0 |}; size_ := 3; capacity_ := 3 |}
                [1; 2; 3] 3 9) as [_ Hout].
    + apply holds_123.
    + lia.
    + destruct Hout as (Hundef & _); [simpl; lia|]. exact Hundef.
Defined.

Lemma mutators_keep_other_vectors_witness :
  PushBack_copy Z 1000 (ref_object 4)
    {| data_ := {| raw_ptr_ := Ptr 0 0 |}; size_ := 3; capacity_ := 3 |}
    [Some [Some 1; Some 2; Some 3]; Some [Some 8]] =
  Ret ({| data_ := {| raw_ptr_ := Ptr 2 0 |}; size_ := 4; capacity_ := 6 |},
       [None; Some [Some 8];
        Some [Some 1; Some 2; Some 3; Some 4; None; None]]) /\
  holds Z [None; Some [Some 8];
           Some [Some 1; Some 2; Some 3; Some 4; None; None]]
    {| data_ := {| raw_ptr_ := Ptr 1 0 |}; size_ := 1; capacity_ := 1 |} [8].
Proof.
  split; [reflexivity|].
  apply (proj2 (mutators_keep_other_vectors Z 0 1000
                  {| data_ := {| raw_ptr_ := Ptr 0 0 |}; size_ := 3; capacity_ := 3 |}
                  [Some [Some 1; Some 2; Some 3]; Some [Some 8]]
                  {| data_ := {| raw_ptr_ := Ptr 2 0 |}; size_ := 4; capacity_ := 6 |}
                  [None; Some [Some 8];
                   Some [Some 1; Some 2; Some 3; Some 4; None; None]]
                  nullptr nullptr (ref_object 4) 0 (or_introl eq_refl))).
  - exists [Some 8]. repeat split; reflexivity.
  - simpl. lia.
  - exact I.
Defined.

Lemma PopBack_drops_last_witness :
  holds Z [Some [Some 1; Some 2; Some 3]]
    (PopBack {| data_ := {| raw_ptr_ := Ptr 0 0 |}; size_ := 3; capacity_ := 3 |})
    [1; 2] /\
  GetSize (PopBack {| data_ := {| raw_ptr_ := Ptr 0 0 |}; size_ := 3; capacity_ := 3 |})
    = 2.
Proof.
  destruct (PopBack_drops_last Z 1000 [Some [Some 1; Some 2; Some 3]]
              {| data_ := {| raw_ptr_ := Ptr 0 0 |}; size_ := 3; capacity_ := 3 |}
              [1; 2; 3] (holds_123 [])) as (_ & Hpop & _).
  exact (Hpop [1; 2] 3 eq_refl).
Defined.

Lemma Clear_empties_witness :
  exists h',
    Resize Z 0 1000 2
      (Clear {| data_ := {| raw_ptr_ := Ptr 0 0 |}; size_ := 3; capacity_ := 3 |})
      [Some [Some 1; Some 2; Some 3]] =
      Ret ({| data_ := {| raw_ptr_ := Ptr 0 0 |}; size_ := 2; capacity_ := 3 |}, h') /\
    holds Z h'
      {| data_ := {| raw_ptr_ := Ptr 0 0 |}; size_ := 2; capacity_ := 3 |} [0; 0].
Proof.
  destruct (Clear_empties Z 0 1000 [Some [Some 1; Some 2; Some 3]]
              {| data_ := {| raw_ptr_ := Ptr 0 0 |}; size_ := 3; capacity_ := 3 |}
              [1; 2; 3] (holds_123 [])) as (_ & _ & _ & _ & _ & Hgrow).
  destruct (Hgrow 2) as (h' & Hrun & Hres); [simpl; lia|].
  exists h'. split; [exact Hrun|exact Hres].
Defined.

Lemma Reserve_exact_witness :
  exists h' this',
    Reserve Z 1000 10
      {| data_ := {| raw_ptr_ := Ptr 0 0 |}; size_ := 3; capacity_ := 3 |}
      [Some [Some 1; Some 2; Some 3]] = Ret (this', h') /\
    holds Z h' this' [1; 2; 3] /\ GetCapacity this' = 10 /\
    block_of Z h' 0 = None.
Proof.
  destruct (Reserve_exact Z 1000 [Some [Some 1; Some 2; Some 3]]
              {| data_ := {| raw_ptr_ := Ptr 0 0 |}; size_ := 3; capacity_ := 3 |}
              [1; 2; 3] 10 (holds_123 [])) as (_ & Hgrow & _).
  - unfold size_t_modulus. lia.
  - destruct Hgrow as (h' & this' & Hrun & Hres & _ & Hcap & _ & Hold & _);
      [simpl; lia|].
    exists h', this'. split; [exact Hrun|]. split; [exact Hres|].
    split; [exact Hcap|]. exact (Hold 0%nat 0 eq_refl).
Defined.

Lemma swap_twice_witness :
  exists objs',
    swap Z 0 1
      [ {| data_ := {| raw_ptr_ := Ptr 0 0 |}; size_ := 1; capacity_ := 1 |};
        {| data_ := {| raw_ptr_ := Ptr 1 0 |}; size_ := 2; capacity_ := 2 |} ]
      [Some [Some 9]; Some [Some 1; Some 2]] =
      Ret (objs', [Some [Some 9]; Some [Some 1; Some 2]]) /\
    objs' !! 0%nat =
      Some {| data_ := {| raw_ptr_ := Ptr 1 0 |}; size_ := 2; capacity_ := 2 |} /\
    objs' !! 1%nat =
      Some {| data_ := {| raw_ptr_ := Ptr 0 0 |}; size_ := 1; capacity_ := 1 |}.
Proof.
  destruct (swap_twice Z
              [ {| data_ := {| raw_ptr_ := Ptr 0 0 |}; size_ := 1; capacity_ := 1 |};
                {| data_ := {| raw_ptr_ := Ptr 1 0 |}; size_ := 2; capacity_ := 2 |} ]
              [Some [Some 9]; Some [Some 1; Some 2]] 0%nat 1%nat
              {| data_ := {| raw_ptr_ := Ptr 0 0 |}; size_ := 1; capacity_ := 1 |}
              {| data_ := {| raw_ptr_ := Ptr 1 0 |}; size_ := 2; capacity_ := 2 |}
              eq_refl eq_refl) as (objs' & Hrun & Hthis & Hother & _).
  exists objs'. repeat split; assumption.
Defined.

Lemma iterators_span_elements_witness :
  GetSize {| data_ := {| raw_ptr_ := Ptr 0 0 |}; size_ := 3; capacity_ := 3 |} = 3 /\
  load_value Z (Ptr 0 1) [Some [Some 1; Some 2; Some 3]] =
    Ret (2, [Some [Some 1; Some 2; Some 3]]) /\
  load_value Z (Ptr 0 3) [Some [Some 1; Some 2; Some 3]] = Undefined.
Proof.
  destruct (iterators_span_elements Z [Some [Some 1; Some 2; Some 3]]
              {| data_ := {| raw_ptr_ := Ptr 0 0 |}; size_ := 3; capacity_ := 3 |}
              [1; 2; 3] (holds_123 []))
    as (Hsz & _ & _ & _ & _ & _ & Hread & Hend).
  split; [exact Hsz|]. split; [exact (Hread 1%nat 2 eq_refl)|].
  exact (Hend eq_refl).
Defined.

Lemma operator_lt_lexicographic_witness :
  operator_lt Z Z.ltb
    {| data_ := {| raw_ptr_ := Ptr 0 0 |}; size_ := 3; capacity_ := 3 |}
    {| data_ := {| raw_ptr_ := Ptr 1 0 |}; size_ := 2; capacity_ := 2 |}
    [Some [Some 1; Some 2; Some 3]; Some [Some 1; Some 3]] =
  Ret (true, [Some [Some 1; Some 2; Some 3]; Some [Some 1; Some 3]]).
Proof.
  destruct (operator_lt_lexicographic Z Z.ltb
              [Some [Some 1; Some 2; Some 3]; Some [Some 1; Some 3]]
              {| data_ := {| raw_ptr_ := Ptr 0 0 |}; size_ := 3; capacity_ := 3 |}
              {| data_ := {| raw_ptr_ := Ptr 1 0 |}; size_ := 2; capacity_ := 2 |}
              [1; 2; 3] [1; 3]) as (r & Hrun & _ & Hiff).
  - apply holds_123.
  - exists [Some 1; Some 3]. repeat split; reflexivity.
  - assert (Hr : r = true).
    { apply Hiff. exists 1%nat. split.
      - intros [|j] x y Hj Hx Hy; [|lia].
        injection Hx as <-. injection Hy as <-. split; reflexivity.
      - right. exists 2, 3. repeat split; reflexivity. }
    rewrite Hr in Hrun. exact Hrun.
Defined.

Lemma Z_ltb_asym x y : Z.ltb x y = true -> Z.ltb y x = false.
Proof. intros H. apply Z.ltb_lt in H. apply Z.ltb_ge. lia. Qed.

Lemma Z_ltb_total x y : Z.ltb x y = false -> Z.ltb y x = false -> x = y.
Proof. intros H1 H2. apply Z.ltb_ge in H1, H2. lia. Qed.

Lemma ordering_operators_consistent_witness :
  operator_gt Z Z.eqb Z.ltb
    {| data_ := {| raw_ptr_ := Ptr 0 0 |}; size_ := 3; capacity_ := 3 |}
    {| data_ := {| raw_ptr_ := Ptr 1 0 |}; size_ := 2; capacity_ := 2 |}
    [Some [Some 1; Some 2; Some 3]; Some [Some 1; Some 3]] =
  operator_lt Z Z.ltb
    {| data_ := {| raw_ptr_ := Ptr 1 0 |}; size_ := 2; capacity_ := 2 |}
    {| data_ := {| raw_ptr_ := Ptr 0 0 |}; size_ := 3; capacity_ := 3 |}
    [Some [Some 1; Some 2; Some 3]; Some [Some 1; Some 3]].
Proof.
  destruct (ordering_operators_consistent Z Z.eqb Z.ltb
              Z.eqb_eq Z_ltb_asym Z_ltb_total
              [Some [Some 1; Some 2; Some 3]; Some [Some 1; Some 3]]
              {| data_ := {| raw_ptr_ := Ptr 0 0 |}; size_ := 3; capacity_ := 3 |}
              {| data_ := {| raw_ptr_ := Ptr 1 0 |}; size_ := 2; capacity_ := 2 |}
              [1; 2; 3] [1; 3]) as (Hgt & _).
  - apply holds_123.
  - exists [Some 1; Some 3]. repeat split; reflexivity.
  - exact Hgt.
Defined.

Lemma Insert_then_Erase_witness :
  exists h1 this1 it h2 this2,
    Insert_move Z 1000 (Ptr 0 1) (ref_object 9)
      {| data_ := {| raw_ptr_ := Ptr 0 0 |}; size_ := 3; capacity_ := 3 |}
      [Some [Some 1; Some 2; Some 3]] = Ret ((it, this1), h1) /\
    holds Z h1 this1 [1; 9; 2; 3] /\
    Erase Z it this1 h1 = Ret ((it, this2), h2) /\
    holds Z h2 this2 [1; 2; 3].
Proof.
  destruct (Insert_then_Erase Z 1000 (Insert_move Z 1000)
              [Some [Some 1; Some 2; Some 3]]
              {| data_ := {| raw_ptr_ := Ptr 0 0 |}; size_ := 3; capacity_ := 3 |}
              [1; 2; 3] 1%nat 9)
    as (h1 & this1 & it & Hrun & _ & Hres & _ & _ & h2 & this2 & Hrun2 & Hres2 & _).
  - left. reflexivity.
  - apply holds_123.
  - simpl. lia.
  - unfold size_t_modulus. lia.
  - intros _. unfold capacity_multiplier. simpl. lia.
  - exists h1, this1, it, h2, this2. repeat split; assumption.
Defined.

Lemma Erase_unchecked_witness :
  Erase Z (Ptr 0 3)
    {| data_ := {| raw_ptr_ := Ptr 0 0 |}; size_ := 3; capacity_ := 3 |}
    [Some [Some 1; Some 2; Some 3]] = Undefined.
Proof.
  destruct (Erase_unchecked Z [Some [Some 1; Some 2; Some 3]]
              {| data_ := {| raw_ptr_ := Ptr 0 0 |}; size_ := 3; capacity_ := 3 |}
              [1; 2; 3]) as (Hend & _).
  - apply holds_123.
  - discriminate.
  - exact Hend.
Defined.

Lemma Resize_shrink_then_grow_witness :
  exists h',
    Resize Z 0 1000 1
      {| data_ := {| raw_ptr_ := Ptr 0 0 |}; size_ := 3; capacity_ := 4 |}
      [Some [Some 1; Some 2; Some 3; None]] =
      Ret ({| data_ := {| raw_ptr_ := Ptr 0 0 |}; size_ := 1; capacity_ := 4 |},
           [Some [Some 1; Some 2; Some 3; None]]) /\
    Resize Z 0 1000 3
      {| data_ := {| raw_ptr_ := Ptr 0 0 |}; size_ := 1; capacity_ := 4 |}
      [Some [Some 1; Some 2; Some 3; None]] =
      Ret ({| data_ := {| raw_ptr_ := Ptr 0 0 |}; size_ := 3; capacity_ := 4 |}, h') /\
    holds Z h'
      {| data_ := {| raw_ptr_ := Ptr 0 0 |}; size_ := 3; capacity_ := 4 |} [1; 0; 0].
Proof.
  destruct (Resize_shrink_then_grow Z 0 1000
              [Some [Some 1; Some 2; Some 3; None]]
              {| data_ := {| raw_ptr_ := Ptr 0 0 |}; size_ := 3; capacity_ := 4 |}
              [1; 2; 3] 1 3) as (Hdown & _ & Hup).
  - exists [Some 1; Some 2; Some 3; None]. repeat split; reflexivity.
  - simpl. lia.
  - destruct Hup as (h' & Hrun & Hres & _); [simpl; lia|].
    exists h'. split; [exact Hdown|]. split; [exact Hrun|exact Hres].
Defined.

Lemma SimpleVector_move_transfers_witness :
  holds Z [Some [Some 1; Some 2; Some 3]]
    (fst (SimpleVector_move
            {| data_ := {| raw_ptr_ := Ptr 0 0 |}; size_ := 3; capacity_ := 3 |}))
    [1; 2; 3] /\
  snd (SimpleVector_move
         {| data_ := {| raw_ptr_ := Ptr 0 0 |}; size_ := 3; capacity_ := 3 |}) =
    SimpleVector_default.
Proof.
  destruct (SimpleVector_move_transfers Z 1000
              {| data_ := {| raw_ptr_ := Ptr 0 0 |}; size_ := 3; capacity_ := 3 |}
              [1; 2; 3] [Some [Some 1; Some 2; Some 3]] 5)
    as (Hnew & _ & _ & _ & Hsrc & _).
  - apply holds_123.
  - unfold size_t_modulus. lia.
  - split; [exact Hnew|exact Hsrc].
Defined.

Lemma growth_throws_bad_alloc_witness :
  PushBack_copy Z 5 (ref_object 4)
    {| data_ := {| raw_ptr_ := Ptr 0 0 |}; size_ := 3; capacity_ := 3 |}
    [Some [Some 1; Some 2; Some 3]] = Throw bad_alloc /\
  Resize Z 0 5 4
    {| data_ := {| raw_ptr_ := Ptr 0 0 |}; size_ := 3; capacity_ := 3 |}
    [Some [Some 1; Some 2; Some 3]] = Throw bad_alloc.
Proof.
  destruct (growth_throws_bad_alloc Z 0 5 [Some [Some 1; Some 2; Some 3]]
              {| data_ := {| raw_ptr_ := Ptr 0 0 |}; size_ := 3; capacity_ := 3 |}
              [1; 2; 3] (holds_123 [])) as (Hpush & Hresize).
  split.
  - destruct (Hpush eq_refl) with (item := @ref_object Z 4) as (Hc & _).
    + unfold size_t_modulus, capacity_multiplier. simpl. lia.
    + unfold capacity_multiplier. simpl. lia.
    + exact Hc.
  - apply Hresize; unfold size_t_modulus, capacity_multiplier; simpl; lia.
Defined.

Lemma Resize_half_range_never_returns_witness :
  to_size_t (capacity_multiplier * 2 ^ 63) < 2 ^ 63 /\
  forall r,
    Resize Z 0 1000 (2 ^ 63)
      {| data_ := {| raw_ptr_ := Ptr 0 0 |}; size_ := 3; capacity_ := 3 |}
      [Some [Some 1; Some 2; Some 3]] <> Ret r.
Proof.
  apply (Resize_half_range_never_returns Z 0 1000
           [Some [Some 1; Some 2; Some 3]]
           {| data_ := {| raw_ptr_ := Ptr 0 0 |}; size_ := 3; capacity_ := 3 |}
           [1; 2; 3] (2 ^ 63) (holds_123 [])).
  - simpl. lia.
  - lia.
  - unfold size_t_modulus. lia.
Defined.

Lemma PushBack_each_appends_witness :
  exists h' this',
    PushBack_each Z 1000 [4; 5]
      {| data_ := {| raw_ptr_ := Ptr 0 0 |}; size_ := 3; capacity_ := 3 |}
      [Some [Some 1; Some 2; Some 3]] = Ret (this', h') /\
    holds Z h' this' [1; 2; 3; 4; 5] /\ GetSize this' = 5.
Proof.
  destruct (PushBack_each_appends Z 1000 [4; 5]
              [Some [Some 1; Some 2; Some 3]]
              {| data_ := {| raw_ptr_ := Ptr 0 0 |}; size_ := 3; capacity_ := 3 |}
              [1; 2; 3] (holds_123 []))
    as (h' & this' & Hrun & Hres & Hsz & _).
  - unfold size_t_modulus. lia.
  - simpl. lia.
  - exists h', this'. repeat split; assumption.
Defined.

Lemma Insert_copy_full_misbehaves_witness :
  Insert_copy Z 1000 (Ptr 0 1) (ref_object 9)
    {| data_ := {| raw_ptr_ := Ptr 0 0 |}; size_ := 3; capacity_ := 3 |}
    [Some [Some 1; Some 2; Some 3]] = Undefined.
Proof.
  destruct (Insert_copy_full_misbehaves Z 1000 [Some [Some 1; Some 2; Some 3]]
              {| data_ := {| raw_ptr_ := Ptr 0 0 |}; size_ := 3; capacity_ := 3 |}
              [1; 2; 3] 1%nat 9 (holds_123 [])) as (Hub & _).
  - reflexivity.
  - unfold size_t_modulus. lia.
  - unfold capacity_multiplier. simpl. lia.
  - apply Hub. simpl. lia.
Defined.

Lemma mutators_release_what_they_replace_witness :
  Nat.add
    (live_arrays Z [None; Some [Some 8];
                    Some [Some 1; Some 2; Some 3; Some 4; None; None]])
    (owned_arrays
       {| data_ := {| raw_ptr_ := Ptr 0 0 |}; size_ := 3; capacity_ := 3 |}) =
  Nat.add
    (live_arrays Z [Some [Some 1; Some 2; Some 3]; Some [Some 8]])
    (owned_arrays
       {| data_ := {| raw_ptr_ := Ptr 2 0 |}; size_ := 4; capacity_ := 6 |}).
Proof.
  apply (mutators_release_what_they_replace Z 0 1000
           {| data_ := {| raw_ptr_ := Ptr 0 0 |}; size_ := 3; capacity_ := 3 |}
           [Some [Some 1; Some 2; Some 3]; Some [Some 8]]
           {| data_ := {| raw_ptr_ := Ptr 2 0 |}; size_ := 4; capacity_ := 6 |}
           [None; Some [Some 8];
            Some [Some 1; Some 2; Some 3; Some 4; None; None]]
           nullptr nullptr (ref_object 4) 0 (or_introl eq_refl)).
Defined.

Lemma PushBack_each_within_capacity_witness :
  exists h',
    PushBack_each Z 1000 [2; 3]
      {| data_ := {| raw_ptr_ := Ptr 0 0 |}; size_ := 1; capacity_ := 3 |}
      [Some [Some 1; None; None]] =
      Ret ({| data_ := {| raw_ptr_ := Ptr 0 0 |}; size_ := 3; capacity_ := 3 |}, h') /\
    holds Z h'
      {| data_ := {| raw_ptr_ := Ptr 0 0 |}; size_ := 3; capacity_ := 3 |} [1; 2; 3] /\
    length h' = 1%nat.
Proof.
  destruct (PushBack_each_within_capacity Z 1000 [2; 3]
              [Some [Some 1; None; None]]
              {| data_ := {| raw_ptr_ := Ptr 0 0 |}; size_ := 1; capacity_ := 3 |}
              [1]) as (h' & Hrun & Hres & Hlen & _).
  - exists [Some 1; None; None]. repeat split; reflexivity.
  - simpl. lia.
  - exists h'. split; [exact Hrun|]. split; [exact Hres|exact Hlen].
Defined.

Lemma growth_invalidates_iterators_witness :
  PushBack_copy Z 1000 (ref_object 4)
    {| data_ := {| raw_ptr_ := Ptr 0 0 |}; size_ := 3; capacity_ := 3 |}
    [Some [Some 1; Some 2; Some 3]] =
  Ret ({| data_ := {| raw_ptr_ := Ptr 1 0 |}; size_ := 4; capacity_ := 6 |},
       [None; Some [Some 1; Some 2; Some 3; Some 4; None; None]]) /\
  load Z (Ptr 0 1) [None; Some [Some 1; Some 2; Some 3; Some 4; None; None]] =
    Undefined.
Proof.
  split; [reflexivity|].
  destruct (growth_invalidates_iterators Z 0 1000
              {| data_ := {| raw_ptr_ := Ptr 0 0 |}; size_ := 3; capacity_ := 3 |}
              [Some [Some 1; Some 2; Some 3]]
              {| data_ := {| raw_ptr_ := Ptr 1 0 |}; size_ := 4; capacity_ := 6 |}
              [None; Some [Some 1; Some 2; Some 3; Some 4; None; None]]
              nullptr nullptr (ref_object 4) 0 1) as (_ & Hload & _).
  - left. split; [simpl; lia|]. left. reflexivity.
  - exact Hload.
Defined.

Lemma assignments_keep_other_vectors_witness :
  assign_copy Z 1000 0 1
    [ {| data_ := {| raw_ptr_ := Ptr 0 0 |}; size_ := 1; capacity_ := 1 |};
      {| data_ := {| raw_ptr_ := Ptr 1 0 |}; size_ := 2; capacity_ := 2 |};
      {| data_ := {| raw_ptr_ := Ptr 2 0 |}; size_ := 1; capacity_ := 1 |} ]
    [Some [Some 9]; Some [Some 1; Some 2]; Some [Some 5]] =
  Ret ([ {| data_ := {| raw_ptr_ := Ptr 3 0 |}; size_ := 2; capacity_ := 2 |};
         {| data_ := {| raw_ptr_ := Ptr 1 0 |}; size_ := 2; capacity_ := 2 |};
         {| data_ := {| raw_ptr_ := Ptr 2 0 |}; size_ := 1; capacity_ := 1 |} ],
       [None; Some [Some 1; Some 2]; Some [Some 5]; Some [Some 1; Some 2]]) /\
  holds Z [None; Some [Some 1; Some 2]; Some [Some 5]; Some [Some 1; Some 2]]
    {| data_ := {| raw_ptr_ := Ptr 2 0 |}; size_ := 1; capacity_ := 1 |} [5].
Proof.
  split; [reflexivity|].
  destruct (assignments_keep_other_vectors Z 1000 0%nat 1%nat
              [ {| data_ := {| raw_ptr_ := Ptr 0 0 |}; size_ := 1; capacity_ := 1 |};
                {| data_ := {| raw_ptr_ := Ptr 1 0 |}; size_ := 2; capacity_ := 2 |};
                {| data_ := {| raw_ptr_ := Ptr 2 0 |}; size_ := 1; capacity_ := 1 |} ]
              [Some [Some 9]; Some [Some 1; Some 2]; Some [Some 5]]
              [ {| data_ := {| raw_ptr_ := Ptr 3 0 |}; size_ := 2; capacity_ := 2 |};
                {| data_ := {| raw_ptr_ := Ptr 1 0 |}; size_ := 2; capacity_ := 2 |};
                {| data_ := {| raw_ptr_ := Ptr 2 0 |}; size_ := 1; capacity_ := 1 |} ]
              [None; Some [Some 1; Some 2]; Some [Some 5]; Some [Some 1; Some 2]]
              {| data_ := {| raw_ptr_ := Ptr 0 0 |}; size_ := 1; capacity_ := 1 |}
              {| data_ := {| raw_ptr_ := Ptr 1 0 |}; size_ := 2; capacity_ := 2 |}
              eq_refl eq_refl (or_introl eq_refl)) as (Hother & _).
  apply Hother.
  - exists [Some 5]. repeat split; reflexivity.
  - simpl. lia.
  - simpl. lia.
Defined.

(** X26: [Insert] reads its argument after it has shifted the elements.  On
    [[1, 2, 3]] with a free slot, [v.Insert(v.begin(), v[2])] finds in slot 2
    what the shift put there and gives [[2, 1, 2, 3]], where an object of
    its own that holds 3 gives [[3, 1, 2, 3]]; an argument in front of the
    position, [v.Insert(v.begin() + 1, v[0])], is read as it was.  The
    moving [Insert] handed an element behind the position,
    [v.Insert(v.begin(), std::move(v[1]))] on two strings, moves from the
    slot the shift filled and leaves a moved-from element inside the
    vector. *)
Theorem Insert_reads_after_shift :
  Insert_copy Z 1000 (Ptr 0 0) (ref_slot (Ptr 0 2))
    {| data_ := {| raw_ptr_ := Ptr 0 0 |}; size_ := 3; capacity_ := 4 |}
    [Some [Some 1; Some 2; Some 3; None]] =
  Ret ((Ptr 0 0,
        {| data_ := {| raw_ptr_ := Ptr 0 0 |}; size_ := 4; capacity_ := 4 |}),
       [Some [Some 2; Some 1; Some 2; Some 3]]) /\
  Insert_copy Z 1000 (Ptr 0 0) (ref_object 3)
    {| data_ := {| raw_ptr_ := Ptr 0 0 |}; size_ := 3; capacity_ := 4 |}
    [Some [Some 1; Some 2; Some 3; None]] =
  Ret ((Ptr 0 0,
        {| data_ := {| raw_ptr_ := Ptr 0 0 |}; size_ := 4; capacity_ := 4 |}),
       [Some [Some 3; Some 1; Some 2; Some 3]]) /\
  Insert_copy Z 1000 (Ptr 0 1) (ref_slot (Ptr 0 0))
    {| data_ := {| raw_ptr_ := Ptr 0 0 |}; size_ := 3; capacity_ := 4 |}
    [Some [Some 1; Some 2; Some 3; None]] =
  Ret ((Ptr 0 1,
        {| data_ := {| raw_ptr_ := Ptr 0 0 |}; size_ := 4; capacity_ := 4 |}),
       [Some [Some 1; Some 1; Some 2; Some 3]]) /\
  Insert_move string 1000 (Ptr 0 0) (ref_slot (Ptr 0 1))
    {| data_ := {| raw_ptr_ := Ptr 0 0 |}; size_ := 2; capacity_ := 3 |}
    [Some [Some "a"%string; Some "b"%string; None]] =
  Ret ((Ptr 0 0,
        {| data_ := {| raw_ptr_ := Ptr 0 0 |}; size_ := 3; capacity_ := 3 |}),
       [Some [Some "a"%string; None; Some "b"%string]]) /\
  ~ invariant string [Some [Some "a"%string; None; Some "b"%string]]
      {| data_ := {| raw_ptr_ := Ptr 0 0 |}; size_ := 3; capacity_ := 3 |}.
Proof.
  split; [reflexivity|]. split; [reflexivity|]. split; [reflexivity|].
  split; [reflexivity|].
  intros (buf & Hb & _ & _ & _ & Hlive).
  injection Hb as <-. simpl in Hlive.
  inversion Hlive as [|? ? _ Hrest]. inversion Hrest as [|? ? Hnone _].
  destruct Hnone as [v Hv]. discriminate.
Qed.
